(** * Column transformers of [src/custom_transformers.py]

    A shallow embedding of the six scikit-learn style transformers
    ([AreaFeatureSelector], [RareCategoryGrouper], [BooleanNormalizer],
    [DateFeatureExtractor], [OutlierClipper], [ColumnDropper]) together with
    the pandas operations their bodies call.

    Modelling conventions.
    - A cell is a Python value; numbers are exact rationals, so the rounding
      of IEEE doubles is not part of the model.  A column is a list of
      cells, as an object column is.  Where the code builds a column from
      computed values ([Series.map], the [dt] accessors) the dtype that
      pandas infers for it is part of the model ([infer_dtype]): integers
      next to a missing value are held as floats, and print as floats.
    - [Missing] stands for NaN, None and NaT alike.
    - A [DataFrame] held in a Python variable is an object of a store;
      [X.copy()] and [X.drop(...)] allocate, [X[col] = s] mutates in place.
      Series and sub-frames that the code only reads are plain values.
    - An estimator is passed by value: [fit] returns the updated estimator
      (the Python method mutates [self] and returns it). *)

From Stdlib Require Import String Ascii DecimalString DecimalPos DecimalZ.
From Stdlib Require Import ZArith QArith Qround Bool List Sorted Lia Lqa Psatz.
Import ListNotations.
Open Scope string_scope.
Open Scope list_scope.

Set Implicit Arguments.

(** ** Cells *)

Inductive cell : Type :=
| Missing
| Str (s : string)
| Bool (b : bool)
| Int (z : Z)
| Float (q : Q).

Definition Series := list cell.

(** [pd.isna] on one value. *)
Definition isna (c : cell) : bool :=
  match c with Missing => true | _ => false end.

(** The number a cell denotes in Python's numeric tower ([bool] is a
    subclass of [int]); strings and missing cells denote none. *)
Definition num_of_cell (c : cell) : option Q :=
  match c with
  | Bool b => Some (if b then 1 else 0)%Q
  | Int z => Some (inject_Z z)
  | Float q => Some q
  | Missing | Str _ => None
  end.

(** Python's [==] on cells: strings by content, numbers by value across
    [bool], [int] and [float]; NaN equals nothing. *)
Definition cell_eqb (a b : cell) : bool :=
  match a, b with
  | Str s, Str t => String.eqb s t
  | _, _ =>
      match num_of_cell a, num_of_cell b with
      | Some x, Some y => Qeq_bool x y
      | _, _ => false
      end
  end.

(** ** Strings: [str.lower] on the ASCII range *)

Definition lower_ascii (c : ascii) : ascii :=
  let n := nat_of_ascii c in
  if (65 <=? n)%nat && (n <=? 90)%nat then ascii_of_nat (n + 32) else c.

Fixpoint lower (s : string) : string :=
  match s with
  | EmptyString => EmptyString
  | String c s' => String (lower_ascii c) (lower s')
  end.

(** ** Insertion-ordered dictionaries

    A Python [dict] (and the column table of a frame): assignment to an
    existing key keeps its position, a new key goes last. *)

Section Dict.
Variable V : Type.

Definition dict := list (string * V).

Fixpoint dict_get (k : string) (d : dict) : option V :=
  match d with
  | [] => None
  | (k', v) :: d' => if String.eqb k k' then Some v else dict_get k d'
  end.

Fixpoint dict_set (k : string) (v : V) (d : dict) : dict :=
  match d with
  | [] => [(k, v)]
  | (k', v') :: d' =>
      if String.eqb k k' then (k, v) :: d' else (k', v') :: dict_set k v d'
  end.

Definition dict_mem (k : string) (d : dict) : bool :=
  match dict_get k d with Some _ => true | None => false end.

Definition dict_del (ks : list string) (d : dict) : dict :=
  filter (fun kv => negb (existsb (String.eqb (fst kv)) ks)) d.
End Dict.

(** ** Exceptions and results *)

(** The Python exception classes that the modelled statements can raise.
    [NotFittedError] and [ConfigurationError] are the classes named by the
    specification's error taxonomy; no statement of the source raises them.
    [SystemError] is the outcome of reading a reference that designates no
    object, which no Python program can hold. *)
Inductive exn : Type :=
| KeyError
| IndexError
| ValueError
| TypeError
| NotFittedError
| ConfigurationError
| SystemError.

Inductive result (A : Type) : Type :=
| Ok (a : A)
| Raise (e : exn).
Arguments Raise {A} e.

Definition result_bind {A B} (r : result A) (k : A -> result B) : result B :=
  match r with Ok a => k a | Raise e => Raise e end.

Fixpoint result_map {A B} (f : A -> result B) (l : list A) : result (list B) :=
  match l with
  | [] => Ok []
  | a :: l' =>
      result_bind (f a) (fun b =>
      result_bind (result_map f l') (fun bs => Ok (b :: bs)))
  end.

(** ** Frames *)

(** A frame: its index labels, one per row, and its columns by label, in
    column order. *)
Record DataFrame : Type := mkFrame {
  frame_index : list Z;
  frame_columns : dict Series
}.

(** Every column has one cell per index label. *)
Definition well_formed (X : DataFrame) : Prop :=
  forall col s, In (col, s) (frame_columns X) ->
                List.length s = List.length (frame_index X).

(** [X[col]] *)
Definition frame_getitem (X : DataFrame) (col : string) : result Series :=
  match dict_get col (frame_columns X) with
  | Some s => Ok s
  | None => Raise KeyError
  end.

(** [X[cols]] for a list of labels: the sub-frame of those columns in the
    listed order. *)
Definition frame_select (X : DataFrame) (cols : list string)
  : result DataFrame :=
  result_bind
    (result_map (fun c => result_bind (frame_getitem X c)
                            (fun s => Ok (c, s))) cols)
    (fun cs => Ok (mkFrame (frame_index X) cs)).

(** The frame after [X[col] = s]. *)
Definition frame_setitem (X : DataFrame) (col : string) (s : Series)
  : DataFrame :=
  mkFrame (frame_index X) (dict_set col s (frame_columns X)).

(** [X.drop(columns=cols, errors=...)]: with [errors="raise"] (the default)
    a label that is not a column raises [KeyError]. *)
Definition frame_drop (ignore : bool) (X : DataFrame) (cols : list string)
  : result DataFrame :=
  if ignore || forallb (fun c => dict_mem c (frame_columns X)) cols
  then Ok (mkFrame (frame_index X) (dict_del cols (frame_columns X)))
  else Raise KeyError.

(** ** Series operations of pandas used by the transformers *)

Fixpoint zip_with {A B C} (f : A -> B -> C) (l1 : list A) (l2 : list B)
  : list C :=
  match l1, l2 with
  | a :: l1', b :: l2' => f a b :: zip_with f l1' l2'
  | _, _ => []
  end.

(** [s.isin(values)]: membership by [==], with NaN matching a NaN among the
    values (pandas looks values up in a hash table that identifies NaNs). *)
Definition isin_cell (values : list cell) (c : cell) : bool :=
  if isna c then existsb isna values else existsb (cell_eqb c) values.

Definition isin (s : Series) (values : list cell) : list bool :=
  map (isin_cell values) s.

(** [s.where(cond, other=v)]: keep the cell where [cond] holds. *)
Definition where_ (s : Series) (cond : list bool) (other : cell) : Series :=
  zip_with (fun c (b : bool) => if b then c else other) s cond.

(** [s.value_counts()]: occurrences of each distinct non-missing value
    (missing cells are dropped: [dropna=True] is the default).  Entries are
    kept in order of first occurrence; pandas orders them by decreasing
    count, which the callers here never observe (they only test
    membership in the resulting index). *)
Fixpoint count_add (v : cell) (acc : list (cell * nat)) : list (cell * nat) :=
  match acc with
  | [] => [(v, 1%nat)]
  | (k, n) :: acc' =>
      if cell_eqb k v then (k, S n) :: acc' else (k, n) :: count_add v acc'
  end.

Definition value_counts (s : Series) : list (cell * nat) :=
  fold_left (fun acc v => if isna v then acc else count_add v acc) s [].

Definition counts_sum (vc : list (cell * nat)) : nat :=
  fold_right (fun kn acc => (snd kn + acc)%nat) 0%nat vc.

(** [s.value_counts(normalize=True)]: each count divided by the sum of the
    counts. *)
Definition value_counts_normalize (s : Series) : list (cell * Q) :=
  let vc := value_counts s in
  let total := inject_Z (Z.of_nat (counts_sum vc)) in
  map (fun kn => (fst kn, inject_Z (Z.of_nat (snd kn)) / total)%Q) vc.

(** [freq[freq >= threshold].index.tolist()] *)
Definition index_at_least (freq : list (cell * Q)) (threshold : Q)
  : list cell :=
  map fst (filter (fun kf => Qle_bool threshold (snd kf)) freq).

(** A Python float that may be NaN. *)
Definition scalar := option Q.

Fixpoint insert_sorted (x : Q) (l : list Q) : list Q :=
  match l with
  | [] => [x]
  | y :: l' => if Qle_bool x y then x :: l else y :: insert_sorted x l'
  end.

Definition sort_values (l : list Q) : list Q :=
  fold_right insert_sorted [] l.

(** The numbers of the non-missing cells; a string among them is the
    [TypeError] pandas raises on non-numeric data. *)
Definition numeric_values (s : Series) : result (list Q) :=
  result_map (fun c => match num_of_cell c with
                       | Some x => Ok x
                       | None => Raise TypeError
                       end)
             (filter (fun c => negb (isna c)) s).

(** Linear interpolation between the order statistics around position
    [q * (n - 1)] of the sorted, non-empty sample [xs]. *)
Definition interpolate (xs : list Q) (q : Q) : Q :=
  let n := List.length xs in
  let h := (q * inject_Z (Z.of_nat (n - 1)))%Q in
  let i := Z.to_nat (Qfloor h) in
  let g := (h - inject_Z (Qfloor h))%Q in
  let a := nth i xs 0%Q in
  let b := nth (Nat.min (i + 1) (n - 1)) xs 0%Q in
  (a + g * (b - a))%Q.

Definition in_unit_interval (q : Q) : bool := Qle_bool 0 q && Qle_bool q 1.

(** [s.quantile(q)] with the default linear interpolation: [ValueError]
    unless [0 <= q <= 1] (checked first), NaN when no cell is present. *)
Definition quantile (s : Series) (q : Q) : result scalar :=
  if in_unit_interval q then
    result_bind (numeric_values s) (fun xs =>
      match xs with
      | [] => Ok None
      | _ :: _ => Ok (Some (interpolate (sort_values xs) q))
      end)
  else Raise ValueError.

(** One cell of [s.clip(lower, upper)] once the bounds are settled: a
    missing cell is kept; a cell below the lower bound becomes that bound,
    then a cell above the upper bound becomes that bound. *)
Definition clip_lower (lower : scalar) (c : cell) : result cell :=
  match lower, c with
  | None, _ => Ok c
  | _, Missing => Ok Missing
  | Some lo, _ =>
      match num_of_cell c with
      | Some x => Ok (if Qle_bool lo x then c else Float lo)
      | None => Raise TypeError
      end
  end.

Definition clip_upper (upper : scalar) (c : cell) : result cell :=
  match upper, c with
  | None, _ => Ok c
  | _, Missing => Ok Missing
  | Some hi, _ =>
      match num_of_cell c with
      | Some x => Ok (if Qle_bool x hi then c else Float hi)
      | None => Raise TypeError
      end
  end.

(** [s.clip(lower, upper)] for scalar bounds: a NaN bound is no bound, and
    two bounds given in the wrong order are swapped (pandas takes
    [min(lower, upper)] and [max(lower, upper)]). *)
Definition clip_bounds (lower upper : scalar) : scalar * scalar :=
  match lower, upper with
  | Some lo, Some hi => if Qle_bool lo hi then (lower, upper) else (upper, lower)
  | _, _ => (lower, upper)
  end.

Definition clip (s : Series) (lower upper : scalar) : result Series :=
  let (lo, hi) := clip_bounds lower upper in
  result_bind (result_map (clip_lower lo) s) (fun s1 =>
  result_map (clip_upper hi) s1).

(** [frame.bfill(axis=1)]: along each row a missing cell takes the next
    non-missing value found in the columns to its right. *)
Definition fill_from (a b : cell) : cell := if isna a then b else a.

Fixpoint bfill_axis1 (d : dict Series) : dict Series :=
  match d with
  | [] => []
  | (k, s) :: rest =>
      match bfill_axis1 rest with
      | [] => [(k, s)]
      | ((_, r) :: _) as filled => (k, zip_with fill_from s r) :: filled
      end
  end.

(** [frame.iloc[:, 0]]: the first column; [IndexError] without any column. *)
Definition frame_iloc_col0 (X : DataFrame) : result Series :=
  match frame_columns X with
  | [] => Raise IndexError
  | (_, s) :: _ => Ok s
  end.

(** ** Parts of pandas taken as parameters *)

(** [repr] of a Python float, as [astype(str)] prints a float cell. *)
Class FloatRepr : Type := float_repr : Q -> string.

Record datetime : Type := mkDate {
  year : Z;
  month : Z;
  day : Z
}.

(** The calendar dates written [YYYY-MM-DD], within the years that a
    pandas timestamp holds whatever its version (1678 to 2261). *)
Definition digit (c : ascii) : option Z :=
  let n := nat_of_ascii c in
  if (48 <=? n)%nat && (n <=? 57)%nat then Some (Z.of_nat (n - 48)) else None.

Fixpoint number (s : string) (acc : Z) : option Z :=
  match s with
  | EmptyString => Some acc
  | String c s' =>
      match digit c with
      | Some d => number s' (acc * 10 + d)%Z
      | None => None
      end
  end.

Definition leap_year (y : Z) : bool :=
  ((y mod 4 =? 0)%Z && negb (y mod 100 =? 0)%Z) || (y mod 400 =? 0)%Z.

Definition days_in_month (y m : Z) : Z :=
  if (m =? 2)%Z then (if leap_year y then 29 else 28)%Z
  else if (m =? 4)%Z || (m =? 6)%Z || (m =? 9)%Z || (m =? 11)%Z then 30%Z
  else 31%Z.

Definition iso_date (s : string) : option datetime :=
  match number (substring 0 4 s) 0, number (substring 5 2 s) 0,
        number (substring 8 2 s) 0 with
  | Some y, Some m, Some d =>
      if (String.length s =? 10)%nat
         && String.eqb (substring 4 1 s) "-"
         && String.eqb (substring 7 1 s) "-"
         && (1678 <=? y)%Z && (y <=? 2261)%Z
         && (1 <=? m)%Z && (m <=? 12)%Z
         && (1 <=? d)%Z && (d <=? days_in_month y m)%Z
      then Some (mkDate y m d) else None
  | _, _, _ => None
  end.

(** A column of dates written [YYYY-MM-DD], with or without missing
    cells. *)
Definition iso_column (s : Series) : Prop :=
  forall c, In c s ->
            c = Missing \/ exists x d, c = Str x /\ iso_date x = Some d.

(** [pd.to_datetime(s, errors="coerce")].  When it returns, it returns one
    timestamp or NaT ([None]) per cell, NaT for a missing cell; it can
    also raise, [errors="coerce"] notwithstanding (pandas raises
    [ValueError] on strings with different UTC offsets).  Which strings it
    reads as dates is pandas' business, and may depend on the other cells
    of the column; the one thing taken for granted is that a column
    holding nothing but dates written [YYYY-MM-DD] is read, each string as
    the date it writes. *)
Class DatetimeParser : Type := {
  to_datetime : Series -> result (list (option datetime));
  to_datetime_length :
    forall s dates, to_datetime s = Ok dates ->
                    List.length dates = List.length s;
  to_datetime_missing :
    forall s dates i,
      to_datetime s = Ok dates -> nth_error s i = Some Missing ->
      nth_error dates i = Some None;
  to_datetime_iso :
    forall s, iso_column s ->
      exists dates,
        to_datetime s = Ok dates /\
        forall i x, nth_error s i = Some (Str x) ->
                    nth_error dates i = Some (iso_date x)
}.

(** The dtype that pandas infers for a column built from computed values:
    integers alone make an integer column; integers, floats and missing
    values together make a float column, in which an integer [z] is the
    float [z.0]; anything else stays a column of objects. *)
Definition is_int (c : cell) : bool :=
  match c with Int _ => true | _ => false end.

Definition is_real (c : cell) : bool :=
  match c with Int _ | Float _ | Missing => true | _ => false end.

Definition to_float (c : cell) : cell :=
  match c with Int z => Float (inject_Z z) | _ => c end.

Definition held_as_floats (s : Series) : bool :=
  forallb is_real s && negb (forallb is_int s).

Definition infer_dtype (s : Series) : Series :=
  if held_as_floats s then map to_float s else s.


(** [dates.dt.year] and [dates.dt.month]: integers, held as floats when a
    date of the column is NaT. *)
Definition dt_field (f : datetime -> Z) (dates : list (option datetime))
  : Series :=
  infer_dtype
    (map (fun d => match d with Some t => Int (f t) | None => Missing end)
         dates).

(** [str(v)] for a cell, as [astype(str)] applies it. *)
Definition str_of_cell `{FloatRepr} (c : cell) : string :=
  match c with
  | Missing => "nan"
  | Str s => s
  | Bool b => if b then "True" else "False"
  | Int z => NilZero.string_of_int (Z.to_int z)
  | Float q => float_repr q
  end.

(** [s.astype(str)] and [s.str.lower()] *)
Definition astype_str `{FloatRepr} (s : Series) : Series :=
  map (fun c => Str (str_of_cell c)) s.

Definition str_lower (s : Series) : Series :=
  map (fun c => match c with Str x => Str (lower x) | _ => Missing end) s.

(** ** The store of frames and the monad of the method bodies *)

Definition ref := nat.
Definition store := list DataFrame.

Definition M (A : Type) : Type := store -> result A * store.

Definition ret {A} (a : A) : M A := fun st => (Ok a, st).

Definition raise {A} (e : exn) : M A := fun st => (Raise e, st).

Definition bind {A B} (m : M A) (k : A -> M B) : M B :=
  fun st =>
    match m st with
    | (Ok a, st') => k a st'
    | (Raise e, st') => (Raise e, st')
    end.

Definition lift {A} (r : result A) : M A := fun st => (r, st).

Declare Scope py_scope.
Delimit Scope py_scope with py.
Notation "x <- m ;; k" := (bind m (fun x => k))
  (at level 61, m at next level, right associativity) : py_scope.
Notation "m ;; k" := (bind m (fun _ : unit => k))
  (at level 61, right associativity) : py_scope.
Open Scope py_scope.

(** [for a in l: body(a)] *)
Fixpoint for_each {A} (l : list A) (body : A -> M unit) : M unit :=
  match l with
  | [] => ret tt
  | a :: l' => body a ;; for_each l' body
  end.

(** A loop that threads an accumulator (the attribute being filled). *)
Fixpoint for_fold {A S} (l : list A) (body : S -> A -> M S) (acc : S) : M S :=
  match l with
  | [] => ret acc
  | a :: l' => acc' <- body acc a ;; for_fold l' body acc'
  end.

Definition new_frame (X : DataFrame) : M ref :=
  fun st => (Ok (List.length st), st ++ [X]).

Definition deref (r : ref) : M DataFrame :=
  fun st =>
    match nth_error st r with
    | Some X => (Ok X, st)
    | None => (Raise SystemError, st)
    end.

Fixpoint replace_nth {A} (n : nat) (a : A) (l : list A) : list A :=
  match l, n with
  | [], _ => []
  | _ :: l', O => a :: l'
  | b :: l', S n' => b :: replace_nth n' a l'
  end.

Definition assign (r : ref) (X : DataFrame) : M unit :=
  fun st =>
    match nth_error st r with
    | Some _ => (Ok tt, replace_nth r X st)
    | None => (Raise SystemError, st)
    end.

(** [X.copy()] *)
Definition copy (X : ref) : M ref :=
  F <- deref X ;; new_frame F.

(** [X[col]] *)
Definition getitem (X : ref) (col : string) : M Series :=
  F <- deref X ;; lift (frame_getitem F col).

(** [X[cols]] *)
Definition select (X : ref) (cols : list string) : M DataFrame :=
  F <- deref X ;; lift (frame_select F cols).

(** [X[col] = s] *)
Definition setitem (X : ref) (col : string) (s : Series) : M unit :=
  F <- deref X ;; assign X (frame_setitem F col s).

(** [X.drop(columns=cols)] and [X.drop(columns=cols, errors="ignore")] *)
Definition drop (ignore : bool) (X : ref) (cols : list string) : M ref :=
  F <- deref X ;;
  F' <- lift (frame_drop ignore F cols) ;;
  new_frame F'.

(** ** The transformers *)

Module AreaFeatureSelector.
Record t : Type := { area_columns : list string }.

Definition __init__ (area_columns : list string) : t :=
  {| area_columns := area_columns |}.

Definition fit (self : t) (X : ref) : M t := ret self.

Definition transform (self : t) (X : ref) : M ref :=
  X <- copy X ;;
  sub <- select X (area_columns self) ;;
  main <- lift (frame_iloc_col0
                  (mkFrame (frame_index sub)
                           (bfill_axis1 (frame_columns sub)))) ;;
  setitem X "MainArea" main ;;
  X <- drop false X (area_columns self) ;;
  ret X.
End AreaFeatureSelector.

Module RareCategoryGrouper.
Record t : Type := {
  columns : list string;
  min_frequency : Q;
  frequent_categories_ : dict (list cell)
}.

Definition default_min_frequency : Q := 1 # 100.

Definition __init__ (columns : list string) (min_frequency : Q) : t :=
  {| columns := columns;
     min_frequency := min_frequency;
     frequent_categories_ := [] |}.

Definition fit (self : t) (X : ref) : M t :=
  X <- copy X ;;
  cats <- for_fold (columns self)
            (fun cats col =>
               s <- getitem X col ;;
               let freq := value_counts_normalize s in
               ret (dict_set col (index_at_least freq (min_frequency self))
                             cats))
            (frequent_categories_ self) ;;
  ret {| columns := columns self;
         min_frequency := min_frequency self;
         frequent_categories_ := cats |}.

Definition transform (self : t) (X : ref) : M ref :=
  X <- copy X ;;
  for_each (columns self)
    (fun col =>
       s <- getitem X col ;;
       frequent <- lift (match dict_get col (frequent_categories_ self) with
                         | Some l => Ok l
                         | None => Raise KeyError
                         end) ;;
       setitem X col (where_ s (isin s frequent) (Str "Other"))) ;;
  ret X.
End RareCategoryGrouper.

Module BooleanNormalizer.
Record t : Type := { columns : list string }.

Definition __init__ (columns : list string) : t := {| columns := columns |}.

Definition fit (self : t) (X : ref) : M t := ret self.

Definition true_values : list cell :=
  [Str "yes"; Str "true"; Str "1"; Int 1; Bool true].
Definition false_values : list cell :=
  [Str "no"; Str "false"; Str "0"; Int 0; Bool false].

(** The lambda given to [map]; [x in true_values] is membership by [==].
    It returns the Python objects [1], [0] and [np.nan]. *)
Definition to_flag (x : cell) : cell :=
  if existsb (cell_eqb x) true_values then Int 1
  else if existsb (cell_eqb x) false_values then Int 0
  else Missing.

(** [Series.map] builds the new column from the objects the lambda
    returns, and infers its dtype: the flags are [1.0] and [0.0] as soon as
    one cell of the column maps to NaN. *)
Definition transform `{FloatRepr} (self : t) (X : ref) : M ref :=
  X <- copy X ;;
  for_each (columns self)
    (fun col =>
       s <- getitem X col ;;
       setitem X col (infer_dtype (map to_flag (str_lower (astype_str s))))) ;;
  ret X.
End BooleanNormalizer.

Module DateFeatureExtractor.
Record t : Type := { column : string; prefix : string }.

Definition default_prefix : string := "Publish".

Definition __init__ (column prefix : string) : t :=
  {| column := column; prefix := prefix |}.

Definition fit (self : t) (X : ref) : M t := ret self.

Definition transform `{DatetimeParser} (self : t) (X : ref) : M ref :=
  X <- copy X ;;
  s <- getitem X (column self) ;;
  dates <- lift (to_datetime s) ;;
  setitem X (prefix self ++ "Year")%string (dt_field year dates) ;;
  setitem X (prefix self ++ "Month")%string (dt_field month dates) ;;
  X <- drop false X [column self] ;;
  ret X.
End DateFeatureExtractor.

Module OutlierClipper.
Record t : Type := {
  columns : list string;
  lower_quantile : Q;
  upper_quantile : Q;
  bounds_ : dict (scalar * scalar)
}.

Definition default_lower_quantile : Q := 1 # 100.
Definition default_upper_quantile : Q := 99 # 100.

Definition __init__ (columns : list string) (lower_quantile upper_quantile : Q)
  : t :=
  {| columns := columns;
     lower_quantile := lower_quantile;
     upper_quantile := upper_quantile;
     bounds_ := [] |}.

Definition fit (self : t) (X : ref) : M t :=
  X <- copy X ;;
  bounds <- for_fold (columns self)
              (fun bounds col =>
                 s <- getitem X col ;;
                 lower <- lift (quantile s (lower_quantile self)) ;;
                 s <- getitem X col ;;
                 upper <- lift (quantile s (upper_quantile self)) ;;
                 ret (dict_set col (lower, upper) bounds))
              (bounds_ self) ;;
  ret {| columns := columns self;
         lower_quantile := lower_quantile self;
         upper_quantile := upper_quantile self;
         bounds_ := bounds |}.

Definition transform (self : t) (X : ref) : M ref :=
  X <- copy X ;;
  for_each (bounds_ self)
    (fun item =>
       let '(col, (lower, upper)) := item in
       s <- getitem X col ;;
       s' <- lift (clip s lower upper) ;;
       setitem X col s') ;;
  ret X.
End OutlierClipper.

Module ColumnDropper.
Record t : Type := { columns : list string }.

Definition __init__ (columns : list string) : t := {| columns := columns |}.

Definition fit (self : t) (X : ref) : M t := ret self.

Definition transform (self : t) (X : ref) : M ref :=
  X <- copy X ;;
  X <- drop true X (columns self) ;;
  ret X.
End ColumnDropper.

(** ** Calling a method on a table

    [call f X] runs the method body [f] in a store that holds the caller's
    table [X] alone, at reference [0]; [returned] reads the frame a
    [transform] hands back. *)

Definition call {A} (f : ref -> M A) (X : DataFrame) : result A :=
  fst (f 0%nat [X]).

Definition returned (f : ref -> M ref) (X : ref) : M DataFrame :=
  r <- f X ;; deref r.

(** The six units behind the common [fit]/[transform] interface. *)
Inductive transformer : Type :=
| Area (u : AreaFeatureSelector.t)
| Rare (u : RareCategoryGrouper.t)
| Boolean (u : BooleanNormalizer.t)
| Date (u : DateFeatureExtractor.t)
| Clipper (u : OutlierClipper.t)
| Dropper (u : ColumnDropper.t).

Definition transform `{FloatRepr} `{DatetimeParser} (u : transformer)
  : ref -> M ref :=
  match u with
  | Area u => AreaFeatureSelector.transform u
  | Rare u => RareCategoryGrouper.transform u
  | Boolean u => BooleanNormalizer.transform u
  | Date u => DateFeatureExtractor.transform u
  | Clipper u => OutlierClipper.transform u
  | Dropper u => ColumnDropper.transform u
  end.

(** The columns that the [transform] of a unit assigns to. *)
Definition assigned_columns (u : transformer) : list string :=
  match u with
  | Area _ => ["MainArea"]
  | Rare u => RareCategoryGrouper.columns u
  | Boolean u => BooleanNormalizer.columns u
  | Date u => [(DateFeatureExtractor.prefix u ++ "Year")%string;
               (DateFeatureExtractor.prefix u ++ "Month")%string]
  | Clipper u => map fst (OutlierClipper.bounds_ u)
  | Dropper _ => []
  end.

(** Reading a table by column label and row position. *)
Definition cell_at (X : DataFrame) (col : string) (i : nat) : option cell :=
  match dict_get col (frame_columns X) with
  | Some s => nth_error s i
  | None => None
  end.

Definition has_column (X : DataFrame) (col : string) : bool :=
  dict_mem col (frame_columns X).

(** ** The meaning of the loops on the value of the copied frame *)

(** [X[col] = g(X[col])] on the value of the frame [X]. *)
Definition rewrite_column (g : Series -> result Series) (col : string)
  (F : DataFrame) : result DataFrame :=
  result_bind (frame_getitem F col) (fun s =>
  result_bind (g s) (fun s' => Ok (frame_setitem F col s'))).

(** A loop whose body updates one frame: the outcome and the frame as the
    loop leaves it (on an exception, as the completed iterations left it). *)
Fixpoint loop_frame {A} (step : A -> DataFrame -> result DataFrame)
  (l : list A) (F : DataFrame) : result unit * DataFrame :=
  match l with
  | [] => (Ok tt, F)
  | a :: l' =>
      match step a F with
      | Ok F' => loop_frame step l' F'
      | Raise e => (Raise e, F)
      end
  end.

(** When every iteration is [X[key a] = g a (X[key a])]: what applying [g]
    leaves is left alone by a second application, and two items for one
    column rewrite it the same way. *)
Definition stable_rewrite {A} (g : A -> Series -> result Series)
  (l : list A) : Prop :=
  forall a s s', In a l -> g a s = Ok s' -> g a s' = Ok s'.

Definition coherent_rewrite {A} (key : A -> string)
  (g : A -> Series -> result Series) (l : list A) : Prop :=
  forall a b s, In a l -> In b l -> key a = key b -> g a s = g b s.

(** An accumulating loop whose body only reads. *)
Fixpoint fold_result {A S} (l : list A) (body : S -> A -> result S) (acc : S)
  : result S :=
  match l with
  | [] => Ok acc
  | a :: l' => result_bind (body acc a) (fold_result l' body)
  end.

Definition outcome (L : result unit * DataFrame) : result DataFrame :=
  match fst L with Ok _ => Ok (snd L) | Raise e => Raise e end.

(** ** The methods as functions of the value of their argument

    Each [*_value] below is what the method of the same module computes
    from the value of the caller's table; [runs_as] is the statement that a
    method body, run in any store, leaves every object of that store as it
    was and returns a new object holding that value.  The correspondence is
    proved for every method in the section on stores. *)

Definition runs_as (f : ref -> M ref) (v : DataFrame -> result DataFrame)
  : Prop :=
  forall st X F,
    nth_error st X = Some F ->
    exists res g,
      f X st = (res, st ++ g) /\
      match res with
      | Ok r => (List.length st <= r)%nat /\
                exists F', v F = Ok F' /\ nth_error (st ++ g) r = Some F'
      | Raise e => v F = Raise e
      end.

Definition area_value (self : AreaFeatureSelector.t) (F : DataFrame)
  : result DataFrame :=
  let cols := AreaFeatureSelector.area_columns self in
  result_bind (frame_select F cols) (fun sub =>
  result_bind (frame_iloc_col0
                 (mkFrame (frame_index sub) (bfill_axis1 (frame_columns sub))))
    (fun main => frame_drop false (frame_setitem F "MainArea" main) cols)).

Definition group_rare (cats : dict (list cell)) (col : string) (s : Series)
  : result Series :=
  match dict_get col cats with
  | Some frequent => Ok (where_ s (isin s frequent) (Str "Other"))
  | None => Raise KeyError
  end.

Definition rare_value (self : RareCategoryGrouper.t) (F : DataFrame)
  : result DataFrame :=
  outcome (loop_frame
             (fun col => rewrite_column
                           (group_rare
                              (RareCategoryGrouper.frequent_categories_ self)
                              col) col)
             (RareCategoryGrouper.columns self) F).

Definition rare_fit_value (self : RareCategoryGrouper.t) (F : DataFrame)
  : result RareCategoryGrouper.t :=
  result_bind
    (fold_result (RareCategoryGrouper.columns self)
       (fun cats col =>
          result_bind (frame_getitem F col) (fun s =>
          Ok (dict_set col
                (index_at_least (value_counts_normalize s)
                                (RareCategoryGrouper.min_frequency self))
                cats)))
       (RareCategoryGrouper.frequent_categories_ self))
    (fun cats =>
       Ok {| RareCategoryGrouper.columns := RareCategoryGrouper.columns self;
             RareCategoryGrouper.min_frequency :=
               RareCategoryGrouper.min_frequency self;
             RareCategoryGrouper.frequent_categories_ := cats |}).

Definition normalize_flags `{FloatRepr} (s : Series) : result Series :=
  Ok (infer_dtype
        (map BooleanNormalizer.to_flag (str_lower (astype_str s)))).

Definition boolean_value `{FloatRepr} (self : BooleanNormalizer.t)
  (F : DataFrame) : result DataFrame :=
  outcome (loop_frame (fun col => rewrite_column normalize_flags col)
                      (BooleanNormalizer.columns self) F).

Definition date_value `{DatetimeParser} (self : DateFeatureExtractor.t)
  (F : DataFrame) : result DataFrame :=
  let column := DateFeatureExtractor.column self in
  let prefix := DateFeatureExtractor.prefix self in
  result_bind (frame_getitem F column) (fun s =>
  result_bind (to_datetime s) (fun dates =>
  frame_drop false
    (frame_setitem
       (frame_setitem F (prefix ++ "Year")%string (dt_field year dates))
       (prefix ++ "Month")%string (dt_field month dates))
    [column])).

Definition clip_item (item : string * (scalar * scalar)) (s : Series)
  : result Series :=
  clip s (fst (snd item)) (snd (snd item)).

Definition clipper_value (self : OutlierClipper.t) (F : DataFrame)
  : result DataFrame :=
  outcome (loop_frame (fun item => rewrite_column (clip_item item) (fst item))
                      (OutlierClipper.bounds_ self) F).

Definition clipper_fit_value (self : OutlierClipper.t) (F : DataFrame)
  : result OutlierClipper.t :=
  result_bind
    (fold_result (OutlierClipper.columns self)
       (fun bounds col =>
          result_bind (frame_getitem F col) (fun s =>
          result_bind (quantile s (OutlierClipper.lower_quantile self))
            (fun lower =>
          result_bind (quantile s (OutlierClipper.upper_quantile self))
            (fun upper => Ok (dict_set col (lower, upper) bounds)))))
       (OutlierClipper.bounds_ self))
    (fun bounds =>
       Ok {| OutlierClipper.columns := OutlierClipper.columns self;
             OutlierClipper.lower_quantile :=
               OutlierClipper.lower_quantile self;
             OutlierClipper.upper_quantile :=
               OutlierClipper.upper_quantile self;
             OutlierClipper.bounds_ := bounds |}).

Definition dropper_value (self : ColumnDropper.t) (F : DataFrame)
  : result DataFrame :=
  frame_drop true F (ColumnDropper.columns self).

Definition transform_value `{FloatRepr} `{DatetimeParser} (u : transformer)
  : DataFrame -> result DataFrame :=
  match u with
  | Area u => area_value u
  | Rare u => rare_value u
  | Boolean u => boolean_value u
  | Date u => date_value u
  | Clipper u => clipper_value u
  | Dropper u => dropper_value u
  end.

(** ** Counting, for the statements about frequencies *)

(** Rows of a column that hold a value equal to [v], rows that hold any
    value, and the quotient of the two. *)
Definition occurrences (v : cell) (s : Series) : nat :=
  List.length (filter (cell_eqb v) s).

Definition present (s : Series) : nat :=
  List.length (filter (fun c => negb (isna c)) s).

Definition relative_frequency (v : cell) (s : Series) : Q :=
  inject_Z (Z.of_nat (occurrences v s)) / inject_Z (Z.of_nat (present s)).

(** The same count over all the rows, missing ones included. *)
Definition frequency_over_all_rows (v : cell) (s : Series) : Q :=
  inject_Z (Z.of_nat (occurrences v s)) / inject_Z (Z.of_nat (List.length s)).

(** No two entries of a table of counts are for equal values. *)
Fixpoint distinct_keys {B} (acc : list (cell * B)) : Prop :=
  match acc with
  | [] => True
  | (k, _) :: acc' =>
      (forall k' n', In (k', n') acc' -> cell_eqb k k' = false) /\
      distinct_keys acc'
  end.

(** [acc] is the table of counts of the cells [p]. *)
Definition counts_of (p : Series) (acc : list (cell * nat)) : Prop :=
  distinct_keys acc /\
  (forall k n, In (k, n) acc ->
     isna k = false /\ n = occurrences k p /\ (0 < n)%nat) /\
  (forall c, In c p -> isna c = false ->
     exists k n, In (k, n) acc /\ cell_eqb k c = true) /\
  counts_sum acc = present p.

(** ** The area unifier, in the words of its contract *)

(** The first non-missing value of a row read in the listed order, missing
    when there is none. *)
Fixpoint first_non_missing (cells : list cell) : cell :=
  match cells with
  | [] => Missing
  | c :: cells' => if isna c then first_non_missing cells' else c
  end.

(** ** The clipper, cell by cell *)

(** [clip] on one cell. *)
Definition clip_cell (lower upper : scalar) (c : cell) : result cell :=
  let (lo, hi) := clip_bounds lower upper in
  result_bind (clip_lower lo c) (clip_upper hi).

(** The cell is a number of the interval [[lower, upper]].  As with
    Python's comparisons, nothing lies within bounds one of which is NaN. *)
Definition within (lower upper : scalar) (c : cell) : Prop :=
  exists lo hi x,
    lower = Some lo /\ upper = Some hi /\ num_of_cell c = Some x /\
    (lo <= x)%Q /\ (x <= hi)%Q.

Definition is_number (c : cell) : bool :=
  match num_of_cell c with Some _ => true | None => false end.

(** A column of numbers and missing cells. *)
Definition numeric_column (s : Series) : bool :=
  forallb (fun c => isna c || is_number c) s.

(** The pair of bounds that [OutlierClipper.fit] computes for a column. *)
Definition column_bounds (lower_quantile upper_quantile : Q) (F : DataFrame)
  (col : string) : result (scalar * scalar) :=
  result_bind (frame_getitem F col) (fun s =>
  result_bind (quantile s lower_quantile) (fun lower =>
  result_bind (quantile s upper_quantile) (fun upper => Ok (lower, upper)))).

(** ** Sample tables and units *)

Module Sample.
(** The end-to-end example of the specification: six rows of [City]. *)
Definition city_fit : DataFrame :=
  mkFrame [0; 1; 2; 3; 4; 5]%Z
    [("City", [Str "A"; Str "A"; Str "A"; Str "B"; Str "B"; Str "C"])].

Definition city_new : DataFrame :=
  mkFrame [0; 1; 2; 3; 4]%Z
    [("City", [Str "A"; Str "B"; Str "C"; Str "D"; Missing])].

Definition city_grouped : DataFrame :=
  mkFrame [0; 1; 2; 3; 4]%Z
    [("City", [Str "A"; Str "B"; Str "Other"; Str "Other"; Str "Other"])].

Definition grouper (min_frequency : Q) (cats : dict (list cell))
  : RareCategoryGrouper.t :=
  {| RareCategoryGrouper.columns := ["City"];
     RareCategoryGrouper.min_frequency := min_frequency;
     RareCategoryGrouper.frequent_categories_ := cats |}.

(** One value among missing cells. *)
Definition sparse : DataFrame :=
  mkFrame [0; 1; 2; 3]%Z [("City", [Str "A"; Missing; Missing; Missing])].

(** A numeric column with a gap, and a column without any value. *)
Definition measures : DataFrame :=
  mkFrame [0; 1; 2; 3; 4]%Z
    [("a", [Int 1; Int 2; Missing; Float (7 # 2); Int 10]);
     ("b", [Missing; Missing; Missing; Missing; Missing])].

(** [repr] for the floats of the samples: one decimal digit. *)
Definition repr_one_decimal : FloatRepr :=
  fun q =>
    let whole := Qfloor q in
    let tenth := Qfloor ((q - inject_Z whole) * 10) in
    (NilZero.string_of_int (Z.to_int whole) ++ "." ++
     NilZero.string_of_int (Z.to_int tenth))%string.

Definition flags : DataFrame :=
  mkFrame [0; 1; 2; 3; 4; 5; 6; 7; 8]%Z
    [("Garage", [Str "YES"; Str "yes"; Str "Yes"; Str "No"; Bool true;
                 Int 0; Float 1; Missing; Str "maybe"]);
     ("Id", [Int 1; Int 2; Int 3; Int 4; Int 5; Int 6; Int 7; Int 8; Int 9])].

(** Two area measurements per listing, and the same table when one of
    them is itself called [MainArea]. *)
Definition areas : DataFrame :=
  mkFrame [0; 1; 2]%Z
    [("Price", [Int 100; Int 200; Int 300]);
     ("LivingArea", [Missing; Float (111 # 2); Missing]);
     ("TotalArea", [Int 70; Int 80; Missing])].

Definition areas_unified : DataFrame :=
  mkFrame [0; 1; 2]%Z
    [("Price", [Int 100; Int 200; Int 300]);
     ("MainArea", [Int 70; Float (111 # 2); Missing])].

Definition areas_main : DataFrame :=
  mkFrame [0; 1; 2]%Z
    [("Price", [Int 100; Int 200; Int 300]);
     ("MainArea", [Missing; Float (111 # 2); Missing]);
     ("TotalArea", [Int 70; Int 80; Missing])].

Definition prices_only : DataFrame :=
  mkFrame [0; 1; 2]%Z [("Price", [Int 100; Int 200; Int 300])].

(** A parser for the samples: it reads the dates written [YYYY-MM-DD]
    and nothing else (pandas reads many more), and never raises. *)
Definition iso_cell (c : cell) : option datetime :=
  match c with Str s => iso_date s | _ => None end.

Definition iso_parser_length (s : Series) (dates : list (option datetime))
  (H : Ok (map iso_cell s) = Ok dates) : List.length dates = List.length s :=
  match H in _ = r
        return match r with
               | Ok l => List.length l = List.length s
               | Raise _ => True
               end
  with eq_refl => length_map iso_cell s end.

Definition iso_parser_missing (s : Series) (dates : list (option datetime))
  (i : nat) (H : Ok (map iso_cell s) = Ok dates)
  (Hi : nth_error s i = Some Missing) : nth_error dates i = Some None :=
  match H in _ = r
        return match r with
               | Ok l => nth_error l i = Some None
               | Raise _ => True
               end
  with eq_refl =>
    eq_trans (nth_error_map iso_cell i s) (f_equal (option_map iso_cell) Hi)
  end.

Definition iso_parser_iso (s : Series) (H : iso_column s)
  : exists dates,
      Ok (map iso_cell s) = Ok dates /\
      forall i x, nth_error s i = Some (Str x) ->
                  nth_error dates i = Some (iso_date x) :=
  ex_intro _ (map iso_cell s)
    (conj eq_refl
       (fun i x Hi =>
          eq_trans (nth_error_map iso_cell i s)
                   (f_equal (option_map iso_cell) Hi))).

Definition iso_parser : DatetimeParser :=
  {| to_datetime := fun s => Ok (map iso_cell s);
     to_datetime_length := iso_parser_length;
     to_datetime_missing := iso_parser_missing;
     to_datetime_iso := iso_parser_iso |}.

Definition listings : DataFrame :=
  mkFrame [0; 1; 2]%Z
    [("PublishDate", [Str "2024-03-15"; Str "not-a-date"; Missing]);
     ("Price", [Int 100; Int 200; Int 300])].

Definition listings_dated : DataFrame :=
  mkFrame [0; 1; 2]%Z
    [("Price", [Int 100; Int 200; Int 300]);
     ("PublishYear", [Float 2024; Missing; Missing]);
     ("PublishMonth", [Float 3; Missing; Missing])].




Definition readings : DataFrame :=
  mkFrame [0; 1]%Z [("b", [Int 5; Missing])].

(** Whole numbers, one of them a float, and a gap. *)
Definition floors : DataFrame :=
  mkFrame [0; 1; 2; 3; 4]%Z
    [("Floor", [Int 3; Missing; Int 1; Float 2; Int 12]);
     ("Rooms", [Int 2; Int 2; Int 5; Int 1; Int 3])].

Definition clipper (columns : list string) (lower_quantile upper_quantile : Q)
  (bounds : dict (scalar * scalar)) : OutlierClipper.t :=
  {| OutlierClipper.columns := columns;
     OutlierClipper.lower_quantile := lower_quantile;
     OutlierClipper.upper_quantile := upper_quantile;
     OutlierClipper.bounds_ := bounds |}.
End Sample.

(** ** Further notions, for the properties beyond the claims *)

(** The column labels of a frame, in column order. *)
Definition labels (X : DataFrame) : list string := map fst (frame_columns X).

Definition listed (cols : list string) (col : string) : bool :=
  existsb (String.eqb col) cols.

(** The columns that the [transform] of a unit reads with [X[...]]. *)
Definition required_columns (u : transformer) : list string :=
  match u with
  | Area u => AreaFeatureSelector.area_columns u
  | Rare u => RareCategoryGrouper.columns u
  | Boolean u => BooleanNormalizer.columns u
  | Date u => [DateFeatureExtractor.column u]
  | Clipper u => map fst (OutlierClipper.bounds_ u)
  | Dropper _ => []
  end.

(** [fit] behind the common interface. *)
Definition fit (u : transformer) (X : ref) : M transformer :=
  match u with
  | Area u => u' <- AreaFeatureSelector.fit u X ;; ret (Area u')
  | Rare u => u' <- RareCategoryGrouper.fit u X ;; ret (Rare u')
  | Boolean u => u' <- BooleanNormalizer.fit u X ;; ret (Boolean u')
  | Date u => u' <- DateFeatureExtractor.fit u X ;; ret (Date u')
  | Clipper u => u' <- OutlierClipper.fit u X ;; ret (Clipper u')
  | Dropper u => u' <- ColumnDropper.fit u X ;; ret (Dropper u')
  end.

(** A unit with its learned attributes emptied, as its constructor builds
    it from the same arguments. *)
Definition as_constructed (u : transformer) : transformer :=
  match u with
  | Rare u =>
      Rare (RareCategoryGrouper.__init__ (RareCategoryGrouper.columns u)
              (RareCategoryGrouper.min_frequency u))
  | Clipper u =>
      Clipper (OutlierClipper.__init__ (OutlierClipper.columns u)
                 (OutlierClipper.lower_quantile u)
                 (OutlierClipper.upper_quantile u))
  | _ => u
  end.

(** The labels after an assignment [X[k] = ...]: an existing label keeps
    its place, a new one goes last. *)
Definition add_label (k : string) (L : list string) : list string :=
  if listed L k then L else L ++ [k].

(** The number that [clip] makes of the number [x]: raised to the lower
    bound, then lowered to the upper bound, the two bounds swapped first
    when they come in the wrong order. *)
Definition clamp (lower upper : scalar) (x : Q) : Q :=
  let (lo, hi) := clip_bounds lower upper in
  let y := match lo with
           | Some l => if Qle_bool l x then x else l
           | None => x
           end in
  match hi with
  | Some h => if Qle_bool y h then y else h
  | None => y
  end.

(** A whole number of magnitude at most 2^53, as an integer or as a
    float: a number that an IEEE double holds exactly.  The smallest and
    the largest of such numbers are quantiles that pandas computes
    without rounding, as this development computes every quantile. *)
Definition exact_integer (c : cell) : Prop :=
  exists z, (c = Int z \/ c = Float (inject_Z z)) /\ (Z.abs z <= 2 ^ 53)%Z.

(** The table without the columns [cols], as [X.drop(columns=cols,
    errors="ignore")] builds it. *)
Definition dropped (cols : list string) (X : DataFrame) : DataFrame :=
  mkFrame (frame_index X) (dict_del cols (frame_columns X)).

(** * Properties *)

Unset Implicit Arguments.

(** ** Dictionaries *)

Section DictFacts.
Variable V : Type.
Implicit Types (d : dict V) (k : string) (v : V).

Lemma dict_get_set_same k v d : dict_get k (dict_set k v d) = Some v.
Proof.
  induction d as [|[k' v'] d IH]; simpl.
  - now rewrite String.eqb_refl.
  - destruct (String.eqb k k') eqn:E; simpl; rewrite ?String.eqb_refl, ?E; auto.
Qed.

Lemma dict_get_set_other k k' v d :
  k <> k' -> dict_get k' (dict_set k v d) = dict_get k' d.
Proof.
  intros Hne. induction d as [|[k0 v0] d IH]; simpl.
  - destruct (String.eqb k' k) eqn:E; auto.
    apply String.eqb_eq in E. congruence.
  - destruct (String.eqb k k0) eqn:E; simpl.
    + apply String.eqb_eq in E. subst k0.
      destruct (String.eqb k' k) eqn:E'; auto.
      apply String.eqb_eq in E'. congruence.
    + now rewrite IH.
Qed.

Lemma dict_set_get_id k v d : dict_get k d = Some v -> dict_set k v d = d.
Proof.
  induction d as [|[k0 v0] d IH]; simpl; [discriminate|].
  destruct (String.eqb k k0) eqn:E.
  - apply String.eqb_eq in E. intros [= ->]. now subst.
  - intros H. now rewrite IH.
Qed.

Lemma dict_set_keys_present k v d :
  dict_mem k d = true -> map fst (dict_set k v d) = map fst d.
Proof.
  unfold dict_mem. induction d as [|[k0 v0] d IH]; simpl; [discriminate|].
  destruct (String.eqb k k0) eqn:E; simpl.
  - apply String.eqb_eq in E. now subst.
  - intros H. now rewrite IH.
Qed.

Lemma dict_get_In k v d : dict_get k d = Some v -> In (k, v) d.
Proof.
  induction d as [|[k0 v0] d IH]; simpl; [discriminate|].
  destruct (String.eqb k k0) eqn:E.
  - apply String.eqb_eq in E. intros [= ->]. left. now subst.
  - auto.
Qed.

Lemma dict_get_None k d : dict_get k d = None <-> ~ In k (map fst d).
Proof.
  induction d as [|[k0 v0] d IH]; simpl; [tauto|].
  destruct (String.eqb k k0) eqn:E.
  - apply String.eqb_eq in E. subst. split; [discriminate|tauto].
  - apply String.eqb_neq in E. rewrite IH. split; [intros H [?|?]; auto; congruence|tauto].
Qed.

Lemma dict_get_NoDup k v d :
  NoDup (map fst d) -> In (k, v) d -> dict_get k d = Some v.
Proof.
  induction d as [|[k0 v0] d IH]; simpl; [tauto|].
  intros Hnd [Heq|Hin].
  - injection Heq as -> ->. now rewrite String.eqb_refl.
  - inversion Hnd as [|? ? Hnot Hnd']; subst.
    destruct (String.eqb k k0) eqn:E; auto.
    apply String.eqb_eq in E. subst k0. exfalso. apply Hnot.
    change k with (fst (k, v)). now apply in_map.
Qed.

Lemma dict_set_In_keys k v d k' :
  In k' (map fst (dict_set k v d)) <-> k' = k \/ In k' (map fst d).
Proof.
  induction d as [|[k0 v0] d IH]; simpl.
  - intuition.
  - destruct (String.eqb k k0) eqn:E; simpl.
    + apply String.eqb_eq in E. subst. intuition.
    + rewrite IH. intuition.
Qed.

Lemma dict_set_NoDup k v d :
  NoDup (map fst d) -> NoDup (map fst (dict_set k v d)).
Proof.
  induction d as [|[k0 v0] d IH]; simpl; intros Hnd.
  - constructor; [simpl; tauto|constructor].
  - inversion Hnd as [|? ? Hnot Hnd']; subst.
    destruct (String.eqb k k0) eqn:E; simpl.
    + apply String.eqb_eq in E. subst. now constructor.
    + constructor; auto. rewrite dict_set_In_keys.
      apply String.eqb_neq in E. intros [?|?]; auto.
Qed.

Lemma dict_get_del k ks d :
  dict_get k (dict_del ks d) =
  if existsb (String.eqb k) ks then None else dict_get k d.
Proof.
  unfold dict_del. induction d as [|[k0 v0] d IH]; simpl.
  - now destruct (existsb _ ks).
  - destruct (String.eqb k k0) eqn:E.
    + apply String.eqb_eq in E. subst k0.
      destruct (existsb (String.eqb k) ks) eqn:Ex; simpl; auto.
      now rewrite String.eqb_refl.
    + destruct (existsb (String.eqb k0) ks); simpl; rewrite ?E; auto.
Qed.
End DictFacts.

(** ** Running the store operations *)

Lemma nth_error_last {A} (l : list A) (a : A) :
  nth_error (l ++ [a]) (List.length l) = Some a.
Proof. induction l; simpl; auto. Qed.

Lemma nth_error_before {A} (l g : list A) (n : nat) (a : A) :
  nth_error l n = Some a -> nth_error (l ++ g) n = Some a.
Proof.
  intros H. rewrite nth_error_app1; auto.
  apply nth_error_Some. congruence.
Qed.

Lemma replace_nth_last {A} (l : list A) (a b : A) (g : list A) :
  replace_nth (List.length l) b (l ++ a :: g) = l ++ b :: g.
Proof. induction l; simpl; congruence. Qed.

Lemma copy_run st X F :
  nth_error st X = Some F ->
  copy X st = (Ok (List.length st), st ++ [F]).
Proof. intros H. unfold copy, bind, deref, new_frame. now rewrite H. Qed.

Lemma copy_dangling st X :
  nth_error st X = None -> copy X st = (Raise SystemError, st).
Proof. intros H. unfold copy, bind, deref. now rewrite H. Qed.

Lemma getitem_last st F col :
  getitem (List.length st) col (st ++ [F]) = (frame_getitem F col, st ++ [F]).
Proof.
  unfold getitem, bind, deref, lift. rewrite nth_error_last.
  reflexivity.
Qed.

Lemma select_last st F cols :
  select (List.length st) cols (st ++ [F]) = (frame_select F cols, st ++ [F]).
Proof.
  unfold select, bind, deref, lift. rewrite nth_error_last.
  reflexivity.
Qed.

Lemma setitem_last st F col s :
  setitem (List.length st) col s (st ++ [F]) =
  (Ok tt, st ++ [frame_setitem F col s]).
Proof.
  unfold setitem, bind, deref, assign. rewrite !nth_error_last.
  now rewrite replace_nth_last.
Qed.

Lemma drop_last ignore st F cols :
  drop ignore (List.length st) cols (st ++ [F]) =
  match frame_drop ignore F cols with
  | Ok F' => (Ok (S (List.length st)), st ++ [F; F'])
  | Raise e => (Raise e, st ++ [F])
  end.
Proof.
  unfold drop, bind, deref, lift, new_frame. rewrite nth_error_last.
  destruct (frame_drop ignore F cols); auto.
  rewrite length_app, <- app_assoc. simpl.
  now rewrite Nat.add_1_r.
Qed.

Lemma deref_second st F F' :
  deref (S (List.length st)) (st ++ [F; F']) = (Ok F', st ++ [F; F']).
Proof.
  unfold deref.
  replace (st ++ [F; F']) with ((st ++ [F]) ++ [F']) by now rewrite <- app_assoc.
  replace (S (List.length st)) with (List.length (st ++ [F]))
    by (rewrite length_app; simpl; lia).
  now rewrite nth_error_last.
Qed.

Lemma deref_last st F : deref (List.length st) (st ++ [F]) = (Ok F, st ++ [F]).
Proof. unfold deref. now rewrite nth_error_last. Qed.

(** A loop whose body acts on the last object of the store as [step] acts
    on its value runs as [loop_frame] says. *)
Lemma for_each_last {A} (body : A -> M unit)
  (step : A -> DataFrame -> result DataFrame) (st : store) :
  (forall a F,
      body a (st ++ [F]) =
      match step a F with
      | Ok F' => (Ok tt, st ++ [F'])
      | Raise e => (Raise e, st ++ [F])
      end) ->
  forall l F,
    for_each l body (st ++ [F]) =
    (fst (loop_frame step l F), st ++ [snd (loop_frame step l F)]).
Proof.
  intros Hbody l. induction l as [|a l IH]; intros F; simpl; auto.
  unfold bind. rewrite Hbody. destruct (step a F) as [F'|e]; simpl; auto.
Qed.

(** ** Loops that rewrite columns *)

Section RewriteLoop.
Variable A : Type.
Variable key : A -> string.
Variable g : A -> Series -> result Series.

Let step (a : A) : DataFrame -> result DataFrame :=
  rewrite_column (g a) (key a).

Lemma rewrite_column_index h col F F' :
  rewrite_column h col F = Ok F' -> frame_index F' = frame_index F.
Proof.
  unfold rewrite_column, frame_getitem.
  destruct (dict_get col (frame_columns F)); simpl; [|discriminate].
  destruct (h s); simpl; [|discriminate]. now intros [= <-].
Qed.

Lemma loop_rewrite_index l F :
  frame_index (snd (loop_frame step l F)) = frame_index F.
Proof.
  revert F. induction l as [|a l IH]; intros F; simpl; auto.
  destruct (step a F) as [F'|e] eqn:E; simpl; auto.
  rewrite IH. eapply rewrite_column_index, E.
Qed.

Lemma rewrite_column_inv h col F F' :
  rewrite_column h col F = Ok F' ->
  exists s s', dict_get col (frame_columns F) = Some s /\ h s = Ok s' /\
               F' = frame_setitem F col s'.
Proof.
  unfold rewrite_column, frame_getitem.
  destruct (dict_get col (frame_columns F)) as [s|]; simpl; [|discriminate].
  destruct (h s) as [s'|] eqn:E; simpl; [|discriminate].
  intros [= <-]. eauto.
Qed.

Lemma loop_rewrite_other l F col :
  ~ In col (map key l) ->
  dict_get col (frame_columns (snd (loop_frame step l F))) =
  dict_get col (frame_columns F).
Proof.
  revert F. induction l as [|a l IH]; intros F Hnot; simpl; auto.
  simpl in Hnot.
  destruct (step a F) as [F'|e] eqn:E; simpl; auto.
  rewrite IH by (intros ?; apply Hnot; now right).
  apply rewrite_column_inv in E. destruct E as (s & s' & _ & _ & ->).
  simpl. apply dict_get_set_other. intros ?; apply Hnot; now left.
Qed.

Lemma loop_rewrite_keys l F :
  map fst (frame_columns (snd (loop_frame step l F))) =
  map fst (frame_columns F).
Proof.
  revert F. induction l as [|a l IH]; intros F; simpl; auto.
  destruct (step a F) as [F'|e] eqn:E; simpl; auto.
  rewrite IH.
  apply rewrite_column_inv in E. destruct E as (s & s' & Hs & _ & ->).
  simpl. apply dict_set_keys_present. unfold dict_mem. now rewrite Hs.
Qed.
End RewriteLoop.

Section RewriteLoopSpec.
Variable A : Type.
Variable key : A -> string.
Variable g : A -> Series -> result Series.

Let step (a : A) : DataFrame -> result DataFrame :=
  rewrite_column (g a) (key a).

Lemma loop_frame_ok_snd l F F' :
  loop_frame step l F = (Ok tt, F') -> F' = snd (loop_frame step l F).
Proof. now intros ->. Qed.

(** After a loop that completed, every column it names holds the rewriting
    of what the column held before the loop. *)
Lemma loop_rewrite_spec l :
  stable_rewrite g l -> coherent_rewrite key g l ->
  forall F F', loop_frame step l F = (Ok tt, F') ->
  forall a, In a l ->
  exists s s', dict_get (key a) (frame_columns F) = Some s /\
               g a s = Ok s' /\
               dict_get (key a) (frame_columns F') = Some s'.
Proof.
  induction l as [|a0 l IH]; intros Hst Hco F F' Hrun a Hin; [easy|].
  simpl in Hrun. destruct (step a0 F) as [F1|e] eqn:E; [|discriminate].
  assert (Hst' : stable_rewrite g l)
    by (intros x s s' Hx; apply Hst; now right).
  assert (Hco' : coherent_rewrite key g l)
    by (intros x y s Hx Hy; apply Hco; now right).
  apply rewrite_column_inv in E. destruct E as (s0 & s1 & Hs0 & Hg0 & ->).
  destruct (string_dec (key a) (key a0)) as [Hk|Hk].
  - (* the column of [a] is rewritten by this iteration *)
    exists s0, s1. rewrite Hk. split; auto. split.
    + rewrite (Hco a a0 s0); auto. now left.
    + destruct (in_dec string_dec (key a0) (map key l)) as [Hl|Hl].
      * apply in_map_iff in Hl. destruct Hl as (b & Hb & Hbl).
        destruct (IH Hst' Hco' _ _ Hrun b Hbl) as (t & t' & Ht & Hgt & Ht').
        rewrite Hb in Ht, Ht'. simpl in Ht.
        rewrite dict_get_set_same in Ht. injection Ht as <-.
        assert (Hfix : g b s1 = Ok s1).
        { rewrite <- (Hco a0 b s1); [|now left|now right|now symmetry].
          apply (Hst a0 s0); auto. now left. }
        congruence.
      * rewrite (loop_frame_ok_snd _ _ _ Hrun).
        unfold step. rewrite loop_rewrite_other; auto.
        simpl. apply dict_get_set_same.
  - destruct Hin as [-> |Hin]; [congruence|].
    destruct (IH Hst' Hco' _ _ Hrun a Hin) as (t & t' & Ht & Hgt & Ht').
    simpl in Ht. rewrite dict_get_set_other in Ht by congruence.
    eauto.
Qed.

(** The same when no column is named twice, whatever the rewriting. *)
Lemma loop_rewrite_once l :
  NoDup (map key l) ->
  forall F F', loop_frame step l F = (Ok tt, F') ->
  forall a, In a l ->
  exists s s', dict_get (key a) (frame_columns F) = Some s /\
               g a s = Ok s' /\
               dict_get (key a) (frame_columns F') = Some s'.
Proof.
  induction l as [|a0 l IH]; intros Hnd F F' Hrun a Hin; [easy|].
  simpl in Hnd. inversion Hnd as [|? ? Hnew Hnd']; subst.
  simpl in Hrun. destruct (step a0 F) as [F1|e] eqn:E; [|discriminate].
  apply rewrite_column_inv in E. destruct E as (s0 & s1 & Hs0 & Hg0 & ->).
  destruct Hin as [<- |Hin].
  - exists s0, s1. split; auto. split; auto.
    rewrite (loop_frame_ok_snd _ _ _ Hrun).
    unfold step. rewrite loop_rewrite_other by auto.
    simpl. apply dict_get_set_same.
  - destruct (IH Hnd' _ _ Hrun a Hin) as (t & t' & Ht & Hgt & Ht').
    assert (Hk : key a0 <> key a).
    { intros Hk. apply Hnew. rewrite Hk. now apply in_map. }
    simpl in Ht. rewrite dict_get_set_other in Ht by auto.
    eauto.
Qed.

(** A loop over present columns whose rewriting cannot fail completes. *)
Lemma loop_rewrite_total (P : Series -> Prop) l :
  (forall a s, In a l -> P s -> exists s', g a s = Ok s' /\ P s') ->
  forall F,
  (forall a, In a l ->
     exists s, dict_get (key a) (frame_columns F) = Some s /\ P s) ->
  fst (loop_frame step l F) = Ok tt.
Proof.
  intros Hg. induction l as [|a0 l IH]; intros F HF; simpl; auto.
  destruct (HF a0 (or_introl eq_refl)) as (s0 & Hs0 & HP0).
  destruct (Hg a0 s0 (or_introl eq_refl) HP0) as (s1 & Hg0 & HP1).
  unfold step at 1, rewrite_column, frame_getitem. rewrite Hs0. simpl.
  rewrite Hg0. simpl.
  apply IH.
  - intros a s Ha. apply Hg. now right.
  - intros a Ha. simpl.
    destruct (string_dec (key a0) (key a)) as [Hk|Hk].
    + rewrite <- Hk, dict_get_set_same. eauto.
    + rewrite dict_get_set_other by auto. apply HF. now right.
Qed.

Lemma frame_setitem_same F col s :
  dict_get col (frame_columns F) = Some s -> frame_setitem F col s = F.
Proof.
  intros H. unfold frame_setitem. rewrite dict_set_get_id by auto.
  now destruct F.
Qed.

(** A frame whose named columns are all fixed by [g] is left as it is. *)
Lemma loop_rewrite_fixed l F :
  (forall a, In a l ->
     exists s, dict_get (key a) (frame_columns F) = Some s /\ g a s = Ok s) ->
  loop_frame step l F = (Ok tt, F).
Proof.
  induction l as [|a0 l IH]; intros HF; simpl; auto.
  destruct (HF a0 (or_introl eq_refl)) as (s0 & Hs0 & Hg0).
  unfold step at 1, rewrite_column, frame_getitem. rewrite Hs0. simpl.
  rewrite Hg0. simpl. rewrite frame_setitem_same by auto.
  apply IH. intros a Ha. apply HF. now right.
Qed.

(** Running the loop again on its own result changes nothing. *)
Lemma loop_rewrite_idempotent l F F' :
  stable_rewrite g l -> coherent_rewrite key g l ->
  loop_frame step l F = (Ok tt, F') ->
  loop_frame step l F' = (Ok tt, F').
Proof.
  intros Hst Hco Hrun. apply loop_rewrite_fixed. intros a Ha.
  destruct (loop_rewrite_spec l Hst Hco _ _ Hrun a Ha)
    as (s & s' & _ & Hg & Hs').
  exists s'. split; auto. eapply Hst; eauto.
Qed.
End RewriteLoopSpec.

(** ** Every method leaves the store it finds and returns a new object *)

Lemma nth_error_second st (F F' : DataFrame) :
  nth_error (st ++ [F; F']) (S (List.length st)) = Some F'.
Proof.
  generalize (deref_second st F F'). unfold deref.
  destruct (nth_error (st ++ [F; F']) (S (List.length st))); congruence.
Qed.

Lemma copy_loop_runs_as {A} (l : list A) (body : ref -> A -> M unit)
  (step : A -> DataFrame -> result DataFrame) :
  (forall st a F,
      body (List.length st) a (st ++ [F]) =
      match step a F with
      | Ok F' => (Ok tt, st ++ [F'])
      | Raise e => (Raise e, st ++ [F])
      end) ->
  runs_as (fun X => X' <- copy X ;; for_each l (body X') ;; ret X')
          (fun F => outcome (loop_frame step l F)).
Proof.
  intros Hbody st X F HX. unfold bind at 1. rewrite (copy_run _ _ _ HX).
  unfold bind. rewrite (for_each_last (body (List.length st)) step st (Hbody st)).
  unfold outcome.
  destruct (loop_frame step l F) as [[[]|e] F']; simpl.
  - exists (Ok (List.length st)), [F']. split; auto. split; [lia|].
    exists F'. split; auto. apply nth_error_last.
  - exists (Raise e), [F']. auto.
Qed.

Lemma rare_runs_as self :
  runs_as (RareCategoryGrouper.transform self) (rare_value self).
Proof.
  unfold rare_value.
  apply (copy_loop_runs_as (RareCategoryGrouper.columns self)
    (fun X col =>
       s <- getitem X col ;;
       frequent <- lift
         (match dict_get col (RareCategoryGrouper.frequent_categories_ self)
          with Some l => Ok l | None => Raise KeyError end) ;;
       setitem X col (where_ s (isin s frequent) (Str "Other")))).
  intros st col F. unfold bind at 1. rewrite getitem_last.
  unfold rewrite_column, group_rare.
  destruct (frame_getitem F col) as [s|e]; simpl; auto.
  unfold bind, lift.
  destruct (dict_get col _); simpl; auto.
  apply setitem_last.
Qed.

Lemma boolean_runs_as `{FloatRepr} self :
  runs_as (BooleanNormalizer.transform self) (boolean_value self).
Proof.
  unfold boolean_value.
  apply (copy_loop_runs_as (BooleanNormalizer.columns self)
    (fun X col =>
       s <- getitem X col ;;
       setitem X col (infer_dtype
                        (map BooleanNormalizer.to_flag
                             (str_lower (astype_str s)))))).
  intros st col F. unfold bind at 1. rewrite getitem_last.
  unfold rewrite_column, normalize_flags.
  destruct (frame_getitem F col) as [s|e]; simpl; auto.
  apply setitem_last.
Qed.

Lemma clipper_runs_as self :
  runs_as (OutlierClipper.transform self) (clipper_value self).
Proof.
  unfold clipper_value.
  apply (copy_loop_runs_as (OutlierClipper.bounds_ self)
    (fun X item =>
       let '(col, (lower, upper)) := item in
       s <- getitem X col ;;
       s' <- lift (clip s lower upper) ;;
       setitem X col s')).
  intros st [col [lower upper]] F. unfold bind at 1. rewrite getitem_last.
  unfold rewrite_column, clip_item. simpl.
  destruct (frame_getitem F col) as [s|e]; simpl; auto.
  unfold bind, lift.
  destruct (clip s lower upper); simpl; auto.
  apply setitem_last.
Qed.

Lemma dropper_runs_as self :
  runs_as (ColumnDropper.transform self) (dropper_value self).
Proof.
  intros st X F HX. unfold ColumnDropper.transform, dropper_value.
  unfold bind at 1. rewrite (copy_run _ _ _ HX).
  unfold bind. rewrite drop_last.
  destruct (frame_drop true F (ColumnDropper.columns self)) as [F'|e]; simpl.
  - exists (Ok (S (List.length st))), [F; F']. split; auto. split; [lia|].
    exists F'. split; auto. apply nth_error_second.
  - exists (Raise e), [F]. auto.
Qed.

Lemma area_runs_as self :
  runs_as (AreaFeatureSelector.transform self) (area_value self).
Proof.
  intros st X F HX. unfold AreaFeatureSelector.transform, area_value.
  unfold bind at 1. rewrite (copy_run _ _ _ HX).
  unfold bind at 1. rewrite select_last.
  destruct (frame_select F (AreaFeatureSelector.area_columns self))
    as [sub|e]; simpl; [|now exists (Raise e), (F :: nil)].
  unfold bind at 1, lift at 1.
  destruct (frame_iloc_col0 _) as [main|e]; simpl;
    [|now exists (Raise e), (F :: nil)].
  unfold bind at 1. rewrite setitem_last.
  unfold bind. rewrite drop_last.
  destruct (frame_drop false _ _) as [F'|e]; simpl.
  - eexists (Ok _), [_; F']. split; [reflexivity|]. split; [lia|].
    exists F'. split; auto. apply nth_error_second.
  - eexists (Raise e), [_]. split; [reflexivity|auto].
Qed.

Lemma date_runs_as `{DatetimeParser} self :
  runs_as (DateFeatureExtractor.transform self) (date_value self).
Proof.
  intros st X F HX. unfold DateFeatureExtractor.transform, date_value.
  unfold bind at 1. rewrite (copy_run _ _ _ HX).
  unfold bind at 1. rewrite getitem_last.
  destruct (frame_getitem F (DateFeatureExtractor.column self))
    as [s|e]; simpl; [|now exists (Raise e), (F :: nil)].
  unfold bind at 1, lift at 1.
  destruct (to_datetime s) as [dates|e]; simpl;
    [|now exists (Raise e), (F :: nil)].
  unfold bind at 1. rewrite setitem_last.
  unfold bind at 1. rewrite setitem_last.
  unfold bind. rewrite drop_last.
  destruct (frame_drop false _ _) as [F'|e]; simpl.
  - eexists (Ok _), [_; F']. split; [reflexivity|]. split; [lia|].
    exists F'. split; auto. apply nth_error_second.
  - eexists (Raise e), [_]. split; [reflexivity|auto].
Qed.

Lemma transform_runs_as `{FloatRepr} `{DatetimeParser} (u : transformer) :
  runs_as (transform u) (transform_value u).
Proof.
  destruct u; simpl.
  - apply area_runs_as.
  - apply rare_runs_as.
  - apply boolean_runs_as.
  - apply date_runs_as.
  - apply clipper_runs_as.
  - apply dropper_runs_as.
Qed.

(** A method called on a table returns the value [runs_as] names. *)
Lemma call_returned f v F :
  runs_as f v -> call (returned f) F = v F.
Proof.
  intros Hf. unfold call, returned, bind.
  destruct (Hf [F] 0%nat F eq_refl) as (res & g & -> & Hres).
  destruct res as [r|e]; simpl.
  - destruct Hres as (_ & F' & -> & Hr). unfold deref.
    simpl in Hr. now rewrite Hr.
  - auto.
Qed.

(** In whatever store a [transform] runs, what it returns is what [call]
    gives for the value of its argument. *)
Lemma transform_in_any_store `{FloatRepr} `{DatetimeParser} u st X F :
  nth_error st X = Some F ->
  exists res g,
    transform u X st = (res, st ++ g) /\
    match res with
    | Ok r => exists F', nth_error (st ++ g) r = Some F' /\
                         call (returned (transform u)) F = Ok F'
    | Raise e => call (returned (transform u)) F = Raise e
    end.
Proof.
  intros HX.
  destruct (transform_runs_as u st X F HX) as (res & g & Hrun & Hres).
  exists res, g. split; auto.
  rewrite (call_returned _ _ F (transform_runs_as u)).
  destruct res as [r|e]; auto.
  destruct Hres as (_ & F' & Hv & Hr). eauto.
Qed.

(** ** [fit] reads a copy of its argument *)

Lemma for_fold_last {A S} (body : S -> A -> M S)
  (pure : S -> A -> result S) (st : store) :
  (forall acc a, body acc a st = (pure acc a, st)) ->
  forall l acc, for_fold l body acc st = (fold_result l pure acc, st).
Proof.
  intros Hbody l. induction l as [|a l IH]; intros acc; simpl; auto.
  unfold bind. rewrite Hbody. destruct (pure acc a); simpl; auto.
Qed.

Lemma rare_fit_run self st X F :
  nth_error st X = Some F ->
  RareCategoryGrouper.fit self X st = (rare_fit_value self F, st ++ [F]).
Proof.
  intros HX. unfold RareCategoryGrouper.fit, rare_fit_value.
  unfold bind at 1. rewrite (copy_run _ _ _ HX).
  unfold bind at 1.
  rewrite for_fold_last with
    (pure := fun cats col =>
       result_bind (frame_getitem F col) (fun s =>
       Ok (dict_set col
             (index_at_least (value_counts_normalize s)
                             (RareCategoryGrouper.min_frequency self))
             cats))).
  - destruct (fold_result _ _ _); reflexivity.
  - intros acc col. unfold bind. rewrite getitem_last.
    destruct (frame_getitem F col); reflexivity.
Qed.

Lemma clipper_fit_run self st X F :
  nth_error st X = Some F ->
  OutlierClipper.fit self X st = (clipper_fit_value self F, st ++ [F]).
Proof.
  intros HX. unfold OutlierClipper.fit, clipper_fit_value.
  unfold bind at 1. rewrite (copy_run _ _ _ HX).
  unfold bind at 1.
  rewrite for_fold_last with
    (pure := fun bounds col =>
       result_bind (frame_getitem F col) (fun s =>
       result_bind (quantile s (OutlierClipper.lower_quantile self))
         (fun lower =>
       result_bind (quantile s (OutlierClipper.upper_quantile self))
         (fun upper => Ok (dict_set col (lower, upper) bounds))))).
  - destruct (fold_result _ _ _); reflexivity.
  - intros acc col. unfold bind at 1. rewrite getitem_last.
    destruct (frame_getitem F col) as [s|e] eqn:E; simpl; auto.
    unfold bind at 1, lift at 1.
    destruct (quantile s (OutlierClipper.lower_quantile self)); simpl; auto.
    unfold bind at 1. rewrite getitem_last, E.
    unfold bind, lift.
    destruct (quantile s (OutlierClipper.upper_quantile self)); reflexivity.
Qed.

Lemma call_rare_fit self F :
  call (RareCategoryGrouper.fit self) F = rare_fit_value self F.
Proof. unfold call. now rewrite (rare_fit_run self [F] 0%nat F eq_refl). Qed.

Lemma call_clipper_fit self F :
  call (OutlierClipper.fit self) F = clipper_fit_value self F.
Proof. unfold call. now rewrite (clipper_fit_run self [F] 0%nat F eq_refl). Qed.

(** ** Index and shape of the returned frame *)

Lemma dict_set_In {V} k (v : V) d k' v' :
  In (k', v') (dict_set k v d) -> (k', v') = (k, v) \/ In (k', v') d.
Proof.
  induction d as [|[k0 v0] d IH]; simpl.
  - intros [<- |[]]. now left.
  - destruct (String.eqb k k0); simpl.
    + intros [<- |Hin]; auto.
    + intros [<- |Hin]; auto. destruct (IH Hin); auto.
Qed.

Lemma frame_setitem_well_formed F col s :
  well_formed F -> List.length s = List.length (frame_index F) ->
  well_formed (frame_setitem F col s).
Proof.
  intros Hwf Hlen c s' Hin. simpl in *.
  apply dict_set_In in Hin. destruct Hin as [[= -> ->]|Hin]; auto.
  now apply Hwf in Hin.
Qed.

Lemma frame_drop_inv ignore F cols F' :
  frame_drop ignore F cols = Ok F' ->
  F' = mkFrame (frame_index F) (dict_del cols (frame_columns F)).
Proof.
  unfold frame_drop. destruct (ignore || _)%bool; [|discriminate].
  now intros [= <-].
Qed.

Lemma frame_drop_well_formed ignore F cols F' :
  frame_drop ignore F cols = Ok F' -> well_formed F -> well_formed F'.
Proof.
  intros Hd Hwf. apply frame_drop_inv in Hd. subst F'.
  intros c s Hin. simpl in *. unfold dict_del in Hin.
  apply filter_In in Hin. destruct Hin as [Hin _]. now apply Hwf in Hin.
Qed.

Lemma zip_with_length {A B C} (f : A -> B -> C) l1 l2 :
  List.length l1 = List.length l2 ->
  List.length (zip_with f l1 l2) = List.length l1.
Proof.
  revert l2.
  induction l1 as [|a l1 IH]; intros [|b l2]; simpl; try discriminate; auto.
Qed.

Lemma result_map_length {A B} (f : A -> result B) l l' :
  result_map f l = Ok l' -> List.length l' = List.length l.
Proof.
  revert l'. induction l as [|a l IH]; intros l'; simpl.
  - now intros [= <-].
  - destruct (f a); simpl; [|discriminate].
    destruct (result_map f l) as [bs|]; simpl; [|discriminate].
    intros [= <-]. simpl. now rewrite (IH bs).
Qed.

Lemma clip_length s lower upper s' :
  clip s lower upper = Ok s' -> List.length s' = List.length s.
Proof.
  unfold clip. destruct (clip_bounds lower upper) as [lo hi].
  destruct (result_map (clip_lower lo) s) as [s1|] eqn:E1; simpl;
    [|discriminate].
  intros E2. apply result_map_length in E1, E2. congruence.
Qed.

Lemma group_rare_length cats col s s' :
  group_rare cats col s = Ok s' -> List.length s' = List.length s.
Proof.
  unfold group_rare. destruct (dict_get col cats); [|discriminate].
  intros [= <-]. unfold where_, isin.
  apply zip_with_length. now rewrite length_map.
Qed.

Lemma infer_dtype_length s : List.length (infer_dtype s) = List.length s.
Proof.
  unfold infer_dtype. destruct (held_as_floats s); auto. apply length_map.
Qed.

Lemma infer_dtype_nth s i :
  nth_error (infer_dtype s) i =
  option_map (fun c => if held_as_floats s then to_float c else c)
             (nth_error s i).
Proof.
  unfold infer_dtype. destruct (held_as_floats s).
  - apply nth_error_map.
  - now destruct (nth_error s i).
Qed.

Lemma normalize_flags_length `{FloatRepr} s s' :
  normalize_flags s = Ok s' -> List.length s' = List.length s.
Proof.
  unfold normalize_flags, str_lower, astype_str. intros [= <-].
  now rewrite infer_dtype_length, !length_map.
Qed.

Lemma loop_rewrite_well_formed {A} (key : A -> string)
  (g : A -> Series -> result Series) l :
  (forall a s s', g a s = Ok s' -> List.length s' = List.length s) ->
  forall F,
    well_formed F ->
    well_formed
      (snd (loop_frame (fun a => rewrite_column (g a) (key a)) l F)).
Proof.
  intros Hg. induction l as [|a l IH]; intros F Hwf; simpl; auto.
  destruct (rewrite_column (g a) (key a) F) as [F1|e] eqn:E; simpl; auto.
  apply IH.
  apply rewrite_column_inv in E. destruct E as (s & s' & Hs & Hgs & ->).
  apply frame_setitem_well_formed; auto.
  rewrite (Hg _ _ _ Hgs). apply dict_get_In in Hs. now apply Hwf in Hs.
Qed.

Lemma outcome_inv L F' : outcome L = Ok F' -> L = (Ok tt, F').
Proof.
  unfold outcome. destruct L as [[[]|e] F]; simpl; [|discriminate].
  now intros [= <-].
Qed.

Lemma result_map_In {A B} (f : A -> result B) l l' b :
  result_map f l = Ok l' -> In b l' -> exists a, In a l /\ f a = Ok b.
Proof.
  revert l'. induction l as [|a l IH]; intros l'; simpl.
  - intros [= <-] [].
  - destruct (f a) as [b0|] eqn:E; simpl; [|discriminate].
    destruct (result_map f l) as [bs|]; simpl; [|discriminate].
    intros [= <-] [<- |Hin]; eauto.
    destruct (IH bs eq_refl Hin) as (a' & Ha' & Hf). eauto.
Qed.

Lemma frame_select_inv F cols sub :
  frame_select F cols = Ok sub ->
  frame_index sub = frame_index F /\
  forall c s, In (c, s) (frame_columns sub) ->
              dict_get c (frame_columns F) = Some s.
Proof.
  unfold frame_select.
  destruct (result_map _ cols) as [cs|] eqn:E; simpl; [|discriminate].
  intros [= <-]. simpl. split; auto.
  intros c s Hin.
  destruct (result_map_In _ _ _ _ E Hin) as (c' & _ & Hc').
  unfold frame_getitem in Hc'.
  destruct (dict_get c' (frame_columns F)) eqn:Eg; simpl in Hc';
    [|discriminate].
  injection Hc' as -> ->. exact Eg.
Qed.

Lemma bfill_axis1_head_length (d : dict Series) n k s rest :
  (forall c t, In (c, t) d -> List.length t = n) ->
  bfill_axis1 d = (k, s) :: rest -> List.length s = n.
Proof.
  revert k s rest. induction d as [|[k0 s0] d IH]; intros k s rest Hd; simpl.
  - discriminate.
  - destruct (bfill_axis1 d) as [|[k1 r] filled] eqn:E.
    + intros [= <- <- <-]. apply (Hd k0). now left.
    + intros [= <- <- <-]. rewrite zip_with_length.
      * apply (Hd k0). now left.
      * rewrite (Hd k0 s0) by now left.
        symmetry. eapply IH; eauto. intros c t Hin. apply (Hd c). now right.
Qed.

Lemma loop_value_shape {A} (key : A -> string)
  (g : A -> Series -> result Series) l F F' :
  (forall a s s', g a s = Ok s' -> List.length s' = List.length s) ->
  outcome (loop_frame (fun a => rewrite_column (g a) (key a)) l F) = Ok F' ->
  frame_index F' = frame_index F /\ (well_formed F -> well_formed F').
Proof.
  intros Hg Hout. apply outcome_inv in Hout.
  pose proof (loop_rewrite_index _ key g l F) as Hidx.
  pose proof (loop_rewrite_well_formed key g l Hg F) as Hwf.
  rewrite Hout in Hidx, Hwf. simpl in *. auto.
Qed.

Lemma area_value_shape self F F' :
  area_value self F = Ok F' ->
  frame_index F' = frame_index F /\ (well_formed F -> well_formed F').
Proof.
  unfold area_value.
  destruct (frame_select F _) as [sub|] eqn:Es; simpl; [|discriminate].
  destruct (frame_iloc_col0 _) as [main|] eqn:Em; simpl; [|discriminate].
  intros Hd. split.
  - apply frame_drop_inv in Hd. now subst F'.
  - intros Hwf. apply (frame_drop_well_formed _ _ _ _ Hd).
    apply frame_setitem_well_formed; auto.
    apply frame_select_inv in Es. destruct Es as [Hidx Hcols].
    unfold frame_iloc_col0 in Em. simpl in Em.
    destruct (bfill_axis1 (frame_columns sub)) as [|[k s] rest] eqn:Eb;
      [discriminate|].
    injection Em as <-.
    eapply bfill_axis1_head_length; [|exact Eb].
    intros c t Hin. apply Hcols, dict_get_In in Hin. now apply Hwf in Hin.
Qed.

Lemma dt_field_length f dates :
  List.length (dt_field f dates) = List.length dates.
Proof. unfold dt_field. now rewrite infer_dtype_length, length_map. Qed.

Lemma date_value_shape `{DatetimeParser} self F F' :
  date_value self F = Ok F' ->
  frame_index F' = frame_index F /\ (well_formed F -> well_formed F').
Proof.
  unfold date_value, frame_getitem.
  destruct (dict_get _ (frame_columns F)) as [s|] eqn:Es; simpl;
    [|discriminate].
  destruct (to_datetime s) as [dates|] eqn:Ed; simpl; [|discriminate].
  intros Hd. split.
  - apply frame_drop_inv in Hd. now subst F'.
  - intros Hwf. apply (frame_drop_well_formed _ _ _ _ Hd).
    assert (Hs : List.length s = List.length (frame_index F))
      by (apply dict_get_In in Es; now apply Hwf in Es).
    repeat apply frame_setitem_well_formed; auto; simpl;
      now rewrite dt_field_length, (to_datetime_length _ Ed).
Qed.

Lemma dropper_value_shape self F F' :
  dropper_value self F = Ok F' ->
  frame_index F' = frame_index F /\ (well_formed F -> well_formed F').
Proof.
  unfold dropper_value. intros Hd. split.
  - apply frame_drop_inv in Hd. now subst F'.
  - apply (frame_drop_well_formed _ _ _ _ Hd).
Qed.

Lemma transform_value_shape `{FloatRepr} `{DatetimeParser} u F F' :
  transform_value u F = Ok F' ->
  frame_index F' = frame_index F /\ (well_formed F -> well_formed F').
Proof.
  destruct u as [u|u|u|u|u|u]; simpl.
  - apply area_value_shape.
  - unfold rare_value.
    apply (loop_value_shape (fun col => col)
             (group_rare (RareCategoryGrouper.frequent_categories_ u))).
    intros a s s'. apply group_rare_length.
  - unfold boolean_value.
    apply (loop_value_shape (fun col => col) (fun _ => normalize_flags)).
    intros _ s s'. apply normalize_flags_length.
  - apply date_value_shape.
  - unfold clipper_value.
    apply (loop_value_shape fst clip_item).
    intros a s s'. apply clip_length.
  - apply dropper_value_shape.
Qed.

(** A [transform] on a reference that designates nothing stops at once. *)
Lemma transform_dangling `{FloatRepr} `{DatetimeParser} u st X :
  nth_error st X = None -> transform u X st = (Raise SystemError, st).
Proof.
  intros HX.
  destruct u; simpl;
    [ unfold AreaFeatureSelector.transform
    | unfold RareCategoryGrouper.transform
    | unfold BooleanNormalizer.transform
    | unfold DateFeatureExtractor.transform
    | unfold OutlierClipper.transform
    | unfold ColumnDropper.transform ];
    unfold bind at 1; now rewrite (copy_dangling _ _ HX).
Qed.

(** A column of the returned frame that the unit does not assign to holds
    the cells it held in the argument, in the same order. *)
Lemma loop_value_untouched {A} (key : A -> string)
  (g : A -> Series -> result Series) l F F' col s' :
  outcome (loop_frame (fun a => rewrite_column (g a) (key a)) l F) = Ok F' ->
  dict_get col (frame_columns F') = Some s' ->
  In col (map key l) \/ dict_get col (frame_columns F) = Some s'.
Proof.
  intros Hout Hget. apply outcome_inv in Hout.
  destruct (in_dec string_dec col (map key l)) as [Hin|Hnot]; auto.
  right. rewrite <- Hget.
  rewrite (loop_frame_ok_snd _ key g l F F' Hout).
  symmetry. now apply loop_rewrite_other.
Qed.

Lemma dict_get_del_Some {V} k ks (d : dict V) v :
  dict_get k (dict_del ks d) = Some v -> dict_get k d = Some v.
Proof.
  rewrite dict_get_del. now destruct (existsb (String.eqb k) ks).
Qed.

Lemma dict_get_set_Some {V} k k' (v v' : V) d :
  dict_get k' (dict_set k v d) = Some v' ->
  k' = k \/ dict_get k' d = Some v'.
Proof.
  destruct (string_dec k k') as [<-|Hne]; auto.
  rewrite dict_get_set_other by auto. auto.
Qed.

Lemma transform_value_untouched `{FloatRepr} `{DatetimeParser} u F F' col s' :
  transform_value u F = Ok F' ->
  dict_get col (frame_columns F') = Some s' ->
  In col (assigned_columns u) \/ dict_get col (frame_columns F) = Some s'.
Proof.
  destruct u as [u|u|u|u|u|u]; simpl.
  - unfold area_value.
    destruct (frame_select F _) as [sub|]; simpl; [|discriminate].
    destruct (frame_iloc_col0 _) as [main|]; simpl; [|discriminate].
    intros Hd Hget. apply frame_drop_inv in Hd. subst F'. simpl in Hget.
    apply dict_get_del_Some, dict_get_set_Some in Hget.
    destruct Hget as [->|Hget]; simpl; auto.
  - intros Hout Hget.
    destruct (loop_value_untouched (fun c : string => c) _ _ _ _ _ _
                Hout Hget) as [Hin|Hsame]; auto.
    rewrite map_id in Hin. auto.
  - intros Hout Hget.
    destruct (loop_value_untouched (fun c : string => c) (fun _ => _)
                _ _ _ _ _ Hout Hget) as [Hin|Hsame]; auto.
    rewrite map_id in Hin. auto.
  - unfold date_value.
    destruct (frame_getitem F _) as [s|]; simpl; [|discriminate].
    destruct (to_datetime s) as [dates|]; simpl; [|discriminate].
    intros Hd Hget. apply frame_drop_inv in Hd. subst F'. simpl in Hget.
    apply dict_get_del_Some, dict_get_set_Some in Hget.
    destruct Hget as [->|Hget]; simpl; auto.
    apply dict_get_set_Some in Hget.
    destruct Hget as [->|Hget]; simpl; auto.
  - intros Hout Hget.
    apply (loop_value_untouched fst clip_item _ _ _ _ _ Hout Hget).
  - unfold dropper_value. intros Hd Hget.
    apply frame_drop_inv in Hd. subst F'. simpl in Hget.
    apply dict_get_del_Some in Hget. auto.
Qed.

(** ** C9: the caller's table is left as it was *)

(** C9.  For every unit and every [transform] call, in whatever store the
    call runs: the store is only extended, so the caller's table (and
    every other existing table) is unmodified; a returned reference
    designates a new object; the returned frame has the index of the
    input, label for label in the same order; a column of it that the unit
    does not assign to holds the cells of the input column, in the same
    order; and when the input has one cell per label in every column, so
    has the output. *)
Theorem C9_transform_leaves_input `{FloatRepr} `{DatetimeParser}
  (u : transformer) (st : store) (X : ref) :
  exists res g,
    transform u X st = (res, st ++ g) /\
    (forall r G, nth_error st r = Some G -> nth_error (st ++ g) r = Some G) /\
    (forall r', res = Ok r' ->
       (List.length st <= r')%nat /\
       exists F F',
         nth_error st X = Some F /\
         nth_error (st ++ g) r' = Some F' /\
         frame_index F' = frame_index F /\
         List.length (frame_index F') = List.length (frame_index F) /\
         (forall col s', dict_get col (frame_columns F') = Some s' ->
                         In col (assigned_columns u) \/
                         dict_get col (frame_columns F) = Some s') /\
         (well_formed F -> well_formed F')).
Proof.
  destruct (nth_error st X) as [F|] eqn:HX.
  - destruct (transform_runs_as u st X F HX) as (res & g & Hrun & Hres).
    exists res, g. split; auto. split.
    + intros r G. apply nth_error_before.
    + intros r' ->. destruct Hres as (Hfresh & F' & Hv & Hr'). split; auto.
      exists F, F'. destruct (transform_value_shape u F F' Hv) as [Hi Hw].
      rewrite Hi. repeat split; auto.
      intros col s'. now apply transform_value_untouched.
  - exists (Raise SystemError), []. rewrite app_nil_r. split.
    + now apply transform_dangling.
    + split; [auto|discriminate].
Qed.

(** A call in a store of two tables: the copy is object 2, the returned
    frame object 3, and the two tables are where they were.  The label
    ["Garden"], which is no column, is ignored by the dropper. *)
Example dropper_in_a_store :
  @transform Sample.repr_one_decimal Sample.iso_parser
    (Dropper (ColumnDropper.__init__ ["LivingArea"; "Garden"]))
    1%nat [Sample.listings; Sample.areas]
  = (Ok 3%nat,
     [Sample.listings; Sample.areas; Sample.areas;
      mkFrame [0; 1; 2]%Z
        [("Price", [Int 100; Int 200; Int 300]);
         ("TotalArea", [Int 70; Int 80; Missing])]]).
Proof. reflexivity. Qed.

(** ** Loops that fill a dictionary, one key per item *)

Section FillDict.
Variable V : Type.
Variable h : string -> result V.
Variable body : dict V -> string -> result (dict V).
Hypothesis body_sets :
  forall acc a, body acc a = result_bind (h a) (fun v => Ok (dict_set a v acc)).

Lemma fold_fill_spec l :
  forall acc0 acc,
    fold_result l body acc0 = Ok acc ->
    (forall a, In a l -> exists v, h a = Ok v /\ dict_get a acc = Some v) /\
    (forall a, ~ In a l -> dict_get a acc = dict_get a acc0) /\
    (NoDup (map fst acc0) -> NoDup (map fst acc)) /\
    (forall k, In k (map fst acc) <-> In k l \/ In k (map fst acc0)).
Proof.
  induction l as [|a0 l IH]; intros acc0 acc; simpl.
  - intros [= <-]. repeat split; auto; tauto.
  - rewrite body_sets. destruct (h a0) as [v0|] eqn:E0; simpl; [|discriminate].
    intros Hrun. destruct (IH _ _ Hrun) as (Hin & Hout & Hnd & Hkeys).
    repeat split.
    + intros a [<- |Ha]; auto.
      destruct (in_dec string_dec a0 l) as [Hl|Hl]; auto.
      exists v0. split; auto. rewrite Hout by auto.
      apply dict_get_set_same.
    + intros a Ha. rewrite Hout by tauto.
      apply dict_get_set_other. tauto.
    + intros H0. apply Hnd. now apply dict_set_NoDup.
    + rewrite Hkeys, dict_set_In_keys. intros [?|[?|?]]; auto.
    + rewrite Hkeys, dict_set_In_keys. intros [[?|?]|?]; auto.
Qed.

Lemma fold_fill_total l :
  (forall a, In a l -> exists v, h a = Ok v) ->
  forall acc0, exists acc, fold_result l body acc0 = Ok acc.
Proof.
  induction l as [|a0 l IH]; intros Hl acc0; simpl; eauto.
  rewrite body_sets. destruct (Hl a0 (or_introl eq_refl)) as (v0 & ->).
  simpl. apply IH. intros a Ha. apply Hl. now right.
Qed.

(** The first item whose value cannot be computed stops the loop. *)
Lemma fold_fill_first_error a l e :
  h a = Raise e -> forall acc0, fold_result (a :: l) body acc0 = Raise e.
Proof. intros He acc0. simpl. now rewrite body_sets, He. Qed.
End FillDict.

(** ** Equality of cells *)

Lemma cell_eqb_sym a b : cell_eqb a b = cell_eqb b a.
Proof.
  destruct a, b; simpl; auto using String.eqb_sym, Qeq_bool_comm.
Qed.

Lemma cell_eqb_refl c : isna c = false -> cell_eqb c c = true.
Proof.
  destruct c; simpl; try discriminate; intros _;
    auto using String.eqb_refl, Qeq_bool_refl.
Qed.

Lemma cell_eqb_trans a b c :
  cell_eqb a b = true -> cell_eqb b c = true -> cell_eqb a c = true.
Proof.
  destruct a, b, c; simpl; try discriminate;
    try (intros H1 H2; eapply Qeq_bool_trans; eassumption).
  rewrite !String.eqb_eq. congruence.
Qed.

Lemma cell_eqb_notna a b :
  cell_eqb a b = true -> isna a = false /\ isna b = false.
Proof. destruct a, b; simpl; try discriminate; auto. Qed.

Lemma cell_eqb_compat a b c :
  cell_eqb a b = true -> cell_eqb a c = cell_eqb b c.
Proof.
  intros Hab.
  destruct (cell_eqb b c) eqn:Hbc.
  - eapply cell_eqb_trans; eauto.
  - destruct (cell_eqb a c) eqn:Hac; auto.
    rewrite <- Hbc. symmetry. eapply cell_eqb_trans; [|exact Hac].
    now rewrite cell_eqb_sym.
Qed.

Lemma occurrences_compat a b s :
  cell_eqb a b = true -> occurrences a s = occurrences b s.
Proof.
  intros Hab. unfold occurrences. f_equal. apply filter_ext.
  intros c. now apply cell_eqb_compat.
Qed.

Lemma occurrences_app v s1 s2 :
  occurrences v (s1 ++ s2) = (occurrences v s1 + occurrences v s2)%nat.
Proof. unfold occurrences. now rewrite filter_app, length_app. Qed.

Lemma present_app s1 s2 : present (s1 ++ s2) = (present s1 + present s2)%nat.
Proof. unfold present. now rewrite filter_app, length_app. Qed.

Lemma occurrences_positive v s :
  (0 < occurrences v s)%nat <-> exists c, In c s /\ cell_eqb v c = true.
Proof.
  unfold occurrences. split.
  - destruct (filter (cell_eqb v) s) as [|c l] eqn:E; simpl; [lia|].
    intros _. exists c. apply filter_In. rewrite E. now left.
  - intros (c & Hc & Hv).
    assert (Hin : In c (filter (cell_eqb v) s)) by now apply filter_In.
    destruct (filter (cell_eqb v) s); simpl; [easy|lia].
Qed.

(** ** [value_counts] counts *)

Lemma count_add_keys v acc k n :
  In (k, n) (count_add v acc) -> (exists m, In (k, m) acc) \/ k = v.
Proof.
  induction acc as [|[k0 n0] acc IH]; simpl.
  - intros [[= <- <-]|[]]. now right.
  - destruct (cell_eqb k0 v); simpl.
    + intros [[= <- <-]|Hin]; left; eauto.
    + intros [[= <- <-]|Hin]; [left; eauto|].
      destruct (IH Hin) as [(m & Hm)| ->]; [left|right]; eauto.
Qed.

Lemma count_add_In v acc k n :
  distinct_keys acc ->
  In (k, n) (count_add v acc) ->
  (In (k, n) acc /\ cell_eqb k v = false) \/
  (exists m, In (k, m) acc /\ n = S m /\ cell_eqb k v = true) \/
  (k = v /\ n = 1%nat /\
   forall k' n', In (k', n') acc -> cell_eqb k' v = false).
Proof.
  induction acc as [|[k0 n0] acc IH]; simpl.
  - intros _ [[= <- <-]|[]]. right. right. repeat split; auto. tauto.
  - intros [Hk0 Hd]. destruct (cell_eqb k0 v) eqn:E; simpl.
    + intros [[= <- <-]|Hin].
      * right. left. exists n0. auto.
      * left. split; auto.
        destruct (cell_eqb k v) eqn:Ekv; auto.
        rewrite <- (Hk0 k n Hin). symmetry.
        rewrite (cell_eqb_compat k0 v k E). now rewrite cell_eqb_sym.
    + intros [[= <- <-]|Hin]; auto.
      destruct (IH Hd Hin) as [[H1 H2]|[(m & H1 & H2 & H3)|(H1 & H2 & H3)]].
      * auto.
      * right. left. exists m. auto.
      * right. right. repeat split; auto.
        intros k' n' [[= <- <-]|Hin']; eauto.
Qed.

Lemma count_add_found v acc :
  isna v = false ->
  exists k n, In (k, n) (count_add v acc) /\ cell_eqb k v = true.
Proof.
  intros Hv. induction acc as [|[k0 n0] acc IH]; simpl.
  - exists v, 1%nat. split; auto. now apply cell_eqb_refl.
  - destruct (cell_eqb k0 v) eqn:E.
    + exists k0, (S n0). simpl. auto.
    + destruct IH as (k & n & Hin & Hk). exists k, n. simpl. auto.
Qed.

Lemma count_add_kept v acc k n :
  In (k, n) acc -> exists n', In (k, n') (count_add v acc).
Proof.
  induction acc as [|[k0 n0] acc IH]; simpl; [tauto|].
  destruct (cell_eqb k0 v); simpl.
  - intros [[= <- <-]|Hin]; eauto.
  - intros [[= <- <-]|Hin]; eauto.
    destruct (IH Hin) as (n' & Hn'). eauto.
Qed.

Lemma count_add_sum v acc :
  counts_sum (count_add v acc) = S (counts_sum acc).
Proof.
  induction acc as [|[k0 n0] acc IH]; simpl; auto.
  destruct (cell_eqb k0 v); simpl; [auto|].
  fold (counts_sum (count_add v acc)). rewrite IH.
  fold (counts_sum acc). lia.
Qed.

Lemma count_add_distinct v acc :
  distinct_keys acc -> distinct_keys (count_add v acc).
Proof.
  induction acc as [|[k0 n0] acc IH]; simpl.
  - intros _. split; auto. tauto.
  - intros [Hk0 Hd]. destruct (cell_eqb k0 v) eqn:E; simpl.
    + auto.
    + split; auto. intros k' n' Hin.
      destruct (count_add_keys _ _ _ _ Hin) as [(m & Hm)| ->]; eauto.
Qed.

Lemma counts_of_snoc p acc v :
  isna v = false -> counts_of p acc -> counts_of (p ++ [v]) (count_add v acc).
Proof.
  intros Hv (Hd & Hcount & Hkey & Hsum). repeat split.
  - now apply count_add_distinct.
  - destruct (count_add_In _ _ _ _ Hd H)
      as [[H1 H2]|[(m & H1 & H2 & H3)|(H1 & H2 & H3)]].
    + now apply Hcount in H1.
    + now apply Hcount in H1.
    + now subst.
  - rewrite occurrences_app. unfold occurrences at 2. simpl.
    destruct (count_add_In _ _ _ _ Hd H)
      as [[H1 H2]|[(m & H1 & H2 & H3)|(H1 & H2 & H3)]].
    + rewrite H2. simpl. apply Hcount in H1. lia.
    + rewrite H3. simpl. apply Hcount in H1. lia.
    + subst k n. rewrite cell_eqb_refl by auto. simpl.
      destruct (occurrences v p) eqn:E; auto.
      assert (Hpos : (0 < occurrences v p)%nat) by lia.
      apply occurrences_positive in Hpos. destruct Hpos as (c & Hc & Hvc).
      destruct (Hkey c Hc) as (k' & n' & Hin' & Hk').
      { now apply cell_eqb_notna in Hvc. }
      specialize (H3 k' n' Hin').
      rewrite (cell_eqb_compat k' c v Hk') in H3.
      rewrite cell_eqb_sym in H3. congruence.
  - destruct (count_add_In _ _ _ _ Hd H)
      as [[H1 H2]|[(m & H1 & H2 & H3)|(H1 & H2 & H3)]].
    + apply Hcount in H1. lia.
    + lia.
    + lia.
  - intros c Hc Hna. apply in_app_or in Hc. destruct Hc as [Hc|[<- |[]]].
    + destruct (Hkey c Hc Hna) as (k & n & Hin & Hk).
      destruct (count_add_kept v _ _ _ Hin) as (n' & Hn'). eauto.
    + now apply count_add_found.
  - rewrite count_add_sum, present_app, Hsum.
    replace (present [v]) with 1%nat by (now destruct v). lia.
Qed.

Lemma counts_of_skip p acc :
  counts_of p acc -> counts_of (p ++ [Missing]) acc.
Proof.
  intros (Hd & Hcount & Hkey & Hsum). repeat split; auto.
  - now apply Hcount in H.
  - rewrite occurrences_app.
    replace (occurrences k [Missing]) with 0%nat
      by (unfold occurrences; simpl; now destruct k).
    apply Hcount in H. lia.
  - now apply Hcount in H.
  - intros c Hc Hna. apply in_app_or in Hc. destruct Hc as [Hc|[<- |[]]]; auto.
    discriminate.
  - rewrite present_app, Hsum. change (present [Missing]) with 0%nat. lia.
Qed.

Lemma value_counts_from p acc s :
  counts_of p acc ->
  counts_of (p ++ s)
    (fold_left (fun acc v => if isna v then acc else count_add v acc) s acc).
Proof.
  revert p acc. induction s as [|v s IH]; intros p acc Hinv; simpl.
  - now rewrite app_nil_r.
  - replace (p ++ v :: s) with ((p ++ [v]) ++ s)
      by (rewrite <- app_assoc; reflexivity).
    apply IH. destruct (isna v) eqn:Hv.
    + destruct v; try discriminate. now apply counts_of_skip.
    + now apply counts_of_snoc.
Qed.

Lemma value_counts_spec s : counts_of s (value_counts s).
Proof.
  apply (value_counts_from [] [] s).
  repeat split; simpl; try tauto; try (simpl in *; tauto).
Qed.

(** ** What [RareCategoryGrouper.fit] retains *)

Lemma In_index_at_least s threshold k :
  In k (index_at_least (value_counts_normalize s) threshold) <->
  exists n, In (k, n) (value_counts s) /\
            (threshold <=
             inject_Z (Z.of_nat n) / inject_Z (Z.of_nat (counts_sum (value_counts s))))%Q.
Proof.
  unfold index_at_least, value_counts_normalize.
  rewrite in_map_iff. split.
  - intros ([k' f] & <- & Hin). apply filter_In in Hin.
    destruct Hin as [Hin Hle]. apply in_map_iff in Hin.
    destruct Hin as ([k0 n] & [= <- <-] & Hin). simpl in *.
    exists n. split; auto. now apply Qle_bool_iff.
  - intros (n & Hin & Hle).
    exists (k, (inject_Z (Z.of_nat n) /
                inject_Z (Z.of_nat (counts_sum (value_counts s))))%Q).
    split; auto. apply filter_In. split.
    + apply in_map_iff. exists (k, n). auto.
    + simpl. now apply Qle_bool_iff.
Qed.

Lemma retained_not_missing s threshold :
  existsb isna (index_at_least (value_counts_normalize s) threshold) = false.
Proof.
  destruct (existsb isna _) eqn:E; auto.
  apply existsb_exists in E. destruct E as (k & Hk & Hna).
  apply In_index_at_least in Hk. destruct Hk as (n & Hin & _).
  destruct (value_counts_spec s) as (_ & Hcount & _).
  apply Hcount in Hin. destruct Hin as [Hk _]. congruence.
Qed.

(** A value is retained exactly when it occurs and its share of the
    non-missing rows reaches the threshold. *)
Lemma retained_spec s threshold v :
  isna v = false ->
  isin_cell (index_at_least (value_counts_normalize s) threshold) v = true <->
  (0 < occurrences v s)%nat /\ (threshold <= relative_frequency v s)%Q.
Proof.
  intros Hv. unfold isin_cell. rewrite Hv.
  destruct (value_counts_spec s) as (_ & Hcount & Hkey & Hsum).
  rewrite existsb_exists. unfold relative_frequency. split.
  - intros (k & Hk & Hvk). apply In_index_at_least in Hk.
    destruct Hk as (n & Hin & Hle).
    destruct (Hcount k n Hin) as (_ & Hn & Hpos).
    rewrite (occurrences_compat v k s Hvk), <- Hn, <- Hsum. auto.
  - intros [Hpos Hle]. apply occurrences_positive in Hpos.
    destruct Hpos as (c & Hc & Hvc).
    destruct (Hkey c Hc) as (k & n & Hin & Hk).
    { now apply cell_eqb_notna in Hvc. }
    assert (Hvk : cell_eqb v k = true).
    { eapply cell_eqb_trans; [exact Hvc|]. now rewrite cell_eqb_sym. }
    exists k. split; auto. apply In_index_at_least. exists n. split; auto.
    destruct (Hcount k n Hin) as (_ & Hn & _).
    rewrite Hn, <- (occurrences_compat v k s Hvk), Hsum. auto.
Qed.

Lemma rare_fit_spec self0 X0 self :
  call (RareCategoryGrouper.fit self0) X0 = Ok self ->
  RareCategoryGrouper.columns self = RareCategoryGrouper.columns self0 /\
  RareCategoryGrouper.min_frequency self =
  RareCategoryGrouper.min_frequency self0 /\
  forall col, In col (RareCategoryGrouper.columns self0) ->
    exists s,
      dict_get col (frame_columns X0) = Some s /\
      dict_get col (RareCategoryGrouper.frequent_categories_ self) =
      Some (index_at_least (value_counts_normalize s)
                           (RareCategoryGrouper.min_frequency self0)).
Proof.
  rewrite call_rare_fit. unfold rare_fit_value.
  destruct (fold_result _ _ _) as [cats|] eqn:E; simpl; [|discriminate].
  intros [= <-]. simpl. repeat split.
  intros col Hcol.
  apply (fold_fill_spec _
           (fun col => result_bind (frame_getitem X0 col) (fun s =>
              Ok (index_at_least (value_counts_normalize s)
                    (RareCategoryGrouper.min_frequency self0))))) in E.
  - destruct E as (Hin & _). destruct (Hin col Hcol) as (v & Hv & Hget).
    unfold frame_getitem in Hv.
    destruct (dict_get col (frame_columns X0)) as [s|]; simpl in Hv;
      [|discriminate].
    injection Hv as <-. eauto.
  - intros acc a. destruct (frame_getitem X0 a); reflexivity.
Qed.

(** ** C6: the threshold of [RareCategoryGrouper.fit] *)

Lemma rare_fit_body threshold F (acc : dict (list cell)) col :
  result_bind (frame_getitem F col) (fun s =>
    Ok (dict_set col (index_at_least (value_counts_normalize s) threshold)
                 acc)) =
  result_bind
    (result_bind (frame_getitem F col) (fun s =>
       Ok (index_at_least (value_counts_normalize s) threshold)))
    (fun v => Ok (dict_set col v acc)).
Proof. now destruct (frame_getitem F col). Qed.

Lemma rare_fit_total self0 X0 :
  (forall col, In col (RareCategoryGrouper.columns self0) ->
               has_column X0 col = true) ->
  exists self, call (RareCategoryGrouper.fit self0) X0 = Ok self.
Proof.
  intros Hcols. rewrite call_rare_fit. unfold rare_fit_value.
  destruct (fold_fill_total _ _ _
              (rare_fit_body (RareCategoryGrouper.min_frequency self0) X0)
              (RareCategoryGrouper.columns self0))
    with (acc0 := RareCategoryGrouper.frequent_categories_ self0)
    as (cats & ->).
  - intros col Hcol. specialize (Hcols col Hcol).
    unfold has_column, dict_mem, frame_getitem in *.
    destruct (dict_get col (frame_columns X0)); [simpl; eauto|discriminate].
  - simpl. eauto.
Qed.

(** C6.  On a table that has the configured columns [fit] returns, and
    the list it stores for a configured column holds no missing value and
    holds a value exactly when that value occurs in the column with a
    relative frequency at least [min_frequency]; in particular a value
    whose relative frequency equals the threshold is retained. *)
Theorem C6_fit_retains_from_threshold self0 X0 :
  (forall col, In col (RareCategoryGrouper.columns self0) ->
               has_column X0 col = true) ->
  exists self,
    call (RareCategoryGrouper.fit self0) X0 = Ok self /\
    forall col s,
      In col (RareCategoryGrouper.columns self0) ->
      dict_get col (frame_columns X0) = Some s ->
      exists frequent,
        dict_get col (RareCategoryGrouper.frequent_categories_ self)
        = Some frequent /\
        existsb isna frequent = false /\
        (forall v, isna v = false ->
           (isin_cell frequent v = true <->
            (0 < occurrences v s)%nat /\
            (RareCategoryGrouper.min_frequency self0
             <= relative_frequency v s)%Q))
        /\
        (forall v, (0 < occurrences v s)%nat ->
           (relative_frequency v s
            == RareCategoryGrouper.min_frequency self0)%Q ->
           isin_cell frequent v = true).
Proof.
  intros Hcols. destruct (rare_fit_total self0 X0 Hcols) as (self & Hfit).
  exists self. split; auto. intros col s Hcol Hs.
  destruct (rare_fit_spec _ _ _ Hfit) as (_ & _ & Hcats).
  destruct (Hcats col Hcol) as (s' & Hs' & Hget).
  assert (s' = s) by congruence. subst s'.
  eexists. split; [exact Hget|]. split; [apply retained_not_missing|]. split.
  - intros v Hv. now apply retained_spec.
  - intros v Hpos Heq. apply retained_spec.
    + apply occurrences_positive in Hpos. destruct Hpos as (c & _ & Hvc).
      now apply cell_eqb_notna in Hvc.
    + split; auto. rewrite Heq. apply Qle_refl.
Qed.

(** With threshold one third on the sample, ["B"] (two rows of six) is
    retained and ["C"] (one row of six) is not. *)
Lemma C6_witness :
  exists self frequent,
    call (RareCategoryGrouper.fit (RareCategoryGrouper.__init__ ["City"] (1 # 3)))
         Sample.city_fit = Ok self /\
    dict_get "City" (RareCategoryGrouper.frequent_categories_ self)
    = Some frequent /\
    isin_cell frequent (Str "B") = true /\
    isin_cell frequent (Str "C") = false.
Proof.
  destruct (C6_fit_retains_from_threshold
              (RareCategoryGrouper.__init__ ["City"] (1 # 3)) Sample.city_fit)
    as (self & Hfit & Hspec).
  - intros col [<-|[]]. reflexivity.
  - destruct (Hspec "City"
                [Str "A"; Str "A"; Str "A"; Str "B"; Str "B"; Str "C"]
                (or_introl eq_refl) eq_refl)
      as (frequent & Hget & _ & Hiff & Hedge).
    exists self, frequent. repeat split; auto.
    + apply Hedge.
      * vm_compute. lia.
      * vm_compute. reflexivity.
    + destruct (isin_cell frequent (Str "C")) eqn:E; auto.
      apply Hiff in E; [|reflexivity]. destruct E as [_ E].
      exfalso. revert E. vm_compute. intros E. now apply E.
Defined.

(** ** C10: frequencies are taken over the non-missing rows *)

Lemma value_counts_normalize_spec s k f :
  In (k, f) (value_counts_normalize s) ->
  isna k = false /\ f = relative_frequency k s.
Proof.
  unfold value_counts_normalize. intros Hin. apply in_map_iff in Hin.
  destruct Hin as ([k' n] & [= <- <-] & Hin).
  destruct (value_counts_spec s) as (_ & Hcount & _ & Hsum).
  destruct (Hcount k' n Hin) as (Hk & Hn & _). split; auto.
  unfold relative_frequency. now rewrite Hsum, Hn.
Qed.

Lemma present_plus_missing s :
  (present s + List.length (filter isna s) = List.length s)%nat.
Proof.
  unfold present. induction s as [|c s IH]; simpl; auto.
  destruct (isna c); simpl; lia.
Qed.

Lemma occurrences_le_present v s : (occurrences v s <= present s)%nat.
Proof.
  unfold occurrences, present. induction s as [|c s IH]; simpl; auto.
  destruct (cell_eqb v c) eqn:E.
  - apply cell_eqb_notna in E. destruct E as [_ ->]. simpl. lia.
  - destruct (isna c); simpl; lia.
Qed.

(** In a column with a missing cell, the share that a value has of all
    the rows is smaller than its share of the non-missing rows. *)
Lemma share_of_all_rows v s :
  (0 < occurrences v s)%nat -> In Missing s ->
  (frequency_over_all_rows v s < relative_frequency v s)%Q.
Proof.
  intros Hpos Hmiss. unfold frequency_over_all_rows, relative_frequency.
  pose proof (occurrences_le_present v s) as Hle.
  assert (Hlt : (present s < List.length s)%nat).
  { pose proof (present_plus_missing s) as Hsum.
    assert (Hf : In Missing (filter isna s))
      by (apply filter_In; split; auto).
    destruct (filter isna s); [destruct Hf|simpl in Hsum; lia]. }
  set (a := inject_Z (Z.of_nat (occurrences v s))).
  set (P := inject_Z (Z.of_nat (present s))).
  set (L := inject_Z (Z.of_nat (List.length s))).
  assert (Ha : (0 < a)%Q)
    by (unfold a; change 0%Q with (inject_Z 0); rewrite <- Zlt_Qlt; lia).
  assert (HP : (a <= P)%Q) by (unfold a, P; rewrite <- Zle_Qle; lia).
  assert (HL : (P < L)%Q) by (unfold P, L; rewrite <- Zlt_Qlt; lia).
  assert (Hx : (a / P * P == a)%Q) by (field; lra).
  assert (Hxpos : (0 < a / P)%Q) by (apply Qlt_shift_div_l; lra).
  apply Qlt_shift_div_r; [lra|]. nra.
Qed.

(** C10.  Whatever the table, the list that [fit] stores for a configured
    column never holds the missing value, and holds a value exactly when
    the number of rows with the value, divided by the number of
    non-missing rows of the column (the rows of the column less its
    missing cells), is at least [min_frequency].  Consequently, in a column
    with a missing cell the share that an occurring value has of all the
    rows is smaller than the frequency [fit] compares, and the value is
    retained whenever [min_frequency] lies between the two, although its
    share of all the rows is below [min_frequency]. *)
Theorem C10_frequency_ignores_missing_rows self0 X0 self col s :
  call (RareCategoryGrouper.fit self0) X0 = Ok self ->
  In col (RareCategoryGrouper.columns self0) ->
  dict_get col (frame_columns X0) = Some s ->
  exists frequent,
    dict_get col (RareCategoryGrouper.frequent_categories_ self)
    = Some frequent /\
    isin_cell frequent Missing = false /\
    (forall v, isna v = false ->
       (isin_cell frequent v = true <->
        (0 < occurrences v s)%nat /\
        (RareCategoryGrouper.min_frequency self0
         <= inject_Z (Z.of_nat (occurrences v s)) /
            inject_Z (Z.of_nat (present s)))%Q)) /\
    (present s + List.length (filter isna s) = List.length s)%nat /\
    (forall v, isna v = false -> (0 < occurrences v s)%nat ->
       In Missing s ->
       (frequency_over_all_rows v s < relative_frequency v s)%Q /\
       ((frequency_over_all_rows v s
         < RareCategoryGrouper.min_frequency self0)%Q ->
        (RareCategoryGrouper.min_frequency self0
         <= relative_frequency v s)%Q ->
        isin_cell frequent v = true)).
Proof.
  intros Hfit Hcol Hs.
  destruct (rare_fit_spec _ _ _ Hfit) as (_ & _ & Hcats).
  destruct (Hcats col Hcol) as (s' & Hs' & Hget).
  assert (s' = s) by congruence. subst s'.
  eexists. split; [exact Hget|]. split; [|split; [|split]].
  - unfold isin_cell. simpl. apply retained_not_missing.
  - intros v Hv. exact (retained_spec s _ v Hv).
  - apply present_plus_missing.
  - intros v Hv Hpos Hmiss. split.
    + now apply share_of_all_rows.
    + intros _ Hle. apply retained_spec; auto.
Qed.

(** Fitted with threshold one half on a column of one ["A"] and three
    missing cells, the grouper retains ["A"], whose share of the four rows
    is one quarter. *)
Lemma C10_witness :
  exists frequent,
    dict_get "City"
      (RareCategoryGrouper.frequent_categories_
         (Sample.grouper (1 # 2) [("City", [Str "A"])]))
    = Some frequent /\
    isin_cell frequent (Str "A") = true /\
    (frequency_over_all_rows (Str "A")
       [Str "A"; Missing; Missing; Missing] < 1 # 2)%Q.
Proof.
  destruct (C10_frequency_ignores_missing_rows
              (RareCategoryGrouper.__init__ ["City"] (1 # 2)) Sample.sparse
              (Sample.grouper (1 # 2) [("City", [Str "A"])]) "City"
              [Str "A"; Missing; Missing; Missing])
    as (frequent & Hget & _ & _ & _ & Hcons).
  - reflexivity.
  - simpl. auto.
  - reflexivity.
  - exists frequent. split; [exact Hget|].
    destruct (Hcons (Str "A") eq_refl) as [_ Hret].
    + vm_compute. lia.
    + simpl. auto.
    + split.
      * apply Hret; vm_compute; congruence.
      * vm_compute. reflexivity.
Defined.

(** ** [RareCategoryGrouper.transform] *)

Lemma where_isin s values other :
  where_ s (isin s values) other =
  map (fun c => if isin_cell values c then c else other) s.
Proof.
  unfold where_, isin. induction s as [|c s IH]; simpl; auto.
  now rewrite IH.
Qed.

Lemma group_rare_stable cats l :
  stable_rewrite (group_rare cats) l.
Proof.
  intros col s s' _. unfold group_rare.
  destruct (dict_get col cats) as [values|]; [|discriminate].
  intros [= <-]. f_equal. rewrite !where_isin, map_map.
  apply map_ext. intros c.
  destruct (isin_cell values c) eqn:E; [now rewrite E|].
  now destruct (isin_cell values (Str "Other")).
Qed.

Lemma group_rare_coherent cats l :
  coherent_rewrite (fun col : string => col) (group_rare cats) l.
Proof. intros a b s _ _ ->. reflexivity. Qed.

Lemma cell_at_map F F' col f s :
  dict_get col (frame_columns F) = Some s ->
  dict_get col (frame_columns F') = Some (map f s) ->
  forall i c, cell_at F col i = Some c -> cell_at F' col i = Some (f c).
Proof.
  intros Hs Hs' i c. unfold cell_at. rewrite Hs, Hs'.
  intros Hi. now rewrite nth_error_map, Hi.
Qed.

(** On a fitted grouper and a table that has the configured columns,
    [transform] returns, and in each configured column it keeps the cells
    found in the retained list and writes ["Other"] over all the others. *)
Lemma rare_transform_spec self0 X0 self Y :
  call (RareCategoryGrouper.fit self0) X0 = Ok self ->
  (forall col, In col (RareCategoryGrouper.columns self) ->
               has_column Y col = true) ->
  exists Y',
    call (returned (RareCategoryGrouper.transform self)) Y = Ok Y' /\
    forall col, In col (RareCategoryGrouper.columns self) ->
    exists frequent,
      dict_get col (RareCategoryGrouper.frequent_categories_ self)
      = Some frequent /\
      existsb isna frequent = false /\
      forall i c, cell_at Y col i = Some c ->
        cell_at Y' col i =
        Some (if isin_cell frequent c then c else Str "Other").
Proof.
  intros Hfit Hcols.
  destruct (rare_fit_spec _ _ _ Hfit) as (Hc & _ & Hcats).
  rewrite Hc in Hcols.
  rewrite (call_returned _ _ Y (rare_runs_as self)). unfold rare_value.
  set (g := group_rare (RareCategoryGrouper.frequent_categories_ self)).
  set (step := fun col : string => rewrite_column (g col) col).
  assert (Htot : fst (loop_frame step (RareCategoryGrouper.columns self) Y)
                 = Ok tt).
  { apply (loop_rewrite_total _ (fun col : string => col) g (fun _ => True)).
    - intros col s Hcol _. rewrite Hc in Hcol.
      destruct (Hcats col Hcol) as (s0 & _ & Hget).
      unfold g, group_rare. rewrite Hget. eauto.
    - intros col Hcol. rewrite Hc in Hcol. specialize (Hcols col Hcol).
      unfold has_column, dict_mem in Hcols.
      destruct (dict_get col (frame_columns Y)); [eauto|discriminate]. }
  destruct (loop_frame step (RareCategoryGrouper.columns self) Y)
    as [res Y'] eqn:Hrun.
  simpl in Htot. subst res. exists Y'. split; [reflexivity|].
  intros col Hcol.
  destruct (loop_rewrite_spec _ (fun col : string => col) g _
              (group_rare_stable _ _) (group_rare_coherent _ _)
              _ _ Hrun col Hcol) as (s & s' & Hs & Hg & Hs').
  rewrite Hc in Hcol. destruct (Hcats col Hcol) as (s0 & _ & Hget).
  eexists. split; [exact Hget|]. split; [apply retained_not_missing|].
  unfold g, group_rare in Hg. rewrite Hget in Hg. injection Hg as <-.
  rewrite where_isin in Hs'.
  intros i c.
  exact (cell_at_map Y Y' col
           (fun c => if isin_cell _ c then c else Str "Other") s Hs Hs' i c).
Qed.

(** ** C1: missing cells under [RareCategoryGrouper.transform] *)

(** C1, as stated, fails: the grouper of the specification's example
    (fitted on [A A A B B C] with threshold 0.2, retaining [A] and [B])
    turns the missing cell of row 4 of [A B C D missing] into ["Other"]. *)
Lemma C1_counterexample :
  call (RareCategoryGrouper.fit (RareCategoryGrouper.__init__ ["City"] (2 # 10)))
       Sample.city_fit
  = Ok (Sample.grouper (2 # 10) [("City", [Str "A"; Str "B"])]) /\
  call (returned (RareCategoryGrouper.transform
                    (Sample.grouper (2 # 10) [("City", [Str "A"; Str "B"])])))
       Sample.city_new
  = Ok Sample.city_grouped /\
  cell_at Sample.city_new "City" 4 = Some Missing /\
  cell_at Sample.city_grouped "City" 4 = Some (Str "Other") /\
  cell_at Sample.city_grouped "City" 4 <> Some Missing.
Proof. repeat split; try reflexivity. discriminate. Qed.

(** C1, amended.  For every fitted grouper and every table that has the
    configured columns, [transform] returns a table in which, in every
    configured column, a non-missing cell found in the column's retained
    list is unchanged and every other cell is ["Other"]: a non-missing cell
    outside the list, and also a missing cell, since [fit] retains no
    missing value. *)
Theorem C1_cells_outside_retained_become_other self0 X0 self Y :
  call (RareCategoryGrouper.fit self0) X0 = Ok self ->
  (forall col, In col (RareCategoryGrouper.columns self) ->
               has_column Y col = true) ->
  exists Y',
    call (returned (RareCategoryGrouper.transform self)) Y = Ok Y' /\
    forall col i c,
      In col (RareCategoryGrouper.columns self) ->
      cell_at Y col i = Some c ->
      exists frequent,
        dict_get col (RareCategoryGrouper.frequent_categories_ self)
        = Some frequent /\
        (isna c = true -> cell_at Y' col i = Some (Str "Other")) /\
        (isna c = false -> isin_cell frequent c = true ->
         cell_at Y' col i = Some c) /\
        (isna c = false -> isin_cell frequent c = false ->
         cell_at Y' col i = Some (Str "Other")).
Proof.
  intros Hfit Hcols.
  destruct (rare_transform_spec _ _ _ _ Hfit Hcols) as (Y' & Hrun & Hspec).
  exists Y'. split; auto. intros col i c Hcol Hc.
  destruct (Hspec col Hcol) as (frequent & Hget & Hna & Hcell).
  exists frequent. split; auto. specialize (Hcell i c Hc).
  repeat split.
  - intros Hmiss. rewrite Hcell. unfold isin_cell. now rewrite Hmiss, Hna.
  - intros _ Hin. now rewrite Hcell, Hin.
  - intros _ Hin. now rewrite Hcell, Hin.
Qed.

Lemma C1_witness :
  exists Y',
    call (returned (RareCategoryGrouper.transform
                      (Sample.grouper (2 # 10) [("City", [Str "A"; Str "B"])])))
         Sample.city_new = Ok Y' /\
    forall col i c,
      In col ["City"] ->
      cell_at Sample.city_new col i = Some c ->
      exists frequent,
        dict_get col [("City", [Str "A"; Str "B"])] = Some frequent /\
        (isna c = true -> cell_at Y' col i = Some (Str "Other")) /\
        (isna c = false -> isin_cell frequent c = true ->
         cell_at Y' col i = Some c) /\
        (isna c = false -> isin_cell frequent c = false ->
         cell_at Y' col i = Some (Str "Other")).
Proof.
  apply (C1_cells_outside_retained_become_other
           (RareCategoryGrouper.__init__ ["City"] (2 # 10)) Sample.city_fit
           (Sample.grouper (2 # 10) [("City", [Str "A"; Str "B"])])
           Sample.city_new).
  - reflexivity.
  - intros col [<-|[]]. reflexivity.
Defined.

(** ** C2: [transform] before [fit] *)

(** C2, as stated, fails: a clipper that was never fitted returns the table
    it is given, and a grouper that was never fitted raises [KeyError]. *)
Lemma C2_counterexample :
  call (returned (OutlierClipper.transform
                    (OutlierClipper.__init__ ["a"] (1 # 100) (99 # 100))))
       Sample.measures
  = Ok Sample.measures /\
  call (returned (RareCategoryGrouper.transform
                    (RareCategoryGrouper.__init__ ["City"] (1 # 100))))
       Sample.city_new
  = Raise KeyError /\
  Ok Sample.measures <> (Raise NotFittedError : result DataFrame) /\
  (Raise KeyError : result DataFrame) <> Raise NotFittedError.
Proof. repeat split; try reflexivity; discriminate. Qed.

(** C2, amended.  On a unit on which [fit] has not been called,
    [NotFittedError] is never raised: [OutlierClipper.transform] returns a
    copy of its argument, equal to it; [RareCategoryGrouper.transform]
    raises [KeyError] when at least one column is configured and returns a
    copy of its argument when none is. *)
Theorem C2_transform_before_fit (col : string) (cols : list string)
  (min_frequency lower_quantile upper_quantile : Q) (X : DataFrame) :
  call (returned (OutlierClipper.transform
                    (OutlierClipper.__init__ cols lower_quantile upper_quantile)))
       X = Ok X /\
  call (returned (RareCategoryGrouper.transform
                    (RareCategoryGrouper.__init__ (col :: cols) min_frequency)))
       X = Raise KeyError /\
  call (returned (RareCategoryGrouper.transform
                    (RareCategoryGrouper.__init__ [] min_frequency)))
       X = Ok X.
Proof.
  split; [|split].
  - now rewrite (call_returned _ _ X (clipper_runs_as _)).
  - rewrite (call_returned _ _ X (rare_runs_as _)).
    unfold rare_value, outcome. simpl.
    unfold rewrite_column, frame_getitem, group_rare.
    now destruct (dict_get col (frame_columns X)).
  - now rewrite (call_returned _ _ X (rare_runs_as _)).
Qed.

(** ** C5: [BooleanNormalizer.transform] *)

(** The objects that the lambda returns, cell by cell; the column is then
    held as floats when one of them is missing. *)
Lemma normalize_flags_map `{FloatRepr} s :
  normalize_flags s =
  Ok (infer_dtype
        (map (fun c => BooleanNormalizer.to_flag (Str (lower (str_of_cell c))))
             s)).
Proof.
  unfold normalize_flags, str_lower, astype_str. now rewrite !map_map.
Qed.

Lemma to_flag_str x :
  BooleanNormalizer.to_flag (Str x) =
  if (String.eqb x "yes" || String.eqb x "true" || String.eqb x "1")%bool
  then Int 1
  else if (String.eqb x "no" || String.eqb x "false" || String.eqb x "0")%bool
       then Int 0 else Missing.
Proof.
  unfold BooleanNormalizer.to_flag. simpl.
  now rewrite !orb_false_r, !orb_assoc.
Qed.

Lemma In_three (x a b c : string) :
  (String.eqb x a || String.eqb x b || String.eqb x c)%bool = true <->
  In x [a; b; c].
Proof.
  rewrite !orb_true_iff, !String.eqb_eq. simpl. intuition.
Qed.

Lemma to_flag_range x :
  BooleanNormalizer.to_flag x = Int 1 \/
  BooleanNormalizer.to_flag x = Int 0 \/
  BooleanNormalizer.to_flag x = Missing.
Proof.
  unfold BooleanNormalizer.to_flag.
  destruct (existsb _ BooleanNormalizer.true_values); auto.
  destruct (existsb _ BooleanNormalizer.false_values); auto.
Qed.

(** What the lambda returns for a string, by the two lists of literals. *)
Lemma to_flag_cases x :
  (In x ["yes"; "true"; "1"] /\ BooleanNormalizer.to_flag (Str x) = Int 1) \/
  (In x ["no"; "false"; "0"] /\ ~ In x ["yes"; "true"; "1"] /\
   BooleanNormalizer.to_flag (Str x) = Int 0) \/
  (~ In x ["yes"; "true"; "1"] /\ ~ In x ["no"; "false"; "0"] /\
   BooleanNormalizer.to_flag (Str x) = Missing).
Proof.
  rewrite to_flag_str, <- !In_three.
  destruct (String.eqb x "yes" || String.eqb x "true" || String.eqb x "1")%bool;
    auto.
  destruct (String.eqb x "no" || String.eqb x "false" || String.eqb x "0")%bool;
    [right; left|right; right]; repeat split; auto; discriminate.
Qed.

Lemma flag_is_int x :
  is_int (BooleanNormalizer.to_flag (Str x)) = true <->
  In x ["yes"; "true"; "1"; "no"; "false"; "0"].
Proof.
  destruct (to_flag_cases x) as [[Hin ->]|[(Hin & _ & ->)|(Ht & Hf & ->)]];
    simpl in *; intuition discriminate.
Qed.

(** The flags of a column are held as integers exactly when every cell of
    the column is recognized. *)
Lemma flags_held_as_floats `{FloatRepr} (s : Series) :
  held_as_floats
    (map (fun c => BooleanNormalizer.to_flag (Str (lower (str_of_cell c)))) s)
  = false <->
  forall d, In d s ->
    In (lower (str_of_cell d)) ["yes"; "true"; "1"; "no"; "false"; "0"].
Proof.
  unfold held_as_floats.
  assert (Hr : forallb is_real
            (map (fun c => BooleanNormalizer.to_flag
                             (Str (lower (str_of_cell c)))) s) = true).
  { apply forallb_forall. intros x Hx. apply in_map_iff in Hx.
    destruct Hx as (d & <- & _).
    destruct (to_flag_range (Str (lower (str_of_cell d))))
      as [->|[->| ->]]; reflexivity. }
  rewrite Hr. simpl. rewrite negb_false_iff, forallb_forall. split.
  - intros Hall d Hd. apply flag_is_int. apply Hall.
    apply in_map_iff. eauto.
  - intros Hall x Hx. apply in_map_iff in Hx. destruct Hx as (d & <- & Hd).
    apply flag_is_int. now apply Hall.
Qed.

(** When no column is configured twice, each configured column of the
    result is the column of flags of the argument's column. *)
Lemma boolean_transform_spec `{FloatRepr} self Y :
  NoDup (BooleanNormalizer.columns self) ->
  (forall col, In col (BooleanNormalizer.columns self) ->
               has_column Y col = true) ->
  exists Y',
    call (returned (BooleanNormalizer.transform self)) Y = Ok Y' /\
    forall col, In col (BooleanNormalizer.columns self) ->
    exists s,
      dict_get col (frame_columns Y) = Some s /\
      dict_get col (frame_columns Y') =
      Some (infer_dtype
              (map (fun c => BooleanNormalizer.to_flag
                               (Str (lower (str_of_cell c)))) s)).
Proof.
  intros Hnd Hcols.
  rewrite (call_returned _ _ Y (boolean_runs_as self)). unfold boolean_value.
  set (step := fun col : string => rewrite_column normalize_flags col).
  assert (Htot : fst (loop_frame step (BooleanNormalizer.columns self) Y)
                 = Ok tt).
  { apply (loop_rewrite_total _ (fun col : string => col)
             (fun _ => normalize_flags) (fun _ => True)).
    - intros col s _ _. unfold normalize_flags. eauto.
    - intros col Hcol. specialize (Hcols col Hcol).
      unfold has_column, dict_mem in Hcols.
      destruct (dict_get col (frame_columns Y)); [eauto|discriminate]. }
  destruct (loop_frame step (BooleanNormalizer.columns self) Y)
    as [res Y'] eqn:Hrun.
  simpl in Htot. subst res. exists Y'. split; [reflexivity|].
  intros col Hcol.
  destruct (loop_rewrite_once _ (fun col : string => col)
              (fun _ => normalize_flags) _
              (eq_ind_r (@NoDup string) Hnd (map_id _))
              _ _ Hrun col Hcol) as (s & s' & Hs & Hg & Hs').
  rewrite normalize_flags_map in Hg. injection Hg as <-.
  eauto.
Qed.

(** With a column configured twice, the second pass reads the flags of the
    first: held as floats, they print as ["1.0"] and ["0.0"], which are in
    neither list, and every cell of the column ends up missing. *)
Lemma C5_counterexample :
  exists Y',
    call (returned (@BooleanNormalizer.transform Sample.repr_one_decimal
                      (BooleanNormalizer.__init__ ["Garage"; "Garage"])))
         Sample.flags = Ok Y' /\
    cell_at Sample.flags "Garage" 1 = Some (Str "yes") /\
    In (lower (@str_of_cell Sample.repr_one_decimal (Str "yes")))
       ["yes"; "true"; "1"] /\
    cell_at Y' "Garage" 1 = Some Missing.
Proof.
  eexists. split; [reflexivity|]. split; [reflexivity|]. split.
  - simpl. auto.
  - reflexivity.
Qed.

(** C5.  On a table that has the configured columns, none of them
    configured twice, [transform] raises nothing, and in every configured
    column each cell becomes 1, 0 or missing according to
    [lower(str(cell))] alone: 1 when it is one of "yes", "true", "1"; 0
    when it is one of "no", "false", "0"; missing in every other case,
    that of a missing cell included.  In particular two cells whose lowered
    string forms agree (case variants) give the same result.  The flags of
    a column are the integers 1 and 0 when every cell of the column is
    recognized, and the floats 1.0 and 0.0 as soon as one cell becomes
    missing. *)
Theorem C5_boolean_normalizer_flags `{FloatRepr} self Y :
  NoDup (BooleanNormalizer.columns self) ->
  (forall col, In col (BooleanNormalizer.columns self) ->
               has_column Y col = true) ->
  exists Y',
    call (returned (BooleanNormalizer.transform self)) Y = Ok Y' /\
    forall col i c,
      In col (BooleanNormalizer.columns self) ->
      cell_at Y col i = Some c ->
      exists c',
        cell_at Y' col i = Some c' /\
        (c' = Int 1 \/ c' = Float 1 \/ c' = Int 0 \/ c' = Float 0 \/
         c' = Missing) /\
        (In (lower (str_of_cell c)) ["yes"; "true"; "1"] ->
         c' = Int 1 \/ c' = Float 1) /\
        (In (lower (str_of_cell c)) ["no"; "false"; "0"] ->
         c' = Int 0 \/ c' = Float 0) /\
        (~ In (lower (str_of_cell c)) ["yes"; "true"; "1"] ->
         ~ In (lower (str_of_cell c)) ["no"; "false"; "0"] ->
         c' = Missing) /\
        (isna c = true -> c' = Missing) /\
        (forall j d, cell_at Y col j = Some d ->
                     lower (str_of_cell d) = lower (str_of_cell c) ->
                     cell_at Y' col j = Some c') /\
        (is_int c' = true <->
         forall j d, cell_at Y col j = Some d ->
                     In (lower (str_of_cell d))
                        ["yes"; "true"; "1"; "no"; "false"; "0"]).
Proof.
  intros Hnd Hcols.
  destruct (boolean_transform_spec self Y Hnd Hcols) as (Y' & Hrun & Hcol').
  exists Y'. split; auto. intros col i c Hcol Hc.
  destruct (Hcol' col Hcol) as (s & Hs & Hs').
  set (f := fun c => BooleanNormalizer.to_flag (Str (lower (str_of_cell c))))
    in *.
  assert (Hat : forall j d, cell_at Y col j = Some d ->
            cell_at Y' col j =
            Some (if held_as_floats (map f s) then to_float (f d) else f d)).
  { intros j d. unfold cell_at. rewrite Hs, Hs'. intros Hd.
    now rewrite infer_dtype_nth, nth_error_map, Hd. }
  assert (Hheld : held_as_floats (map f s) = false <->
            forall j d, cell_at Y col j = Some d ->
                        In (lower (str_of_cell d))
                           ["yes"; "true"; "1"; "no"; "false"; "0"]).
  { unfold f. rewrite flags_held_as_floats. unfold cell_at. rewrite Hs.
    split.
    - intros Hall j d Hd. apply Hall. eapply nth_error_In; eauto.
    - intros Hall d Hd. destruct (In_nth_error _ _ Hd) as (j & Hj). eauto. }
  assert (Hsame : forall j d, cell_at Y col j = Some d ->
            lower (str_of_cell d) = lower (str_of_cell c) ->
            cell_at Y' col j =
            Some (if held_as_floats (map f s) then to_float (f c) else f c)).
  { intros j d Hd Heq. rewrite (Hat j d Hd).
    assert (Hfd : f d = f c) by (unfold f; now rewrite Heq).
    now rewrite Hfd. }
  assert (Hmiss : isna c = true -> f c = Missing)
    by (destruct c; try discriminate; reflexivity).
  assert (Hrec : held_as_floats (map f s) = false ->
                 In (lower (str_of_cell c))
                    ["yes"; "true"; "1"; "no"; "false"; "0"])
    by (intros Eh; exact (proj1 Hheld Eh i c Hc)).
  eexists. split; [exact (Hat i c Hc)|].
  destruct (to_flag_cases (lower (str_of_cell c)))
    as [[Hin E]|[(Hin & Hnot & E)|(Ht & Hf & E)]];
    change (BooleanNormalizer.to_flag (Str (lower (str_of_cell c))))
      with (f c) in E;
    rewrite E in *;
    destruct (held_as_floats (map f s)) eqn:Eh; cbn [to_float is_int];
    change (Float (inject_Z 1)) with (Float 1);
    change (Float (inject_Z 0)) with (Float 0).
  all: try solve [exfalso; specialize (Hrec eq_refl);
                  simpl in Hrec, Ht, Hf; tauto].
  all: (split; [tauto|]);
    (split; [solve [intros; auto
                   |intros; exfalso; simpl in *; intuition congruence]|]);
    (split; [solve [intros; auto
                   |intros; exfalso; simpl in *; intuition congruence]|]);
    (split; [solve [intros; auto
                   |intros; exfalso; simpl in *; intuition congruence]|]);
    (split; [solve [intros; auto
                   |intros Hna; apply Hmiss in Hna; discriminate]|]);
    (split; [exact Hsame|]);
    (split;
     [solve [discriminate | intros _; now apply Hheld]
     |solve [reflexivity
            |intros Hall; apply Hheld in Hall; discriminate]]).
Qed.

(** On the sample, whose column has a missing cell: "YES", "yes" and "Yes"
    give 1.0, "No" gives 0.0, the missing cell and "maybe" give missing. *)
Lemma C5_witness :
  exists Y',
    call (returned (@BooleanNormalizer.transform Sample.repr_one_decimal
                      (BooleanNormalizer.__init__ ["Garage"])))
         Sample.flags = Ok Y' /\
    cell_at Y' "Garage" 0 = Some (Float 1) /\
    cell_at Y' "Garage" 1 = Some (Float 1) /\
    cell_at Y' "Garage" 2 = Some (Float 1) /\
    cell_at Y' "Garage" 3 = Some (Float 0) /\
    cell_at Y' "Garage" 7 = Some Missing /\
    cell_at Y' "Garage" 8 = Some Missing.
Proof.
  destruct (@C5_boolean_normalizer_flags Sample.repr_one_decimal
              (BooleanNormalizer.__init__ ["Garage"]) Sample.flags)
    as (Y' & Hrun & Hcell).
  - repeat constructor. simpl. tauto.
  - intros col [<-|[]]. reflexivity.
  - exists Y'. split; [exact Hrun|].
    assert (Hin : In "Garage" (BooleanNormalizer.columns
                                 (BooleanNormalizer.__init__ ["Garage"])))
      by (simpl; auto).
    assert (Hsome : ~ (forall j d,
                cell_at Sample.flags "Garage" j = Some d ->
                In (lower (@str_of_cell Sample.repr_one_decimal d))
                   ["yes"; "true"; "1"; "no"; "false"; "0"])).
    { intros Hall. specialize (Hall 8%nat (Str "maybe") eq_refl).
      simpl in Hall. intuition discriminate. }
    repeat split.
    + destruct (Hcell "Garage" 0%nat (Str "YES") Hin eq_refl)
        as (c' & -> & _ & H1 & _ & _ & _ & _ & Hiff).
      destruct H1 as [-> | ->]; [simpl; auto| |reflexivity].
      exfalso. apply Hsome. now apply Hiff.
    + destruct (Hcell "Garage" 1%nat (Str "yes") Hin eq_refl)
        as (c' & -> & _ & H1 & _ & _ & _ & _ & Hiff).
      destruct H1 as [-> | ->]; [simpl; auto| |reflexivity].
      exfalso. apply Hsome. now apply Hiff.
    + destruct (Hcell "Garage" 2%nat (Str "Yes") Hin eq_refl)
        as (c' & -> & _ & H1 & _ & _ & _ & _ & Hiff).
      destruct H1 as [-> | ->]; [simpl; auto| |reflexivity].
      exfalso. apply Hsome. now apply Hiff.
    + destruct (Hcell "Garage" 3%nat (Str "No") Hin eq_refl)
        as (c' & -> & _ & _ & H0 & _ & _ & _ & Hiff).
      destruct H0 as [-> | ->]; [simpl; auto| |reflexivity].
      exfalso. apply Hsome. now apply Hiff.
    + destruct (Hcell "Garage" 7%nat Missing Hin eq_refl)
        as (c' & -> & _ & _ & _ & _ & Hm & _).
      f_equal. now apply Hm.
    + destruct (Hcell "Garage" 8%nat (Str "maybe") Hin eq_refl)
        as (c' & -> & _ & _ & _ & Hm & _).
      f_equal. apply Hm; simpl; intuition discriminate.
Defined.

(** ** C4: [AreaFeatureSelector.transform] *)

Lemma nth_error_zip_with {A B C} (f : A -> B -> C) l1 l2 i :
  nth_error (zip_with f l1 l2) i =
  match nth_error l1 i, nth_error l2 i with
  | Some a, Some b => Some (f a b)
  | _, _ => None
  end.
Proof.
  revert l2 i. induction l1 as [|a l1 IH]; intros [|b l2] [|i]; simpl; auto.
  - now destruct (nth_error l1 i).
Qed.

Lemma first_non_missing_single c : first_non_missing [c] = c.
Proof. now destruct c. Qed.

(** Row by row, the first column of the back-filled frame is the first
    non-missing value of the row. *)
Lemma bfill_axis1_head_row (d : dict Series) i :
  forall cells k s rest,
    Forall2 (fun ks c => nth_error (snd ks) i = Some c) d cells ->
    bfill_axis1 d = (k, s) :: rest ->
    nth_error s i = Some (first_non_missing cells).
Proof.
  induction d as [|[k0 s0] d IH]; intros cells k s rest Hrow; simpl.
  - discriminate.
  - inversion Hrow as [|? c ? cells' Hc Hrest]; subst. simpl in Hc.
    destruct (bfill_axis1 d) as [|[k1 r] filled] eqn:E.
    + intros [= <- <- <-].
      destruct d as [|[k2 s2] d].
      * inversion Hrest; subst. now rewrite first_non_missing_single.
      * simpl in E. destruct (bfill_axis1 d) as [|[? ?] ?]; discriminate.
    + intros [= <- <- <-]. rewrite nth_error_zip_with, Hc.
      rewrite (IH cells' k1 r filled Hrest eq_refl). reflexivity.
Qed.

Lemma bfill_axis1_nonempty (d : dict Series) : d <> [] -> bfill_axis1 d <> [].
Proof.
  destruct d as [|[k s] d]; [congruence|]. intros _. simpl.
  destruct (bfill_axis1 d) as [|[? ?] ?]; discriminate.
Qed.

Lemma frame_select_present X cols :
  (forall col, In col cols -> has_column X col = true) ->
  exists sub,
    frame_select X cols = Ok sub /\
    Forall2 (fun col ks => dict_get col (frame_columns X) = Some (snd ks))
            cols (frame_columns sub).
Proof.
  unfold frame_select. induction cols as [|col cols IH]; intros Hcols; simpl.
  - eexists. split; [reflexivity|]. constructor.
  - assert (Hc := Hcols col (or_introl eq_refl)).
    unfold has_column, dict_mem, frame_getitem in *.
    destruct (dict_get col (frame_columns X)) as [s|] eqn:Es;
      [|discriminate]. simpl.
    destruct IH as (sub & Hsub & Hall).
    { intros c Hin. apply Hcols. now right. }
    destruct (result_map _ cols) as [cs|]; simpl in *; [|discriminate].
    injection Hsub as <-. eexists. split; [reflexivity|].
    simpl. constructor; auto.
Qed.

Lemma dict_mem_set {V} k (v : V) d k' :
  dict_mem k' d = true -> dict_mem k' (dict_set k v d) = true.
Proof.
  unfold dict_mem. destruct (string_dec k k') as [<-|Hne].
  - now rewrite dict_get_set_same.
  - now rewrite dict_get_set_other.
Qed.

Lemma existsb_eqb_In k ks :
  existsb (String.eqb k) ks = true <-> In k ks.
Proof.
  rewrite existsb_exists. split.
  - intros (x & Hx & E). apply String.eqb_eq in E. now subst.
  - intros H. exists k. split; auto. apply String.eqb_refl.
Qed.

Lemma has_column_dropped X cols col :
  In col cols ->
  has_column (mkFrame (frame_index X) (dict_del cols (frame_columns X))) col
  = false.
Proof.
  intros Hin. unfold has_column, dict_mem. simpl. rewrite dict_get_del.
  apply existsb_eqb_In in Hin. now rewrite Hin.
Qed.

Lemma rows_of_selection X cols (d : dict Series) i cells :
  Forall2 (fun col ks => dict_get col (frame_columns X) = Some (snd ks))
          cols d ->
  Forall2 (fun col c => cell_at X col i = Some c) cols cells ->
  Forall2 (fun ks c => nth_error (snd ks) i = Some c) d cells.
Proof.
  intros Hsel. revert cells.
  induction Hsel as [|col ks cols d Hget _ IH]; intros cells Hrow;
    inversion Hrow as [|? c ? cells' Hc Hrest]; subst; constructor; auto.
  unfold cell_at in Hc. now rewrite Hget in Hc.
Qed.

Lemma first_non_missing_all_missing cells :
  Forall (fun c => isna c = true) cells -> first_non_missing cells = Missing.
Proof.
  induction 1 as [|c cells Hc _ IH]; simpl; auto. now rewrite Hc.
Qed.

(** C4, as stated, fails on two kinds of lists of present columns: the
    empty list makes [transform] raise [IndexError]; a list that names a
    column called [MainArea] makes it return a table without [MainArea]. *)
Lemma C4_counterexample :
  call (returned (AreaFeatureSelector.transform (AreaFeatureSelector.__init__ [])))
       Sample.areas
  = Raise IndexError /\
  call (returned (AreaFeatureSelector.transform
                    (AreaFeatureSelector.__init__ ["MainArea"; "TotalArea"])))
       Sample.areas_main
  = Ok Sample.prices_only /\
  has_column Sample.areas_main "MainArea" = true /\
  has_column Sample.areas_main "TotalArea" = true /\
  cell_at Sample.prices_only "MainArea" 0 = None.
Proof. repeat split; reflexivity. Qed.

(** C4, amended.  For every table and every non-empty list of area columns
    present in it, none of them called [MainArea], [transform] returns a
    table in which [MainArea] holds, in each row, the first non-missing
    value of the listed columns read in their listed order, and missing
    when they are all missing in that row; none of the listed columns is a
    column of the returned table. *)
Theorem C4_main_area_is_first_non_missing self X :
  AreaFeatureSelector.area_columns self <> [] ->
  (forall col, In col (AreaFeatureSelector.area_columns self) ->
               has_column X col = true) ->
  ~ In "MainArea" (AreaFeatureSelector.area_columns self) ->
  exists X',
    call (returned (AreaFeatureSelector.transform self)) X = Ok X' /\
    (forall i cells,
       Forall2 (fun col c => cell_at X col i = Some c)
               (AreaFeatureSelector.area_columns self) cells ->
       cell_at X' "MainArea" i = Some (first_non_missing cells) /\
       (Forall (fun c => isna c = true) cells ->
        cell_at X' "MainArea" i = Some Missing)) /\
    (forall col, In col (AreaFeatureSelector.area_columns self) ->
                 has_column X' col = false).
Proof.
  intros Hne Hcols Hmain.
  rewrite (call_returned _ _ X (area_runs_as self)). unfold area_value.
  set (cols := AreaFeatureSelector.area_columns self) in *.
  destruct (frame_select_present X cols Hcols) as (sub & -> & Hsel). simpl.
  destruct (bfill_axis1 (frame_columns sub)) as [|[k main] rest] eqn:Eb.
  { exfalso. apply (bfill_axis1_nonempty (frame_columns sub)); auto.
    intros E. rewrite E in Hsel. inversion Hsel. congruence. }
  unfold frame_iloc_col0. simpl.
  unfold frame_drop. simpl.
  replace (forallb _ cols) with true.
  2:{ symmetry. apply forallb_forall. intros c Hc.
      apply dict_mem_set. now apply Hcols. }
  eexists. split; [reflexivity|]. split.
  - intros i cells Hrow.
    assert (Hcell : cell_at
              {| frame_index := frame_index X;
                 frame_columns :=
                   dict_del cols (dict_set "MainArea" main (frame_columns X)) |}
              "MainArea" i = Some (first_non_missing cells)).
    { unfold cell_at. simpl. rewrite dict_get_del.
      destruct (existsb (String.eqb "MainArea") cols) eqn:Ex.
      - apply existsb_eqb_In in Ex. contradiction.
      - rewrite dict_get_set_same.
        apply (bfill_axis1_head_row (frame_columns sub) i cells k main rest);
          auto.
        now apply (rows_of_selection X cols). }
    split; auto. intros Hall.
    now rewrite Hcell, first_non_missing_all_missing.
  - intros col Hcol.
    apply (has_column_dropped (frame_setitem X "MainArea" main) cols col Hcol).
Qed.

Lemma C4_witness :
  exists X',
    call (returned (AreaFeatureSelector.transform
                      (AreaFeatureSelector.__init__ ["LivingArea"; "TotalArea"])))
         Sample.areas = Ok X' /\
    (forall i cells,
       Forall2 (fun col c => cell_at Sample.areas col i = Some c)
               ["LivingArea"; "TotalArea"] cells ->
       cell_at X' "MainArea" i = Some (first_non_missing cells) /\
       (Forall (fun c => isna c = true) cells ->
        cell_at X' "MainArea" i = Some Missing)) /\
    (forall col, In col ["LivingArea"; "TotalArea"] ->
                 has_column X' col = false).
Proof.
  apply (C4_main_area_is_first_non_missing
           (AreaFeatureSelector.__init__ ["LivingArea"; "TotalArea"]) Sample.areas).
  - discriminate.
  - intros col [<-|[<-|[]]]; reflexivity.
  - simpl. intros [H|[H|[]]]; discriminate.
Defined.

(** The sample, evaluated: row 0 takes [TotalArea], row 1 [LivingArea],
    row 2 has neither. *)
Example area_unifier_on_sample :
  call (returned (AreaFeatureSelector.transform
                    (AreaFeatureSelector.__init__ ["LivingArea"; "TotalArea"])))
       Sample.areas
  = Ok Sample.areas_unified.
Proof. reflexivity. Qed.

(** ** C8: [DateFeatureExtractor.transform] *)









(** The sample, evaluated: a date, a string that is no date, a missing
    cell. *)
Example date_extractor_on_sample :
  call (returned (@DateFeatureExtractor.transform Sample.iso_parser
                    (DateFeatureExtractor.__init__ "PublishDate" "Publish")))
       Sample.listings
  = Ok Sample.listings_dated.
Proof. reflexivity. Qed.

(** ** Clipping *)

Lemma Qle_bool_false a b : Qle_bool a b = false -> (b < a)%Q.
Proof.
  intros H. apply Qnot_le_lt. intros Hle.
  apply Qle_bool_iff in Hle. congruence.
Qed.

Ltac q_cases :=
  repeat match goal with
         | H : Qle_bool _ _ = true |- _ => apply Qle_bool_iff in H
         | H : Qle_bool _ _ = false |- _ => apply Qle_bool_false in H
         | |- context [Qle_bool ?a ?b] => destruct (Qle_bool a b) eqn:?
         | H : context [Qle_bool ?a ?b] |- _ => destruct (Qle_bool a b) eqn:?
         end.

(** Two passes over a column complete exactly when the single pass that
    chains them on each cell does, with the same cells. *)
Lemma result_map_compose {A B C} (f : A -> result B) (g : B -> result C) l l' :
  result_bind (result_map f l) (result_map g) = Ok l' <->
  result_map (fun a => result_bind (f a) g) l = Ok l'.
Proof.
  revert l'. induction l as [|a l IH]; intros l'; simpl; [tauto|].
  destruct (f a) as [b|e]; simpl; [|split; discriminate].
  destruct (g b) as [c|e] eqn:Eg; simpl.
  2:{ split; [|discriminate].
      destruct (result_map f l); simpl; [rewrite Eg|]; discriminate. }
  destruct (result_map f l) as [bs|e]; simpl in *; rewrite ?Eg; simpl.
  - destruct (result_map g bs) as [cs|e];
      destruct (result_map _ l) as [cs'|e']; simpl.
    + destruct (IH cs) as [IH1 _]. specialize (IH1 eq_refl).
      injection IH1 as ->. tauto.
    + destruct (IH cs) as [IH1 _]. specialize (IH1 eq_refl). discriminate.
    + destruct (IH cs') as [_ IH2]. specialize (IH2 eq_refl). discriminate.
    + split; discriminate.
  - destruct (result_map _ l) as [cs'|e']; simpl; [|split; discriminate].
    destruct (IH cs') as [_ IH2]. specialize (IH2 eq_refl). discriminate.
Qed.

Lemma clip_cells s lower upper s' :
  clip s lower upper = Ok s' <->
  result_map (clip_cell lower upper) s = Ok s'.
Proof.
  unfold clip, clip_cell. destruct (clip_bounds lower upper) as [lo hi].
  apply result_map_compose.
Qed.

Lemma result_map_nth {A B} (f : A -> result B) l l' i a :
  result_map f l = Ok l' -> nth_error l i = Some a ->
  exists b, f a = Ok b /\ nth_error l' i = Some b.
Proof.
  revert l' i. induction l as [|a0 l IH]; intros l' i; simpl.
  - intros _. now destruct i.
  - destruct (f a0) as [b0|] eqn:E; simpl; [|discriminate].
    destruct (result_map f l) as [bs|]; simpl; [|discriminate].
    intros [= <-]. destruct i as [|i]; simpl.
    + intros [= <-]. eauto.
    + intros Hi. apply (IH bs i eq_refl Hi).
Qed.

Lemma result_map_fixed {A} (f : A -> result A) l :
  (forall a, In a l -> f a = Ok a) -> result_map f l = Ok l.
Proof.
  induction l as [|a l IH]; intros Hf; simpl; auto.
  rewrite (Hf a (or_introl eq_refl)). simpl.
  rewrite IH; auto. intros b Hb. apply Hf. now right.
Qed.

Lemma result_map_total {A B} (f : A -> result B) l :
  (forall a, In a l -> exists b, f a = Ok b) ->
  exists l', result_map f l = Ok l'.
Proof.
  induction l as [|a l IH]; intros Hf; simpl; eauto.
  destruct (Hf a (or_introl eq_refl)) as (b & ->). simpl.
  destruct IH as (bs & ->).
  - intros x Hx. apply Hf. now right.
  - simpl. eauto.
Qed.

Ltac clip_cases :=
  unfold clip_cell, clip_bounds, clip_lower, clip_upper, result_bind,
    num_of_cell in *;
  repeat match goal with
         | H : Qle_bool _ _ = true |- _ => apply Qle_bool_iff in H
         | H : Qle_bool _ _ = false |- _ => apply Qle_bool_false in H
         | H : Ok _ = Ok _ |- _ => injection H as H; try subst
         | H : Some _ = Some _ |- _ => injection H as H; try subst
         | H : Raise _ = Ok _ |- _ => discriminate H
         | H : None = Some _ |- _ => discriminate H
         | H : Some _ = None |- _ => discriminate H
         | |- context [Qle_bool ?a ?b] => destruct (Qle_bool a b) eqn:?
         | H : context [Qle_bool ?a ?b] |- _ => destruct (Qle_bool a b) eqn:?
         end.

Lemma clip_cell_missing lower upper :
  clip_cell lower upper Missing = Ok Missing.
Proof. destruct lower, upper; clip_cases; reflexivity. Qed.

Lemma clip_cell_isna lower upper c c' :
  clip_cell lower upper c = Ok c' -> isna c' = isna c.
Proof.
  intros H. destruct lower, upper, c; clip_cases; reflexivity.
Qed.

(** A number is clipped to a number between the bounds that are set, and
    left as it is when it is already there. *)
Lemma clip_cell_number lower upper c x :
  num_of_cell c = Some x ->
  exists c' x',
    clip_cell lower upper c = Ok c' /\ num_of_cell c' = Some x' /\
    (forall lo hi, lower = Some lo -> upper = Some hi -> (lo <= hi)%Q ->
                   (lo <= x')%Q /\ (x' <= hi)%Q) /\
    (forall lo hi, lower = Some lo -> upper = Some hi -> (hi <= lo)%Q ->
                   (hi <= x')%Q /\ (x' <= lo)%Q) /\
    ((forall lo, lower = Some lo -> (lo <= x)%Q) ->
     (forall hi, upper = Some hi -> (x <= hi)%Q) ->
     c' = c).
Proof.
  intros Hx.
  assert (Hlow : forall lo : Q, (forall l, Some lo = Some l -> (l <= x)%Q) ->
                                (lo <= x)%Q) by (intros lo H; now apply H).
  destruct lower as [lo|], upper as [hi|], c; clip_cases;
    eexists; eexists; (split; [reflexivity|]); (split; [reflexivity|]);
    repeat split; intros; clip_cases;
    repeat match goal with
           | H : forall l : Q, Some ?a = Some l -> _ |- _ =>
               specialize (H a eq_refl)
           | H : forall l : Q, None = Some l -> _ |- _ => clear H
           end;
    try reflexivity; try lra.
Qed.

Lemma clip_cell_stable lower upper c c' :
  clip_cell lower upper c = Ok c' -> clip_cell lower upper c' = Ok c'.
Proof.
  intros H.
  destruct lower as [lo|], upper as [hi|], c; clip_cases;
    try reflexivity; try lra.
Qed.

Lemma clip_stable s lower upper s' :
  clip s lower upper = Ok s' -> clip s' lower upper = Ok s'.
Proof.
  intros H. apply clip_cells in H. apply clip_cells.
  apply result_map_fixed. intros c' Hc'.
  destruct (result_map_In _ _ _ _ H Hc') as (c & _ & Hc).
  now apply clip_cell_stable in Hc.
Qed.

Lemma clip_item_stable l : stable_rewrite clip_item l.
Proof. intros a s s' _. apply clip_stable. Qed.

Lemma NoDup_fst_eq {V} (d : dict V) a b :
  NoDup (map fst d) -> In a d -> In b d -> fst a = fst b -> a = b.
Proof.
  intros Hnd Ha Hb Hk. destruct a as [k va], b as [k' vb]. simpl in Hk.
  subst k'. f_equal.
  apply (dict_get_NoDup _ k va d Hnd) in Ha.
  apply (dict_get_NoDup _ k vb d Hnd) in Hb. congruence.
Qed.

Lemma clip_item_coherent d :
  NoDup (map fst d) ->
  coherent_rewrite (fst : string * (scalar * scalar) -> string) clip_item d.
Proof.
  intros Hnd a b s Ha Hb Hk. now rewrite (NoDup_fst_eq d a b Hnd Ha Hb Hk).
Qed.

Lemma numeric_column_cell s c :
  numeric_column s = true -> In c s ->
  c = Missing \/ exists x, num_of_cell c = Some x.
Proof.
  unfold numeric_column, is_number. intros Hs Hc.
  rewrite forallb_forall in Hs. specialize (Hs c Hc).
  destruct c; simpl in *; eauto; discriminate.
Qed.

(** Clipping a column of numbers and missing cells cannot fail, and gives
    such a column. *)
Lemma clip_numeric s lower upper :
  numeric_column s = true ->
  exists s', clip s lower upper = Ok s' /\ numeric_column s' = true.
Proof.
  intros Hs.
  destruct (result_map_total (clip_cell lower upper) s) as (s' & Hs').
  { intros c Hc.
    destruct (numeric_column_cell s c Hs Hc) as [->|(x & Hx)].
    - rewrite clip_cell_missing. eauto.
    - destruct (clip_cell_number lower upper c x Hx) as (c' & _ & -> & _).
      eauto. }
  exists s'. split; [now apply clip_cells|].
  unfold numeric_column. apply forallb_forall. intros c' Hc'.
  destruct (result_map_In _ _ _ _ Hs' Hc') as (c & Hc & Hcc).
  destruct (numeric_column_cell s c Hs Hc) as [->|(x & Hx)].
  - rewrite clip_cell_missing in Hcc. now injection Hcc as <-.
  - destruct (clip_cell_number lower upper c x Hx)
      as (c1 & x1 & Hc1 & Hx1 & _).
    assert (c1 = c') by congruence. subst c1.
    unfold is_number. rewrite Hx1. apply orb_true_r.
Qed.

(** ** Quantiles *)

Lemma insert_sorted_In x l y :
  In y (insert_sorted x l) <-> y = x \/ In y l.
Proof.
  induction l as [|z l IH]; simpl.
  - intuition.
  - destruct (Qle_bool x z); simpl; [|rewrite IH]; intuition.
Qed.

Lemma insert_sorted_length x l :
  List.length (insert_sorted x l) = S (List.length l).
Proof.
  induction l as [|z l IH]; simpl; auto.
  destruct (Qle_bool x z); simpl; auto.
Qed.


Lemma insert_sorted_sorted x l :
  StronglySorted Qle l -> StronglySorted Qle (insert_sorted x l).
Proof.
  induction 1 as [|z l Hl IH Hz]; simpl.
  - constructor; constructor.
  - destruct (Qle_bool x z) eqn:E.
    + apply Qle_bool_iff in E. constructor.
      * now constructor.
      * constructor; auto.
        apply Forall_forall. intros y Hy.
        rewrite Forall_forall in Hz. specialize (Hz y Hy). lra.
    + apply Qle_bool_false in E. constructor; auto.
      apply Forall_forall. intros y Hy. apply insert_sorted_In in Hy.
      destruct Hy as [->|Hy]; [lra|].
      rewrite Forall_forall in Hz. now apply Hz.
Qed.

Lemma sort_values_sorted l : StronglySorted Qle (sort_values l).
Proof.
  induction l as [|x l IH]; simpl; [constructor|].
  now apply insert_sorted_sorted.
Qed.

Lemma sorted_nth l :
  StronglySorted Qle l ->
  forall i j, (i <= j)%nat -> (j < List.length l)%nat ->
              (nth i l 0 <= nth j l 0)%Q.
Proof.
  induction 1 as [|z l Hl IH Hz]; intros i j Hij Hj; simpl in *; [lia|].
  destruct i as [|i], j as [|j]; try lia.
  - apply Qle_refl.
  - rewrite Forall_forall in Hz. apply Hz. apply nth_In. lia.
  - apply IH; lia.
Qed.

Lemma lerp_between (a b g : Q) :
  (a <= b)%Q -> (0 <= g)%Q -> (g <= 1)%Q ->
  (a <= a + g * (b - a))%Q /\ (a + g * (b - a) <= b)%Q.
Proof. intros. split; nra. Qed.

Lemma lerp_mono (a b g1 g2 : Q) :
  (a <= b)%Q -> (g1 <= g2)%Q ->
  (a + g1 * (b - a) <= a + g2 * (b - a))%Q.
Proof. intros. nra. Qed.

(** The position [q * (n - 1)] and its integer part, for [0 <= q <= 1]. *)
Lemma position_bounds (N : nat) (q : Q) :
  (0 <= q)%Q -> (q <= 1)%Q ->
  let h := (q * inject_Z (Z.of_nat N))%Q in
  (0 <= Qfloor h)%Z /\ (Qfloor h <= Z.of_nat N)%Z /\
  (0 <= h - inject_Z (Qfloor h))%Q /\ (h - inject_Z (Qfloor h) <= 1)%Q.
Proof.
  intros H0 H1 h.
  assert (HN : (0 <= inject_Z (Z.of_nat N))%Q).
  { change 0%Q with (inject_Z 0). rewrite <- Zle_Qle. lia. }
  assert (Hh0 : (0 <= h)%Q) by (unfold h; nra).
  assert (HhN : (h <= inject_Z (Z.of_nat N))%Q) by (unfold h; nra).
  repeat split.
  - change 0%Z with (Qfloor (inject_Z 0)). now apply Qfloor_resp_le.
  - rewrite <- (Qfloor_Z (Z.of_nat N)). now apply Qfloor_resp_le.
  - pose proof (Qfloor_le h). lra.
  - pose proof (Qlt_floor h) as Hlt. rewrite inject_Z_plus in Hlt.
    change (inject_Z 1) with 1%Q in Hlt. lra.
Qed.

(** On a sorted sample the interpolated order statistic grows with [q]. *)
Lemma interpolate_mono xs q1 q2 :
  StronglySorted Qle xs -> xs <> [] ->
  (0 <= q1)%Q -> (q1 <= q2)%Q -> (q2 <= 1)%Q ->
  (interpolate xs q1 <= interpolate xs q2)%Q.
Proof.
  intros Hs Hne H0 H12 H1. unfold interpolate.
  assert (Hn : (0 < List.length xs)%nat)
    by (destruct xs; simpl; [congruence|lia]).
  set (N := (List.length xs - 1)%nat).
  assert (HN : (0 <= inject_Z (Z.of_nat N))%Q).
  { change 0%Q with (inject_Z 0). rewrite <- Zle_Qle. lia. }
  destruct (position_bounds N q1) as (Hf1 & Hf1N & Hg1 & Hg1'); try lra.
  destruct (position_bounds N q2) as (Hf2 & Hf2N & Hg2 & Hg2'); try lra.
  cbv zeta in *.
  set (h1 := (q1 * inject_Z (Z.of_nat N))%Q) in *.
  set (h2 := (q2 * inject_Z (Z.of_nat N))%Q) in *.
  assert (Hh : (h1 <= h2)%Q) by (unfold h1, h2; nra).
  assert (Hf : (Qfloor h1 <= Qfloor h2)%Z) by now apply Qfloor_resp_le.
  set (i1 := Z.to_nat (Qfloor h1)). set (i2 := Z.to_nat (Qfloor h2)).
  assert (Hi1 : (i1 <= N)%nat) by (unfold i1; lia).
  assert (Hi2 : (i2 <= N)%nat) by (unfold i2; lia).
  assert (Hab1 : (nth i1 xs 0 <= nth (Nat.min (i1 + 1) N) xs 0)%Q)
    by (apply sorted_nth; auto; unfold N in *; lia).
  assert (Hab2 : (nth i2 xs 0 <= nth (Nat.min (i2 + 1) N) xs 0)%Q)
    by (apply sorted_nth; auto; unfold N in *; lia).
  destruct (Z.eq_dec (Qfloor h1) (Qfloor h2)) as [E|E].
  - assert (Ei : i1 = i2) by (unfold i1, i2; now rewrite E).
    rewrite <- Ei, <- E. apply lerp_mono; auto. lra.
  - assert (Hlt : (i1 + 1 <= i2)%nat) by (unfold i1, i2; lia).
    destruct (lerp_between _ _ _ Hab1 Hg1 Hg1') as [_ Hup].
    destruct (lerp_between _ _ _ Hab2 Hg2 Hg2') as [Hlow _].
    assert (Hmid : (nth (Nat.min (i1 + 1) N) xs 0 <= nth i2 xs 0)%Q)
      by (apply sorted_nth; auto; unfold N in *; lia).
    lra.
Qed.

Lemma quantile_in_range s q v :
  quantile s q = Ok v -> (0 <= q)%Q /\ (q <= 1)%Q.
Proof.
  unfold quantile, in_unit_interval.
  destruct (Qle_bool 0 q) eqn:E0; simpl; [|discriminate].
  destruct (Qle_bool q 1) eqn:E1; simpl; [|discriminate].
  intros _. split; now apply Qle_bool_iff.
Qed.

(** The two bounds that [fit] computes for a column are ordered as the two
    fractions are. *)
Lemma quantile_ordered s q1 q2 lo hi :
  (q1 <= q2)%Q ->
  quantile s q1 = Ok (Some lo) -> quantile s q2 = Ok (Some hi) ->
  (lo <= hi)%Q.
Proof.
  intros H12 Hq1 Hq2.
  destruct (quantile_in_range _ _ _ Hq1) as [H0 _].
  destruct (quantile_in_range _ _ _ Hq2) as [_ H1].
  unfold quantile in Hq1, Hq2.
  destruct (in_unit_interval q1); [|discriminate].
  destruct (in_unit_interval q2); [|discriminate].
  destruct (numeric_values s) as [xs|]; simpl in *; [|discriminate].
  destruct xs as [|x xs]; [discriminate|].
  injection Hq1 as <-. injection Hq2 as <-.
  apply interpolate_mono; auto.
  - exact (sort_values_sorted (x :: xs)).
  - intros E. apply (f_equal (@List.length Q)) in E.
    rewrite insert_sorted_length in E. discriminate.
Qed.

Lemma numeric_values_total s :
  numeric_column s = true -> exists xs, numeric_values s = Ok xs.
Proof.
  intros Hs. unfold numeric_values. apply result_map_total.
  intros c Hc. apply filter_In in Hc. destruct Hc as [Hc Hna].
  destruct (numeric_column_cell s c Hs Hc) as [->|(x & ->)]; eauto.
  discriminate.
Qed.

Lemma numeric_values_nonempty s c xs :
  In c s -> isna c = false -> numeric_values s = Ok xs -> xs <> [].
Proof.
  intros Hc Hna Hxs E. subst xs. unfold numeric_values in Hxs.
  apply result_map_length in Hxs.
  assert (Hin : In c (filter (fun c => negb (isna c)) s))
    by (apply filter_In; now rewrite Hna).
  destruct (filter _ s); [easy|discriminate].
Qed.

(** [quantile] on a column of numbers: [ValueError] for a fraction outside
    [[0, 1]], otherwise a value, which is a number as soon as the column
    has a cell. *)
Lemma quantile_numeric s q :
  numeric_column s = true ->
  if in_unit_interval q
  then exists v, quantile s q = Ok v /\
                 (forall c, In c s -> isna c = false -> v <> None)
  else quantile s q = Raise ValueError.
Proof.
  intros Hs. unfold quantile.
  destruct (in_unit_interval q); auto.
  destruct (numeric_values_total s Hs) as (xs & Hxs). rewrite Hxs. simpl.
  destruct xs as [|x xs].
  - eexists. split; [reflexivity|]. intros c Hc Hna.
    now destruct (numeric_values_nonempty s c [] Hc Hna Hxs).
  - eexists. split; [reflexivity|]. discriminate.
Qed.

(** ** What [OutlierClipper.fit] stores *)

Lemma clipper_fit_spec self0 X0 self :
  call (OutlierClipper.fit self0) X0 = Ok self ->
  OutlierClipper.columns self = OutlierClipper.columns self0 /\
  (forall col, In col (OutlierClipper.columns self0) ->
     exists s lower upper,
       dict_get col (frame_columns X0) = Some s /\
       quantile s (OutlierClipper.lower_quantile self0) = Ok lower /\
       quantile s (OutlierClipper.upper_quantile self0) = Ok upper /\
       dict_get col (OutlierClipper.bounds_ self) = Some (lower, upper)) /\
  (NoDup (map fst (OutlierClipper.bounds_ self0)) ->
   NoDup (map fst (OutlierClipper.bounds_ self))) /\
  (forall k, In k (map fst (OutlierClipper.bounds_ self)) <->
             In k (OutlierClipper.columns self0) \/
             In k (map fst (OutlierClipper.bounds_ self0))).
Proof.
  rewrite call_clipper_fit. unfold clipper_fit_value.
  destruct (fold_result _ _ _) as [bounds|] eqn:E; simpl; [|discriminate].
  intros [= <-]. simpl. split; auto.
  apply (fold_fill_spec _
           (fun col =>
              result_bind (frame_getitem X0 col) (fun s =>
              result_bind (quantile s (OutlierClipper.lower_quantile self0))
                (fun lower =>
              result_bind (quantile s (OutlierClipper.upper_quantile self0))
                (fun upper => Ok (lower, upper)))))) in E.
  - destruct E as (Hin & _ & Hnd & Hkeys). split; [|split; auto].
    intros col Hcol. destruct (Hin col Hcol) as ([lower upper] & Hv & Hget).
    unfold frame_getitem in Hv.
    destruct (dict_get col (frame_columns X0)) as [s|]; simpl in Hv;
      [|discriminate].
    destruct (quantile s (OutlierClipper.lower_quantile self0)) as [l|] eqn:El;
      simpl in Hv; [|discriminate].
    destruct (quantile s (OutlierClipper.upper_quantile self0)) as [u|] eqn:Eu;
      simpl in Hv; [|discriminate].
    injection Hv as <- <-. exists s, l, u. auto.
  - intros acc a. destruct (frame_getitem X0 a) as [s|]; simpl; auto.
    destruct (quantile s _); simpl; auto.
    destruct (quantile s _); reflexivity.
Qed.

(** ** C7: quantile fractions that violate [0 <= lower < upper <= 1] *)

Lemma clipper_fit_body lq uq F (acc : dict (scalar * scalar)) col :
  result_bind (frame_getitem F col) (fun s =>
  result_bind (quantile s lq) (fun lower =>
  result_bind (quantile s uq) (fun upper =>
    Ok (dict_set col (lower, upper) acc)))) =
  result_bind (column_bounds lq uq F col) (fun v => Ok (dict_set col v acc)).
Proof.
  unfold column_bounds. destruct (frame_getitem F col) as [s|]; simpl; auto.
  destruct (quantile s lq); simpl; auto.
  destruct (quantile s uq); reflexivity.
Qed.

(** C7, as stated, fails: a clipper built with lower fraction 3/4 and upper
    fraction 1/4 is constructed and fitted without any error, and stores a
    lower bound above the upper bound. *)
Lemma C7_counterexample :
  exists self lo hi,
    call (OutlierClipper.fit (OutlierClipper.__init__ ["a"] (3 # 4) (1 # 4)))
         Sample.measures = Ok self /\
    OutlierClipper.bounds_ self = [("a", (Some lo, Some hi))] /\
    (lo == 41 # 8)%Q /\ (hi == 7 # 4)%Q /\ (hi < lo)%Q /\
    ~ ((0 <= 3 # 4)%Q /\ (3 # 4 < 1 # 4)%Q /\ (1 # 4 <= 1)%Q).
Proof.
  eexists. exists (82 # 16)%Q, (7 # 4)%Q.
  split; [reflexivity|]. split; [reflexivity|].
  split; [reflexivity|]. split; [reflexivity|]. split; [reflexivity|].
  intros (_ & H & _). lra.
Qed.

(** C7, amended.  Construction raises nothing.  On a table whose configured
    columns are present and hold numbers, [fit] raises [ValueError] when a
    column is configured and one of the two fractions lies outside
    [[0, 1]], and raises nothing otherwise: fractions inside [[0, 1]] are
    accepted whatever their order. *)
Theorem C7_fit_rejects_only_fractions_outside_unit_interval self X :
  (forall col, In col (OutlierClipper.columns self) ->
     exists s, dict_get col (frame_columns X) = Some s /\
               numeric_column s = true) ->
  (OutlierClipper.columns self <> [] ->
   (in_unit_interval (OutlierClipper.lower_quantile self) &&
    in_unit_interval (OutlierClipper.upper_quantile self))%bool = false ->
   call (OutlierClipper.fit self) X = Raise ValueError) /\
  ((in_unit_interval (OutlierClipper.lower_quantile self) &&
    in_unit_interval (OutlierClipper.upper_quantile self))%bool = true ->
   exists self', call (OutlierClipper.fit self) X = Ok self') /\
  (OutlierClipper.columns self = [] ->
   exists self', call (OutlierClipper.fit self) X = Ok self').
Proof.
  intros Hcols. rewrite call_clipper_fit. unfold clipper_fit_value.
  set (lq := OutlierClipper.lower_quantile self).
  set (uq := OutlierClipper.upper_quantile self).
  split; [|split].
  - intros Hne Hout.
    destruct (OutlierClipper.columns self) as [|col cols] eqn:Ec;
      [congruence|].
    rewrite (fold_fill_first_error _ (column_bounds lq uq X) _
               (clipper_fit_body lq uq X) col cols ValueError); auto.
    destruct (Hcols col (or_introl eq_refl)) as (s & Hs & Hnum).
    unfold column_bounds, frame_getitem. rewrite Hs. simpl.
    pose proof (quantile_numeric s lq Hnum) as Hl.
    pose proof (quantile_numeric s uq Hnum) as Hu.
    destruct (in_unit_interval lq).
    + destruct Hl as (v & -> & _). simpl.
      destruct (in_unit_interval uq); [discriminate|]. now rewrite Hu.
    + now rewrite Hl.
  - intros Hin. apply andb_true_iff in Hin. destruct Hin as [Hl Hu].
    destruct (fold_fill_total _ (column_bounds lq uq X) _
                (clipper_fit_body lq uq X) (OutlierClipper.columns self))
      with (acc0 := OutlierClipper.bounds_ self) as (acc & ->).
    + intros col Hcol. destruct (Hcols col Hcol) as (s & Hs & Hnum).
      unfold column_bounds, frame_getitem. rewrite Hs. simpl.
      pose proof (quantile_numeric s lq Hnum) as Hql.
      pose proof (quantile_numeric s uq Hnum) as Hqu.
      rewrite Hl in Hql. rewrite Hu in Hqu.
      destruct Hql as (l & -> & _). destruct Hqu as (u & -> & _).
      simpl. eauto.
    + simpl. eauto.
  - intros ->. simpl. eauto.
Qed.

(** A fraction outside [[0, 1]] is refused by [fit]; two fractions of
    [[0, 1]] in the wrong order are not. *)
Lemma C7_witness :
  call (OutlierClipper.fit (OutlierClipper.__init__ ["a"] (3 # 2) (1 # 4)))
       Sample.measures = Raise ValueError /\
  exists self',
    call (OutlierClipper.fit (OutlierClipper.__init__ ["a"] (3 # 4) (1 # 4)))
         Sample.measures = Ok self'.
Proof.
  split.
  - destruct (C7_fit_rejects_only_fractions_outside_unit_interval
                (OutlierClipper.__init__ ["a"] (3 # 2) (1 # 4)) Sample.measures)
      as (Hraise & _ & _).
    + intros col [<-|[]]. eexists. split; reflexivity.
    + apply Hraise; [discriminate|reflexivity].
  - destruct (C7_fit_rejects_only_fractions_outside_unit_interval
                (OutlierClipper.__init__ ["a"] (3 # 4) (1 # 4)) Sample.measures)
      as (_ & Hfit & _).
    + intros col [<-|[]]. eexists. split; reflexivity.
    + apply Hfit. reflexivity.
Defined.

(** ** C3: the range and the idempotence of clipping *)

Lemma quantile_of_values s q v c :
  quantile s q = Ok v -> In c s -> isna c = false -> v <> None.
Proof.
  unfold quantile. destruct (in_unit_interval q); [|discriminate].
  destruct (numeric_values s) as [xs|] eqn:E; simpl; [|discriminate].
  intros Hv Hc Hna. destruct xs as [|x xs].
  - now destruct (numeric_values_nonempty s c [] Hc Hna E).
  - injection Hv as <-. discriminate.
Qed.

(** C3, as stated, fails in two ways.  With the default fractions, a
    clipper fitted on a column without any value stores NaN bounds and
    then clips nothing: the value 5 is returned as it is, within no
    interval.  With fractions in the wrong order the stored lower bound
    (41/8) exceeds the upper bound (7/4): the value 2 is returned as it
    is, and no value lies within [41/8, 7/4]. *)
Lemma C3_counterexample :
  call (OutlierClipper.fit (OutlierClipper.__init__ ["b"] (1 # 100) (99 # 100)))
       Sample.measures
  = Ok (Sample.clipper ["b"] (1 # 100) (99 # 100) [("b", (None, None))]) /\
  call (returned (OutlierClipper.transform
          (Sample.clipper ["b"] (1 # 100) (99 # 100) [("b", (None, None))])))
       Sample.readings
  = Ok Sample.readings /\
  cell_at Sample.readings "b" 0 = Some (Int 5) /\
  ~ within None None (Int 5) /\
  call (OutlierClipper.fit (OutlierClipper.__init__ ["a"] (3 # 4) (1 # 4)))
       Sample.measures
  = Ok (Sample.clipper ["a"] (3 # 4) (1 # 4)
          [("a", (Some (82 # 16), Some (7 # 4)))]) /\
  (exists Y',
     call (returned (OutlierClipper.transform
             (Sample.clipper ["a"] (3 # 4) (1 # 4)
                [("a", (Some (82 # 16), Some (7 # 4)))])))
          Sample.measures = Ok Y' /\
     cell_at Y' "a" 1 = Some (Int 2)) /\
  ~ within (Some (82 # 16)) (Some (7 # 4)) (Int 2).
Proof.
  split; [reflexivity|]. split; [reflexivity|]. split; [reflexivity|].
  split.
  { intros (lo & hi & x & H & _). discriminate. }
  split; [reflexivity|]. split.
  { eexists. split; reflexivity. }
  intros (lo & hi & x & [= <-] & [= <-] & [= <-] & H1 & H2).
  revert H1. unfold Qle. simpl. lia.
Qed.

(** C3, amended.  Take a clipper fitted after its construction and a table
    whose fitted columns are present and hold numbers or missing cells.
    Then [transform] returns a table with the index of its argument, and
    applied to that table it returns it again.  In each fitted column a
    missing cell stays missing and a number stays a number; a value within
    the stored bounds is returned unchanged; and when both stored bounds
    are numbers with lower <= upper, every non-missing transformed value
    lies within them.  The stored bounds are numbers as soon as the column
    had a value at fit time, and are ordered when
    [lower_quantile <= upper_quantile].  In the other cases: bounds stored
    in the wrong order clip the values into [[upper, lower]], and without
    bounds (the column had no value at fit time) nothing is clipped. *)
Theorem C3_clipping_range_and_idempotence
  (cols : list string) (lq uq : Q) (X0 : DataFrame)
  (self : OutlierClipper.t) (Y : DataFrame) :
  call (OutlierClipper.fit (OutlierClipper.__init__ cols lq uq)) X0 = Ok self ->
  (forall col, In col cols ->
     exists s, dict_get col (frame_columns Y) = Some s /\
               numeric_column s = true) ->
  exists Y',
    call (returned (OutlierClipper.transform self)) Y = Ok Y' /\
    frame_index Y' = frame_index Y /\
    call (returned (OutlierClipper.transform self)) Y' = Ok Y' /\
    forall col, In col cols ->
    exists lower upper,
      dict_get col (OutlierClipper.bounds_ self) = Some (lower, upper) /\
      ((lq <= uq)%Q ->
       forall lo hi, lower = Some lo -> upper = Some hi -> (lo <= hi)%Q) /\
      (forall s0 c, dict_get col (frame_columns X0) = Some s0 ->
                    In c s0 -> isna c = false ->
                    lower <> None /\ upper <> None) /\
      forall i c, cell_at Y col i = Some c ->
      exists c',
        cell_at Y' col i = Some c' /\
        isna c' = isna c /\
        (within lower upper c -> c' = c) /\
        (forall lo hi, lower = Some lo -> upper = Some hi -> (lo <= hi)%Q ->
                       isna c = false -> within lower upper c') /\
        (forall lo hi, lower = Some lo -> upper = Some hi -> (hi <= lo)%Q ->
                       isna c = false -> within upper lower c') /\
        (lower = None -> upper = None -> c' = c).
Proof.
  intros Hfit Hcols.
  destruct (clipper_fit_spec _ _ _ Hfit) as (_ & Hbounds & Hnd & Hkeys).
  simpl in Hbounds, Hnd, Hkeys. specialize (Hnd (NoDup_nil _)).
  rewrite (call_returned _ _ Y (clipper_runs_as self)). unfold clipper_value.
  set (step := fun item : string * (scalar * scalar) =>
                 rewrite_column (clip_item item) (fst item)).
  assert (Htot : fst (loop_frame step (OutlierClipper.bounds_ self) Y) = Ok tt).
  { apply (loop_rewrite_total _ fst clip_item
             (fun s => numeric_column s = true)).
    - intros a s _ Hs. apply clip_numeric, Hs.
    - intros a Ha. apply Hcols.
      assert (Hk : In (fst a) (map fst (OutlierClipper.bounds_ self)))
        by now apply in_map.
      apply Hkeys in Hk. tauto. }
  destruct (loop_frame step (OutlierClipper.bounds_ self) Y)
    as [res Y'] eqn:Hrun.
  simpl in Htot. subst res. exists Y'. split; [reflexivity|].
  split.
  { pose proof (loop_rewrite_index _ fst clip_item
                  (OutlierClipper.bounds_ self) Y) as Hidx.
    fold step in Hidx. now rewrite Hrun in Hidx. }
  split.
  { rewrite (call_returned _ _ Y' (clipper_runs_as self)).
    unfold clipper_value.
    rewrite (loop_rewrite_idempotent _ fst clip_item _ Y Y'
               (clip_item_stable _) (clip_item_coherent _ Hnd) Hrun).
    reflexivity. }
  intros col Hcol.
  destruct (Hbounds col Hcol) as (s0 & lower & upper & Hs0 & Hql & Hqu & Hget).
  exists lower, upper. split; auto. split.
  { intros Hle lo hi -> ->. eapply quantile_ordered; eauto. }
  split.
  { intros s0' c Hs0' Hc Hna. assert (s0' = s0) by congruence. subst s0'.
    split; eapply quantile_of_values; eauto. }
  intros i c Hc.
  destruct (loop_rewrite_spec _ fst clip_item _
              (clip_item_stable _) (clip_item_coherent _ Hnd)
              _ _ Hrun (col, (lower, upper)) (dict_get_In _ _ _ _ Hget))
    as (s & s' & Hs & Hclip & Hs').
  simpl in Hs, Hs', Hclip. unfold clip_item in Hclip. simpl in Hclip.
  apply clip_cells in Hclip.
  unfold cell_at in Hc. rewrite Hs in Hc.
  destruct (result_map_nth _ _ _ _ _ Hclip Hc) as (c' & Hcc & Hc').
  exists c'. unfold cell_at. rewrite Hs'. split; auto.
  split; [now apply clip_cell_isna in Hcc|].
  destruct (Hcols col Hcol) as (s1 & Hs1 & Hnum).
  assert (s1 = s) by congruence. subst s1.
  split; [|split; [|split]].
  - intros (lo & hi & x & -> & -> & Hx & Hlo & Hhi).
    destruct (clip_cell_number (Some lo) (Some hi) c x Hx)
      as (c1 & x1 & Hc1 & _ & _ & _ & Hsame).
    assert (c1 = c') by congruence. subst c1.
    apply Hsame; intros ? [= <-]; auto.
  - intros lo hi -> -> Hle Hna.
    destruct (numeric_column_cell s c Hnum (nth_error_In _ _ Hc))
      as [->|(x & Hx)]; [discriminate|].
    destruct (clip_cell_number (Some lo) (Some hi) c x Hx)
      as (c1 & x1 & Hc1 & Hx1 & Hin & _).
    assert (c1 = c') by congruence. subst c1.
    destruct (Hin lo hi eq_refl eq_refl Hle) as [H1 H2].
    exists lo, hi, x1. auto.
  - intros lo hi -> -> Hle Hna.
    destruct (numeric_column_cell s c Hnum (nth_error_In _ _ Hc))
      as [->|(x & Hx)]; [discriminate|].
    destruct (clip_cell_number (Some lo) (Some hi) c x Hx)
      as (c1 & x1 & Hc1 & Hx1 & _ & Hrev & _).
    assert (c1 = c') by congruence. subst c1.
    destruct (Hrev lo hi eq_refl eq_refl Hle) as [H1 H2].
    exists hi, lo, x1. auto.
  - intros -> ->.
    destruct (numeric_column_cell s c Hnum (nth_error_In _ _ Hc))
      as [->|(x & Hx)].
    + rewrite clip_cell_missing in Hcc. congruence.
    + destruct (clip_cell_number None None c x Hx)
        as (c1 & x1 & Hc1 & _ & _ & _ & Hsame).
      assert (c1 = c') by congruence. subst c1.
      apply Hsame; intros ?; discriminate.
Qed.

(** Fitted with fractions 1/4 and 3/4 on the sample, the clipper stores the
    bounds 7/4 and 41/8; the value 10 of row 4 is brought within them. *)
Lemma C3_witness :
  exists Y' c',
    call (returned (OutlierClipper.transform
            (Sample.clipper ["a"] (1 # 4) (3 # 4)
               [("a", (Some (7 # 4), Some (82 # 16)))])))
         Sample.measures = Ok Y' /\
    frame_index Y' = frame_index Sample.measures /\
    call (returned (OutlierClipper.transform
            (Sample.clipper ["a"] (1 # 4) (3 # 4)
               [("a", (Some (7 # 4), Some (82 # 16)))])))
         Y' = Ok Y' /\
    cell_at Y' "a" 4 = Some c' /\
    within (Some (7 # 4)) (Some (82 # 16)) c'.
Proof.
  destruct (C3_clipping_range_and_idempotence ["a"] (1 # 4) (3 # 4)
              Sample.measures
              (Sample.clipper ["a"] (1 # 4) (3 # 4)
                 [("a", (Some (7 # 4), Some (82 # 16)))])
              Sample.measures)
    as (Y' & Hrun & Hidx & Hidem & Hcol).
  - reflexivity.
  - intros col [<-|[]]. eexists. split; reflexivity.
  - destruct (Hcol "a" (or_introl eq_refl))
      as (lower & upper & Hget & _ & _ & Hcell).
    injection Hget as <- <-.
    destruct (Hcell 4%nat (Int 10) eq_refl) as (c' & Hc' & _ & _ & Hin & _).
    exists Y', c'. repeat split; auto.
    apply (Hin (7 # 4) (82 # 16) eq_refl eq_refl); [|reflexivity].
    unfold Qle. simpl. lia.
Defined.

(** * Properties beyond the claims *)

(** ** [ColumnDropper.transform] *)

Lemma dict_del_labels {V} ks (d : dict V) :
  map fst (dict_del ks d) = filter (fun c => negb (listed ks c)) (map fst d).
Proof.
  unfold dict_del, listed. induction d as [|[k v] d IH]; simpl; auto.
  destruct (existsb (String.eqb k) ks); simpl; now rewrite IH.
Qed.

Lemma dict_del_del {V} ks1 ks2 (d : dict V) :
  dict_del ks2 (dict_del ks1 d) = dict_del (ks1 ++ ks2) d.
Proof.
  unfold dict_del. induction d as [|[k v] d IH]; simpl; auto.
  rewrite existsb_app.
  destruct (existsb (String.eqb k) ks1); simpl; rewrite IH; auto.
Qed.

Lemma dict_get_labels {V} k (d : dict V) :
  In k (map fst d) -> dict_mem k d = true.
Proof.
  intros Hin. unfold dict_mem.
  destruct (dict_get k d) eqn:E; auto.
  apply dict_get_None in E. contradiction.
Qed.

Lemma dict_del_absent {V} ks (d : dict V) :
  (forall k, In k ks -> dict_mem k d = false) -> dict_del ks d = d.
Proof.
  intros Habs. unfold dict_del.
  assert (Hall : forall kv, In kv d ->
            negb (existsb (String.eqb (fst kv)) ks) = true).
  { intros [k v] Hin. simpl.
    destruct (existsb (String.eqb k) ks) eqn:E; auto.
    apply existsb_eqb_In in E. apply Habs in E.
    rewrite dict_get_labels in E; [discriminate|].
    change k with (fst (k, v)). now apply in_map. }
  clear Habs. induction d as [|kv d IH]; simpl; auto.
  rewrite (Hall kv (or_introl eq_refl)). f_equal.
  apply IH. intros x Hx. apply Hall. now right.
Qed.

Lemma call_dropper self X :
  call (returned (ColumnDropper.transform self)) X =
  Ok (mkFrame (frame_index X)
        (dict_del (ColumnDropper.columns self) (frame_columns X))).
Proof. now rewrite (call_returned _ _ X (dropper_runs_as self)). Qed.

(** X1.  [ColumnDropper.transform] never raises, whatever the labels: it
    returns a table with the same index whose columns are the columns of
    the argument that are not listed, in their order and with their
    cells. *)
Theorem dropper_keeps_the_unlisted_columns self X :
  exists X',
    call (returned (ColumnDropper.transform self)) X = Ok X' /\
    frame_index X' = frame_index X /\
    labels X' =
    filter (fun c => negb (listed (ColumnDropper.columns self) c)) (labels X) /\
    (forall col, In col (ColumnDropper.columns self) ->
                 has_column X' col = false) /\
    (forall col, ~ In col (ColumnDropper.columns self) ->
                 dict_get col (frame_columns X') =
                 dict_get col (frame_columns X)).
Proof.
  eexists. split; [apply call_dropper|]. simpl. split; auto. split.
  - apply dict_del_labels.
  - split.
    + intros col Hcol. now apply (has_column_dropped X).
    + intros col Hcol. rewrite dict_get_del.
      destruct (existsb (String.eqb col) (ColumnDropper.columns self)) eqn:E;
        auto.
      apply existsb_eqb_In in E. contradiction.
Qed.

(** X2.  Dropping one list of columns and then another is dropping the two
    lists at once; in particular dropping the same list twice is dropping
    it once. *)
Theorem dropper_composes (cols1 cols2 : list string) (X : DataFrame) :
  result_bind
    (call (returned (ColumnDropper.transform (ColumnDropper.__init__ cols1))) X)
    (call (returned (ColumnDropper.transform (ColumnDropper.__init__ cols2))))
  = call (returned (ColumnDropper.transform
                      (ColumnDropper.__init__ (cols1 ++ cols2)))) X
  /\
  result_bind
    (call (returned (ColumnDropper.transform (ColumnDropper.__init__ cols1))) X)
    (call (returned (ColumnDropper.transform (ColumnDropper.__init__ cols1))))
  = call (returned (ColumnDropper.transform (ColumnDropper.__init__ cols1))) X.
Proof.
  rewrite !call_dropper. simpl. rewrite !call_dropper. simpl.
  rewrite !dict_del_del. split; auto.
  f_equal. f_equal. unfold dict_del. apply filter_ext. intros [k v]. simpl.
  rewrite existsb_app. now destruct (existsb (String.eqb k) cols1).
Qed.

(** X3.  When none of the listed labels is a column of the table,
    [ColumnDropper.transform] returns a table equal to its argument. *)
Theorem dropper_ignores_absent_labels self X :
  (forall col, In col (ColumnDropper.columns self) ->
               has_column X col = false) ->
  call (returned (ColumnDropper.transform self)) X = Ok X.
Proof.
  intros Habs. rewrite call_dropper, dict_del_absent by exact Habs.
  now destruct X.
Qed.

Lemma dropper_ignores_absent_labels_witness :
  call (returned (ColumnDropper.transform
                    (ColumnDropper.__init__ ["Garden"; "Pool"])))
       Sample.areas = Ok Sample.areas.
Proof.
  apply (dropper_ignores_absent_labels
           (ColumnDropper.__init__ ["Garden"; "Pool"]) Sample.areas).
  intros col [<- | [<- | []]]; reflexivity.
Defined.

(** ** A column that the unit reads is not in the table *)

Lemma result_map_error {A B} (f : A -> result B) l e :
  result_map f l = Raise e -> exists a, In a l /\ f a = Raise e.
Proof.
  induction l as [|a l IH]; simpl; [discriminate|].
  destruct (f a) as [b|e0] eqn:E; simpl.
  - destruct (result_map f l) as [bs|e1]; simpl; [discriminate|].
    intros [= <-]. destruct (IH eq_refl) as (a' & Ha' & Hf). eauto.
  - intros [= <-]. eauto.
Qed.

Lemma clip_error s lower upper e :
  clip s lower upper = Raise e -> e = TypeError.
Proof.
  unfold clip. destruct (clip_bounds lower upper) as [lo hi].
  destruct (result_map (clip_lower lo) s) as [s1|e1] eqn:E1; simpl.
  - intros E2. apply result_map_error in E2. destruct E2 as (c & _ & Hc).
    unfold clip_upper in Hc.
    destruct hi, c; try discriminate;
      destruct (num_of_cell _); congruence.
  - intros [= <-]. apply result_map_error in E1.
    destruct E1 as (c & _ & Hc). unfold clip_lower in Hc.
    destruct lo, c; try discriminate;
      destruct (num_of_cell _); congruence.
Qed.

Lemma frame_select_absent X cols col :
  In col cols -> dict_get col (frame_columns X) = None ->
  frame_select X cols = Raise KeyError.
Proof.
  intros Hin Habs. unfold frame_select.
  destruct (result_map _ cols) as [cs|e] eqn:E; simpl.
  - exfalso. revert cs E. induction cols as [|c cols IH]; intros cs; simpl.
    + destruct Hin.
    + unfold frame_getitem at 1.
      destruct (dict_get c (frame_columns X)) as [s|] eqn:Ec; simpl;
        [|discriminate].
      destruct (result_map _ cols) as [cs'|] eqn:E'; simpl; [|discriminate].
      intros _. destruct Hin as [-> | Hin]; [congruence|].
      now apply (IH Hin cs').
  - apply result_map_error in E. destruct E as (c & _ & Hc).
    unfold frame_getitem in Hc.
    destruct (dict_get c (frame_columns X)); simpl in Hc; congruence.
Qed.

(** A loop that rewrites columns stops with an exception when one of the
    columns it names is not in the frame. *)
Lemma loop_rewrite_absent {A} (key : A -> string)
  (g : A -> Series -> result Series) (P : exn -> Prop) l :
  P KeyError ->
  (forall a s e, In a l -> g a s = Raise e -> P e) ->
  forall F a,
    In a l -> dict_get (key a) (frame_columns F) = None ->
    exists e,
      fst (loop_frame (fun a => rewrite_column (g a) (key a)) l F) = Raise e /\
      P e.
Proof.
  intros HK. induction l as [|a0 l IH]; intros Hg F a Hin Habs; [easy|].
  simpl. unfold rewrite_column at 1, frame_getitem.
  destruct (dict_get (key a0) (frame_columns F)) as [s0|] eqn:E0; simpl;
    [|eauto].
  destruct (g a0 s0) as [s1|e] eqn:Eg; simpl.
  - destruct Hin as [-> | Hin]; [congruence|].
    apply (IH (fun x s e Hx => Hg x s e (or_intror Hx)) _ a Hin).
    simpl. rewrite dict_get_set_other; auto. congruence.
  - exists e. split; auto. apply (Hg a0 s0 e (or_introl eq_refl) Eg).
Qed.

Lemma outcome_raise L e : fst L = Raise e -> outcome L = Raise e.
Proof. unfold outcome. now intros ->. Qed.

(** X4.  When a column that a unit reads ([area_columns], [columns],
    [column], or a key of [bounds_]) is not in the table, [transform]
    returns no table: it raises [KeyError], except that the clipper may
    raise [TypeError] first, on a column of strings met before the absent
    one.  The dropper reads no column and is not concerned. *)
Theorem transform_raises_on_absent_column `{FloatRepr} `{DatetimeParser}
  (u : transformer) (F : DataFrame) (col : string) :
  In col (required_columns u) ->
  has_column F col = false ->
  exists e,
    call (returned (transform u)) F = Raise e /\
    (e = KeyError \/ (e = TypeError /\ exists c, u = Clipper c)).
Proof.
  intros Hin Habs.
  assert (Hnone : dict_get col (frame_columns F) = None).
  { unfold has_column, dict_mem in Habs.
    now destruct (dict_get col (frame_columns F)). }
  rewrite (call_returned _ _ F (transform_runs_as u)).
  destruct u as [u|u|u|u|u|u]; simpl in *.
  - exists KeyError. split; auto. unfold area_value.
    now rewrite (frame_select_absent F _ col Hin Hnone).
  - destruct (loop_rewrite_absent (fun c : string => c)
                (group_rare (RareCategoryGrouper.frequent_categories_ u))
                (fun e => e = KeyError) (RareCategoryGrouper.columns u)
                eq_refl) with (F := F) (a := col) as (e & He & ->); auto.
    + intros a s e _. unfold group_rare.
      destruct (dict_get a _); congruence.
    + exists KeyError. split; auto. now apply outcome_raise.
  - destruct (loop_rewrite_absent (fun c : string => c)
                (fun _ => normalize_flags)
                (fun e => e = KeyError) (BooleanNormalizer.columns u)
                eq_refl) with (F := F) (a := col) as (e & He & ->); auto.
    + intros a s e _. discriminate.
    + exists KeyError. split; auto. now apply outcome_raise.
  - destruct Hin as [<- | []]. exists KeyError. split; auto.
    unfold date_value, frame_getitem. now rewrite Hnone.
  - apply in_map_iff in Hin. destruct Hin as (item & Hk & Hitem).
    destruct (loop_rewrite_absent fst clip_item
                (fun e => e = KeyError \/ e = TypeError)
                (OutlierClipper.bounds_ u) (or_introl eq_refl))
      with (F := F) (a := item) as (e & He & HP); auto.
    + intros a s e _ Hc. right. now apply clip_error in Hc.
    + now rewrite Hk.
    + exists e. split; [now apply outcome_raise|].
      destruct HP as [-> | ->]; eauto.
  - destruct Hin.
Qed.

Lemma transform_raises_on_absent_column_witness :
  exists e,
    call (returned (@transform Sample.repr_one_decimal Sample.iso_parser
                      (Boolean (BooleanNormalizer.__init__ ["Garage"; "Lift"]))))
         Sample.flags = Raise e /\
    (e = KeyError \/
     (e = TypeError /\
      exists c, Boolean (BooleanNormalizer.__init__ ["Garage"; "Lift"])
                = Clipper c)).
Proof.
  apply (@transform_raises_on_absent_column
           Sample.repr_one_decimal Sample.iso_parser
           (Boolean (BooleanNormalizer.__init__ ["Garage"; "Lift"]))
           Sample.flags "Lift").
  - simpl. auto.
  - reflexivity.
Defined.

(** ** Applying a unit to its own output *)

(** X5.  [AreaFeatureSelector.transform] consumes its columns: whenever it
    returns a table, applying it to that table raises [KeyError]. *)
Theorem area_transform_not_repeatable self X X' :
  call (returned (AreaFeatureSelector.transform self)) X = Ok X' ->
  call (returned (AreaFeatureSelector.transform self)) X' = Raise KeyError.
Proof.
  rewrite !(call_returned _ _ _ (area_runs_as self)). unfold area_value.
  set (cols := AreaFeatureSelector.area_columns self).
  destruct (frame_select X cols) as [sub|] eqn:Es; simpl; [|discriminate].
  destruct (frame_iloc_col0 _) as [main|] eqn:Em; simpl; [|discriminate].
  intros Hd. apply frame_drop_inv in Hd.
  destruct cols as [|c cols'] eqn:Ec.
  - unfold frame_select in Es. simpl in Es. injection Es as <-.
    discriminate.
  - rewrite (frame_select_absent X' (c :: cols') c); auto; [now left|].
    subst X'. simpl. rewrite dict_get_del. simpl.
    now rewrite String.eqb_refl.
Qed.

Lemma area_transform_not_repeatable_witness :
  call (returned (AreaFeatureSelector.transform
                    (AreaFeatureSelector.__init__ ["LivingArea"; "TotalArea"])))
       Sample.areas_unified = Raise KeyError.
Proof.
  apply (area_transform_not_repeatable
           (AreaFeatureSelector.__init__ ["LivingArea"; "TotalArea"])
           Sample.areas Sample.areas_unified).
  reflexivity.
Defined.

(** X6.  [DateFeatureExtractor.transform] consumes its source column:
    whenever it returns a table, applying it to that table raises
    [KeyError]. *)
Theorem date_transform_not_repeatable `{DatetimeParser} self X X' :
  call (returned (DateFeatureExtractor.transform self)) X = Ok X' ->
  call (returned (DateFeatureExtractor.transform self)) X' = Raise KeyError.
Proof.
  rewrite !(call_returned _ _ _ (date_runs_as self)). unfold date_value.
  destruct (frame_getitem X _) as [s|]; simpl; [|discriminate].
  destruct (to_datetime s) as [dates|]; simpl; [|discriminate].
  intros Hd. apply frame_drop_inv in Hd. subst X'.
  unfold frame_getitem. simpl. rewrite dict_get_del. simpl.
  now rewrite String.eqb_refl.
Qed.

Lemma date_transform_not_repeatable_witness :
  call (returned (@DateFeatureExtractor.transform Sample.iso_parser
                    (DateFeatureExtractor.__init__ "PublishDate" "Publish")))
       Sample.listings_dated = Raise KeyError.
Proof.
  apply (@date_transform_not_repeatable Sample.iso_parser
           (DateFeatureExtractor.__init__ "PublishDate" "Publish")
           Sample.listings Sample.listings_dated).
  reflexivity.
Defined.

(** X7.  [RareCategoryGrouper.transform] is idempotent, fitted or not and
    whatever the retained lists hold: a table it returns is returned
    unchanged when it is applied again. *)
Theorem rare_transform_idempotent self Y Y' :
  call (returned (RareCategoryGrouper.transform self)) Y = Ok Y' ->
  call (returned (RareCategoryGrouper.transform self)) Y' = Ok Y'.
Proof.
  rewrite !(call_returned _ _ _ (rare_runs_as self)). unfold rare_value.
  intros Hout. apply outcome_inv in Hout.
  now rewrite (loop_rewrite_idempotent _ (fun c : string => c)
                 (group_rare (RareCategoryGrouper.frequent_categories_ self))
                 _ Y Y' (group_rare_stable _ _) (group_rare_coherent _ _)
                 Hout).
Qed.

Lemma rare_transform_idempotent_witness :
  call (returned (RareCategoryGrouper.transform
                    (Sample.grouper (2 # 10) [("City", [Str "A"; Str "B"])])))
       Sample.city_grouped = Ok Sample.city_grouped.
Proof.
  apply (rare_transform_idempotent
           (Sample.grouper (2 # 10) [("City", [Str "A"; Str "B"])])
           Sample.city_new Sample.city_grouped).
  reflexivity.
Defined.

(** ** The layout of the returned table *)

Lemma dict_mem_listed {V} k (d : dict V) : dict_mem k d = listed (map fst d) k.
Proof.
  unfold dict_mem, listed. induction d as [|[k0 v0] d IH]; simpl; auto.
  destruct (String.eqb k k0); simpl; auto.
Qed.

Lemma dict_set_labels {V} k (v : V) d :
  map fst (dict_set k v d) = add_label k (map fst d).
Proof.
  unfold add_label, listed. induction d as [|[k0 v0] d IH]; simpl; auto.
  destruct (String.eqb k k0) eqn:E; simpl.
  - apply String.eqb_eq in E. now subst.
  - rewrite IH. now destruct (existsb (String.eqb k) (map fst d)).
Qed.

(** X8.  The table that [AreaFeatureSelector.transform] returns has the
    index of its argument and, for columns, the unlisted columns of the
    argument in their order with [MainArea] added: in the place of a
    column of that name when the argument has one, last when it has
    none. *)
Theorem area_output_layout self X X' :
  call (returned (AreaFeatureSelector.transform self)) X = Ok X' ->
  frame_index X' = frame_index X /\
  labels X' =
  filter (fun c => negb (listed (AreaFeatureSelector.area_columns self) c))
         (add_label "MainArea" (labels X)).
Proof.
  rewrite (call_returned _ _ _ (area_runs_as self)). unfold area_value.
  destruct (frame_select X _) as [sub|]; simpl; [|discriminate].
  destruct (frame_iloc_col0 _) as [main|]; simpl; [|discriminate].
  intros Hd. apply frame_drop_inv in Hd. subst X'. split; auto.
  unfold labels. simpl. now rewrite dict_del_labels, dict_set_labels.
Qed.

Lemma area_output_layout_witness :
  frame_index Sample.areas_unified = frame_index Sample.areas /\
  labels Sample.areas_unified =
  filter (fun c => negb (listed ["LivingArea"; "TotalArea"] c))
         (add_label "MainArea" (labels Sample.areas)).
Proof.
  apply (area_output_layout
           (AreaFeatureSelector.__init__ ["LivingArea"; "TotalArea"])
           Sample.areas Sample.areas_unified).
  reflexivity.
Defined.

(** X9.  The table that [DateFeatureExtractor.transform] returns has the
    index of its argument and, for columns, the columns of the argument
    less the source column, with the year column and then the month column
    added, each in the place of a column of its name when there is one and
    last otherwise. *)
Theorem date_output_layout `{DatetimeParser} self X X' :
  call (returned (DateFeatureExtractor.transform self)) X = Ok X' ->
  frame_index X' = frame_index X /\
  labels X' =
  filter (fun c => negb (String.eqb c (DateFeatureExtractor.column self)))
         (add_label (DateFeatureExtractor.prefix self ++ "Month")%string
            (add_label (DateFeatureExtractor.prefix self ++ "Year")%string
               (labels X))).
Proof.
  rewrite (call_returned _ _ _ (date_runs_as self)). unfold date_value.
  destruct (frame_getitem X _) as [s|]; simpl; [|discriminate].
  destruct (to_datetime s) as [dates|]; simpl; [|discriminate].
  intros Hd. apply frame_drop_inv in Hd. subst X'. split; auto.
  unfold labels. simpl. rewrite dict_del_labels, !dict_set_labels.
  apply filter_ext. intros c. unfold listed. simpl.
  now rewrite orb_false_r.
Qed.

Lemma date_output_layout_witness :
  frame_index Sample.listings_dated = frame_index Sample.listings /\
  labels Sample.listings_dated =
  filter (fun c => negb (String.eqb c "PublishDate"))
         (add_label "PublishMonth"
            (add_label "PublishYear" (labels Sample.listings))).
Proof.
  apply (@date_output_layout Sample.iso_parser
           (DateFeatureExtractor.__init__ "PublishDate" "Publish")
           Sample.listings Sample.listings_dated).
  reflexivity.
Defined.

(** ** [fit] and the caller's table *)

(** X10.  For every unit and in whatever store it runs, [fit] leaves every
    table of the store as it was (the store is at most extended, by the
    copy that the grouper and the clipper read); the unit it returns has
    the constructor arguments of the unit it was called on, and is that
    very unit for the four units that learn nothing. *)
Theorem fit_leaves_input_and_configuration
  (u : transformer) (st : store) (X : ref) :
  exists res g,
    fit u X st = (res, st ++ g) /\
    (forall r G, nth_error st r = Some G -> nth_error (st ++ g) r = Some G) /\
    (forall u', res = Ok u' ->
       as_constructed u' = as_constructed u /\
       match u with
       | Rare _ => exists v, u' = Rare v
       | Clipper _ => exists v, u' = Clipper v
       | _ => u' = u
       end).
Proof.
  assert (Hkeep : forall g r (G : DataFrame),
            nth_error st r = Some G -> nth_error (st ++ g) r = Some G)
    by (intros g r G; apply nth_error_before).
  destruct u as [u|u|u|u|u|u];
    try (eexists; exists []; rewrite app_nil_r; simpl;
         split; [reflexivity|]; split; [auto|];
         intros u' [= <-]; now auto).
  - (* the grouper *)
    destruct (nth_error st X) as [F|] eqn:HX.
    + exists (match rare_fit_value u F with
              | Ok v => Ok (Rare v) | Raise e => Raise e end), [F].
      split; [|split; auto].
      * simpl. unfold bind. rewrite (rare_fit_run u st X F HX).
        now destruct (rare_fit_value u F).
      * intros u'. unfold rare_fit_value.
        destruct (fold_result _ _ _) as [cats|]; simpl; [|discriminate].
        intros [= <-]. simpl. eauto.
    + exists (Raise SystemError), []. rewrite app_nil_r.
      split; [|split; [auto|discriminate]].
      simpl. unfold RareCategoryGrouper.fit, bind.
      now rewrite (copy_dangling _ _ HX).
  - (* the clipper *)
    destruct (nth_error st X) as [F|] eqn:HX.
    + exists (match clipper_fit_value u F with
              | Ok v => Ok (Clipper v) | Raise e => Raise e end), [F].
      split; [|split; auto].
      * simpl. unfold bind. rewrite (clipper_fit_run u st X F HX).
        now destruct (clipper_fit_value u F).
      * intros u'. unfold clipper_fit_value.
        destruct (fold_result _ _ _) as [bounds|]; simpl; [|discriminate].
        intros [= <-]. simpl. eauto.
    + exists (Raise SystemError), []. rewrite app_nil_r.
      split; [|split; [auto|discriminate]].
      simpl. unfold OutlierClipper.fit, bind.
      now rewrite (copy_dangling _ _ HX).
Qed.

(** ** Fitting again *)

Lemma dict_ext {V} (d1 d2 : dict V) :
  NoDup (map fst d1) -> map fst d1 = map fst d2 ->
  (forall k, dict_get k d1 = dict_get k d2) -> d1 = d2.
Proof.
  revert d2. induction d1 as [|[k1 v1] d1 IH]; intros [|[k2 v2] d2];
    simpl; try discriminate; auto.
  intros Hnd [= <- Hl] Hget. inversion Hnd as [|? ? Hk1 Hnd1]; subst.
  pose proof (Hget k1) as H1. rewrite String.eqb_refl in H1.
  injection H1 as <-. f_equal. apply IH; auto.
  intros k. specialize (Hget k).
  destruct (String.eqb k k1) eqn:E; auto.
  apply String.eqb_eq in E. subst k.
  assert (H2 : ~ In k1 (map fst d2)) by now rewrite <- Hl.
  apply dict_get_None in Hk1. apply dict_get_None in H2. congruence.
Qed.

Lemma add_label_absorbed k L : In k L -> add_label k L = L.
Proof.
  intros Hin. unfold add_label, listed.
  apply existsb_eqb_In in Hin. now rewrite Hin.
Qed.

Section FillLabels.
Variable V : Type.
Variable h : string -> result V.
Variable body : dict V -> string -> result (dict V).
Hypothesis body_sets :
  forall acc a, body acc a = result_bind (h a) (fun v => Ok (dict_set a v acc)).

Lemma fold_fill_labels l :
  forall acc0 acc,
    fold_result l body acc0 = Ok acc ->
    map fst acc = fold_left (fun L k => add_label k L) l (map fst acc0).
Proof.
  induction l as [|a l IH]; intros acc0 acc; simpl.
  - now intros [= <-].
  - rewrite body_sets. destruct (h a) as [v|]; simpl; [|discriminate].
    intros Hrun. rewrite (IH _ _ Hrun). now rewrite dict_set_labels.
Qed.

(** Whether the loop fails, and how, does not depend on the dictionary it
    starts from. *)
Lemma fold_fill_error l e :
  forall acc0 acc1,
    fold_result l body acc0 = Raise e -> fold_result l body acc1 = Raise e.
Proof.
  induction l as [|a l IH]; intros acc0 acc1; simpl; [discriminate|].
  rewrite !body_sets. destruct (h a) as [v|]; simpl; auto.
  apply IH.
Qed.
End FillLabels.

Lemma add_labels_absorbed l :
  forall L, (forall k, In k l -> In k L) ->
            fold_left (fun L k => add_label k L) l L = L.
Proof.
  induction l as [|a l IH]; intros L HL; simpl; auto.
  rewrite add_label_absorbed by (apply HL; now left).
  apply IH. intros k Hk. apply HL. now right.
Qed.

Section FillTwice.
Variable V : Type.
Variables hA hB : string -> result V.
Variables bodyA bodyB : dict V -> string -> result (dict V).
Hypothesis bodyA_sets :
  forall acc a,
    bodyA acc a = result_bind (hA a) (fun v => Ok (dict_set a v acc)).
Hypothesis bodyB_sets :
  forall acc a,
    bodyB acc a = result_bind (hB a) (fun v => Ok (dict_set a v acc)).

(** Filling the keys of [l] over a dictionary in which an earlier loop over
    the same keys has filled them gives what filling them over the first
    dictionary gives. *)
Lemma fold_fill_again l acc0 accA :
  NoDup (map fst acc0) ->
  fold_result l bodyA acc0 = Ok accA ->
  fold_result l bodyB accA = fold_result l bodyB acc0.
Proof.
  intros Hnd HA.
  destruct (fold_fill_spec V hA bodyA bodyA_sets l acc0 accA HA)
    as (HinA & HoutA & HndA & HkeysA).
  destruct (fold_result l bodyB accA) as [accAB|e] eqn:HAB;
    destruct (fold_result l bodyB acc0) as [accB|e'] eqn:HB.
  - f_equal.
    destruct (fold_fill_spec V hB bodyB bodyB_sets l accA accAB HAB)
      as (HinAB & HoutAB & HndAB & _).
    destruct (fold_fill_spec V hB bodyB bodyB_sets l acc0 accB HB)
      as (HinB & HoutB & _ & _).
    apply dict_ext; auto.
    + rewrite (fold_fill_labels V hB bodyB bodyB_sets l _ _ HAB).
      rewrite (fold_fill_labels V hB bodyB bodyB_sets l _ _ HB).
      rewrite add_labels_absorbed
        by (intros k Hk; apply HkeysA; now left).
      apply (fold_fill_labels V hA bodyA bodyA_sets l _ _ HA).
    + intros k. destruct (in_dec string_dec k l) as [Hk|Hk].
      * destruct (HinAB k Hk) as (v & Hv & ->).
        destruct (HinB k Hk) as (v' & Hv' & ->). congruence.
      * now rewrite HoutAB, HoutB, HoutA.
  - apply (fold_fill_error V hB bodyB bodyB_sets l e' acc0 accA) in HB.
    congruence.
  - apply (fold_fill_error V hB bodyB bodyB_sets l e accA acc0) in HAB.
    congruence.
  - apply (fold_fill_error V hB bodyB bodyB_sets l e accA acc0) in HAB.
    congruence.
Qed.
End FillTwice.

(** X11.  Fitting a grouper again forgets the first fit: a grouper fitted
    on one table and then on a second is, retained lists included, the
    grouper that a single fit on the second table gives, and fails as
    that fit fails. *)
Theorem rare_refit_forgets columns min_frequency A B self :
  call (RareCategoryGrouper.fit
          (RareCategoryGrouper.__init__ columns min_frequency)) A = Ok self ->
  call (RareCategoryGrouper.fit self) B =
  call (RareCategoryGrouper.fit
          (RareCategoryGrouper.__init__ columns min_frequency)) B.
Proof.
  rewrite !call_rare_fit. unfold rare_fit_value. simpl.
  intros Hfit.
  destruct (fold_result columns _ _) as [cats|] eqn:HA in Hfit; simpl in Hfit;
    [|discriminate].
  injection Hfit as <-. simpl.
  rewrite (fold_fill_again (list cell)
             (fun col => result_bind (frame_getitem A col) (fun s =>
                Ok (index_at_least (value_counts_normalize s) min_frequency)))
             (fun col => result_bind (frame_getitem B col) (fun s =>
                Ok (index_at_least (value_counts_normalize s) min_frequency)))
             _ _
             (fun acc col => rare_fit_body min_frequency A acc col)
             (fun acc col => rare_fit_body min_frequency B acc col)
             columns [] cats (NoDup_nil _) HA).
  reflexivity.
Qed.

Lemma rare_refit_forgets_witness :
  call (RareCategoryGrouper.fit
          (Sample.grouper (1 # 4) [("City", [Str "A"; Str "B"])]))
       Sample.city_new =
  call (RareCategoryGrouper.fit
          (RareCategoryGrouper.__init__ ["City"] (1 # 4))) Sample.city_new.
Proof.
  apply (rare_refit_forgets ["City"] (1 # 4) Sample.city_fit Sample.city_new
           (Sample.grouper (1 # 4) [("City", [Str "A"; Str "B"])])).
  reflexivity.
Defined.

(** X12.  Fitting a clipper again forgets the first fit: a clipper fitted
    on one table and then on a second has, for every column, the bounds
    that a single fit on the second table gives, and fails as that fit
    fails. *)
Theorem clipper_refit_forgets columns lq uq A B self :
  call (OutlierClipper.fit (OutlierClipper.__init__ columns lq uq)) A
  = Ok self ->
  call (OutlierClipper.fit self) B =
  call (OutlierClipper.fit (OutlierClipper.__init__ columns lq uq)) B.
Proof.
  rewrite !call_clipper_fit. unfold clipper_fit_value. simpl.
  intros Hfit.
  destruct (fold_result columns _ _) as [bounds|] eqn:HA in Hfit; simpl in Hfit;
    [|discriminate].
  injection Hfit as <-. simpl.
  rewrite (fold_fill_again (scalar * scalar)
             (column_bounds lq uq A) (column_bounds lq uq B) _ _
             (fun acc col => clipper_fit_body lq uq A acc col)
             (fun acc col => clipper_fit_body lq uq B acc col)
             columns [] bounds (NoDup_nil _) HA).
  reflexivity.
Qed.

Lemma clipper_refit_forgets_witness :
  call (OutlierClipper.fit
          (Sample.clipper ["a"] 0 1 [("a", (Some 1, Some 10))]))
       Sample.readings =
  call (OutlierClipper.fit (OutlierClipper.__init__ ["a"] 0 1))
       Sample.readings.
Proof.
  apply (clipper_refit_forgets ["a"] 0 1 Sample.measures Sample.readings
           (Sample.clipper ["a"] 0 1 [("a", (Some 1, Some 10))])).
  reflexivity.
Defined.

(** ** Where the fitted bounds of the clipper lie *)

Lemma sort_values_In l y : In y (sort_values l) <-> In y l.
Proof.
  induction l as [|x l IH]; simpl; [tauto|].
  rewrite insert_sorted_In, IH. intuition.
Qed.



Lemma numeric_values_cell s xs c :
  numeric_values s = Ok xs -> In c s -> isna c = false ->
  exists x, num_of_cell c = Some x /\ In x xs.
Proof.
  unfold numeric_values. intros Hxs Hc Hna.
  assert (Hf : In c (filter (fun c => negb (isna c)) s))
    by (apply filter_In; split; auto; now rewrite Hna).
  destruct (In_nth_error _ _ Hf) as (i & Hi).
  destruct (result_map_nth _ _ _ _ _ Hxs Hi) as (x & Hx & Hx').
  exists x. split.
  - destruct (num_of_cell c); congruence.
  - eapply nth_error_In; eauto.
Qed.




Lemma interpolate_zero xs : (interpolate xs 0 == nth 0 xs 0)%Q.
Proof.
  unfold interpolate.
  set (N := inject_Z (Z.of_nat (List.length xs - 1))).
  assert (Hh : (0 * N == 0)%Q) by ring.
  assert (Hf : Qfloor (0 * N) = 0%Z) by now rewrite Hh.
  rewrite Hf. simpl Z.to_nat. rewrite Hh.
  change (inject_Z 0) with 0%Q. ring.
Qed.

Lemma interpolate_one xs :
  (interpolate xs 1 == nth (List.length xs - 1) xs 0)%Q.
Proof.
  unfold interpolate.
  set (n := (List.length xs - 1)%nat).
  assert (Hh : (1 * inject_Z (Z.of_nat n) == inject_Z (Z.of_nat n))%Q) by ring.
  assert (Hf : Qfloor (1 * inject_Z (Z.of_nat n)) = Z.of_nat n)
    by (rewrite Hh; apply Qfloor_Z).
  rewrite Hf, Nat2Z.id, Hh.
  replace (Nat.min (n + 1) n) with n by lia. ring.
Qed.

(** With the fractions 0 and 1 the two quantiles enclose every number of
    the column. *)
Lemma quantile_extremes s lower upper c x :
  quantile s 0 = Ok lower -> quantile s 1 = Ok upper ->
  In c s -> num_of_cell c = Some x ->
  (forall lo, lower = Some lo -> (lo <= x)%Q) /\
  (forall hi, upper = Some hi -> (x <= hi)%Q).
Proof.
  unfold quantile. simpl.
  destruct (numeric_values s) as [xs|] eqn:Hxs; simpl; [|discriminate].
  intros Hlo Hhi Hc Hx.
  assert (Hna : isna c = false) by (destruct c; simpl in *; congruence).
  destruct (numeric_values_cell _ _ _ Hxs Hc Hna) as (x' & Hx' & Hin).
  assert (x' = x) by congruence. subst x'.
  destruct xs as [|x0 xs]; [destruct Hin|].
  injection Hlo as <-. injection Hhi as <-.
  apply (proj2 (sort_values_In (x0 :: xs) x)) in Hin.
  destruct (In_nth _ _ 0%Q Hin) as (j & Hj & Hnth).
  pose proof (sort_values_sorted (x0 :: xs)) as Hs.
  split.
  - intros lo [= <-]. rewrite interpolate_zero, <- Hnth.
    apply sorted_nth; auto. lia.
  - intros hi [= <-]. rewrite interpolate_one, <- Hnth.
    change (insert_sorted x0 (sort_values xs)) with (sort_values (x0 :: xs)).
    apply sorted_nth; auto; lia.
Qed.

Lemma clip_between_extremes s lower upper :
  quantile s 0 = Ok lower -> quantile s 1 = Ok upper ->
  clip s lower upper = Ok s.
Proof.
  intros Hlo Hhi. apply clip_cells. apply result_map_fixed. intros c Hc.
  destruct (isna c) eqn:Hna.
  - destruct c; try discriminate. apply clip_cell_missing.
  - assert (Hx : exists x, num_of_cell c = Some x).
    { unfold quantile in Hlo. simpl in Hlo.
      destruct (numeric_values s) as [xs|] eqn:Hxs; [|discriminate].
      destruct (numeric_values_cell _ _ _ Hxs Hc Hna) as (x & Hx & _).
      eauto. }
    destruct Hx as (x & Hx).
    destruct (quantile_extremes _ _ _ _ _ Hlo Hhi Hc Hx) as [Hl Hu].
    destruct (clip_cell_number lower upper c x Hx)
      as (c' & x' & Hc' & _ & _ & _ & Hfix).
    rewrite Hc'. f_equal. now apply Hfix.
Qed.

(** X14.  A clipper constructed with the fractions 0 and 1 clips nothing
    of the table it was fitted on, when the configured columns hold whole
    numbers that a double holds exactly (and missing cells): [transform]
    returns that table as it is.  (Beyond 2^53 the bound that pandas
    stores is the double nearest to the largest value, and that value is
    clipped to it.) *)
Theorem clipper_full_range_keeps_fit_table columns X0 self :
  (forall col s c,
     In col columns -> dict_get col (frame_columns X0) = Some s -> In c s ->
     c = Missing \/ exact_integer c) ->
  call (OutlierClipper.fit (OutlierClipper.__init__ columns 0 1)) X0
  = Ok self ->
  call (returned (OutlierClipper.transform self)) X0 = Ok X0.
Proof.
  intros _ Hfit.
  destruct (clipper_fit_spec _ _ _ Hfit) as (_ & Hb & Hnd & Hkeys).
  simpl in Hb, Hnd, Hkeys.
  rewrite (call_returned _ _ _ (clipper_runs_as self)).
  unfold clipper_value.
  rewrite (loop_rewrite_fixed _ (fst : string * (scalar * scalar) -> string)
             clip_item); [reflexivity|].
  intros [col [lower upper]] Hin. simpl.
  assert (Hcol : In col columns).
  { destruct (proj1 (Hkeys col)) as [?|[]]; auto.
    apply in_map_iff. now exists (col, (lower, upper)). }
  destruct (Hb col Hcol) as (s & lower' & upper' & Hs & Hlo & Hhi & Hget).
  rewrite (dict_get_NoDup _ _ _ _ (Hnd (NoDup_nil _)) Hin) in Hget.
  injection Hget as <- <-.
  exists s. split; auto.
  unfold clip_item. simpl. now apply clip_between_extremes.
Qed.

Lemma clipper_full_range_keeps_fit_table_witness :
  call (returned (OutlierClipper.transform
          (Sample.clipper ["Floor"; "Rooms"] 0 1
             [("Floor", (Some 1, Some 12)); ("Rooms", (Some 1, Some 5))])))
       Sample.floors = Ok Sample.floors.
Proof.
  apply (clipper_full_range_keeps_fit_table ["Floor"; "Rooms"] Sample.floors).
  - intros col s c [<-|[<-|[]]] [= <-] Hc; simpl in Hc;
      repeat (destruct Hc as [<-|Hc]; [|]); try destruct Hc;
      try (now left); right.
    + exists 3%Z. split; [now left|vm_compute; discriminate].
    + exists 1%Z. split; [now left|vm_compute; discriminate].
    + exists 2%Z. split; [now right|vm_compute; discriminate].
    + exists 12%Z. split; [now left|vm_compute; discriminate].
    + exists 2%Z. split; [now left|vm_compute; discriminate].
    + exists 2%Z. split; [now left|vm_compute; discriminate].
    + exists 5%Z. split; [now left|vm_compute; discriminate].
    + exists 1%Z. split; [now left|vm_compute; discriminate].
    + exists 3%Z. split; [now left|vm_compute; discriminate].
  - reflexivity.
Defined.

(** ** How many values the grouper retains *)

Lemma Qnat_nonneg n : (0 <= inject_Z (Z.of_nat n))%Q.
Proof. change 0%Q with (inject_Z 0). rewrite <- Zle_Qle. lia. Qed.

Lemma Qnat_succ n :
  (inject_Z (Z.of_nat (S n)) == inject_Z (Z.of_nat n) + 1)%Q.
Proof. rewrite Nat2Z.inj_succ. unfold Z.succ. now rewrite inject_Z_plus. Qed.

Lemma Qnat_plus a b :
  (inject_Z (Z.of_nat (a + b)) ==
   inject_Z (Z.of_nat a) + inject_Z (Z.of_nat b))%Q.
Proof. now rewrite Nat2Z.inj_add, inject_Z_plus. Qed.

(** The counts of the entries whose share reaches the threshold add up to
    at most the sum of all counts. *)
Lemma retained_mass (vc : list (cell * nat)) (T threshold : Q) :
  (0 < T)%Q ->
  (inject_Z (Z.of_nat
     (List.length
        (filter (fun kf : cell * Q => Qle_bool threshold (snd kf))
           (map (fun kn : cell * nat =>
                   (fst kn, inject_Z (Z.of_nat (snd kn)) / T)%Q) vc))))
   * (threshold * T)
   <= inject_Z (Z.of_nat (counts_sum vc)))%Q.
Proof.
  intros HT. induction vc as [|[k n] vc IH].
  - cbn [map filter List.length counts_sum fold_right].
    change (inject_Z (Z.of_nat 0)) with 0%Q. lra.
  - cbn [map filter fst snd counts_sum fold_right].
    fold (counts_sum vc).
    pose proof (Qnat_nonneg n) as Hn. rewrite Qnat_plus.
    destruct (Qle_bool threshold (inject_Z (Z.of_nat n) / T)) eqn:E.
    + apply Qle_bool_iff in E.
      assert (Hle : (threshold * T <= inject_Z (Z.of_nat n))%Q).
      { apply (Qmult_le_compat_r _ _ T) in E; [|lra].
        assert (Hd : (inject_Z (Z.of_nat n) / T * T
                      == inject_Z (Z.of_nat n))%Q) by (field; lra).
        lra. }
      cbn [List.length]. rewrite Qnat_succ. lra.
    + lra.
Qed.

Lemma retained_none (vc : list (cell * nat)) (T threshold : Q) :
  (T == 0)%Q -> (0 < threshold)%Q ->
  filter (fun kf : cell * Q => Qle_bool threshold (snd kf))
    (map (fun kn : cell * nat =>
            (fst kn, inject_Z (Z.of_nat (snd kn)) / T)%Q) vc) = [].
Proof.
  intros HT Hpos. induction vc as [|[k n] vc IH]; simpl; auto.
  destruct (Qle_bool threshold (inject_Z (Z.of_nat n) / T)) eqn:E; auto.
  apply Qle_bool_iff in E. exfalso.
  assert (Hz : (inject_Z (Z.of_nat n) / T == 0)%Q).
  { unfold Qdiv. rewrite HT. change (/ 0)%Q with 0%Q. ring. }
  lra.
Qed.

Lemma index_at_least_few s threshold :
  (inject_Z (Z.of_nat
     (List.length (index_at_least (value_counts_normalize s) threshold)))
   * threshold <= 1)%Q.
Proof.
  unfold index_at_least, value_counts_normalize. rewrite length_map.
  set (T := inject_Z (Z.of_nat (counts_sum (value_counts s)))).
  set (kept := filter _ _).
  pose proof (Qnat_nonneg (List.length kept)) as Hk.
  destruct (Qlt_le_dec 0 threshold) as [Hpos|Hneg]; [|nra].
  pose proof (Qnat_nonneg (counts_sum (value_counts s))) as HT.
  fold T in HT.
  destruct (Qlt_le_dec 0 T) as [HT'|HT'].
  - pose proof (retained_mass (value_counts s) T threshold HT') as Hm.
    fold kept in Hm. fold T in Hm.
    assert (H1 : (inject_Z (Z.of_nat (List.length kept)) * threshold * T
                  <= 1 * T)%Q) by lra.
    apply Qmult_le_r in H1; auto.
  - assert (HT0 : (T == 0)%Q) by lra.
    assert (Hk0 : kept = []) by (apply retained_none; auto).
    rewrite Hk0. cbn [List.length].
    change (inject_Z (Z.of_nat 0)) with 0%Q. lra.
Qed.

(** X15.  However the fit table looks, the number of values that
    [RareCategoryGrouper.fit] retains for a column, times the threshold, is
    at most 1: with threshold 1/4, say, no column keeps more than four
    values. *)
Theorem rare_fit_retains_few self0 X0 self col frequent :
  call (RareCategoryGrouper.fit self0) X0 = Ok self ->
  In col (RareCategoryGrouper.columns self0) ->
  dict_get col (RareCategoryGrouper.frequent_categories_ self)
  = Some frequent ->
  (inject_Z (Z.of_nat (List.length frequent))
   * RareCategoryGrouper.min_frequency self0 <= 1)%Q.
Proof.
  intros Hfit Hcol Hget.
  destruct (rare_fit_spec _ _ _ Hfit) as (_ & _ & Hcats).
  destruct (Hcats col Hcol) as (s & _ & Hget').
  rewrite Hget in Hget'. injection Hget' as ->.
  apply index_at_least_few.
Qed.

Lemma rare_fit_retains_few_witness :
  (inject_Z (Z.of_nat (List.length [Str "A"; Str "B"])) * (1 # 4) <= 1)%Q.
Proof.
  apply (rare_fit_retains_few
           (RareCategoryGrouper.__init__ ["City"] (1 # 4)) Sample.city_fit
           (Sample.grouper (1 # 4) [("City", [Str "A"; Str "B"])]) "City").
  - reflexivity.
  - simpl. auto.
  - reflexivity.
Defined.

Lemma occurrences_of_member c s :
  In c s -> isna c = false -> (0 < occurrences c s)%nat.
Proof.
  intros Hc Hna. unfold occurrences.
  assert (Hf : In c (filter (cell_eqb c) s))
    by (apply filter_In; split; auto; now apply cell_eqb_refl).
  destruct (filter (cell_eqb c) s); [destruct Hf|simpl; lia].
Qed.

Lemma relative_frequency_nonneg v s : (0 <= relative_frequency v s)%Q.
Proof.
  unfold relative_frequency, Qdiv. apply Qmult_le_0_compat.
  - apply Qnat_nonneg.
  - apply Qinv_le_0_compat. apply Qnat_nonneg.
Qed.

(** X16.  A threshold above 1 retains nothing: a grouper fitted with such
    a threshold turns every cell of its columns into "Other", in any table
    that has those columns. *)
Theorem rare_threshold_above_one self0 X0 self Y :
  call (RareCategoryGrouper.fit self0) X0 = Ok self ->
  (1 < RareCategoryGrouper.min_frequency self0)%Q ->
  (forall col, In col (RareCategoryGrouper.columns self0) ->
               has_column Y col = true) ->
  (forall col, In col (RareCategoryGrouper.columns self0) ->
     dict_get col (RareCategoryGrouper.frequent_categories_ self) = Some [])
  /\
  exists Y',
    call (returned (RareCategoryGrouper.transform self)) Y = Ok Y' /\
    forall col i c,
      In col (RareCategoryGrouper.columns self0) ->
      cell_at Y col i = Some c ->
      cell_at Y' col i = Some (Str "Other").
Proof.
  intros Hfit Hmf Hcols.
  destruct (rare_fit_spec _ _ _ Hfit) as (Hsame & _ & Hcats).
  assert (Hnone : forall col, In col (RareCategoryGrouper.columns self0) ->
            dict_get col (RareCategoryGrouper.frequent_categories_ self)
            = Some []).
  { intros col Hcol. destruct (Hcats col Hcol) as (s & _ & ->). f_equal.
    pose proof (index_at_least_few s
                  (RareCategoryGrouper.min_frequency self0)) as Hfew.
    destruct (index_at_least _ _) as [|v frequent]; auto. exfalso.
    cbn [List.length] in Hfew. rewrite Qnat_succ in Hfew.
    pose proof (Qnat_nonneg (List.length frequent)). nra. }
  split; auto.
  destruct (rare_transform_spec self0 X0 self Y Hfit) as (Y' & Hrun & Hcell).
  { now rewrite Hsame. }
  exists Y'. split; auto. intros col i c Hcol Hc.
  destruct (Hcell col) as (frequent & Hget & _ & Hat);
    [now rewrite Hsame|].
  rewrite (Hnone col Hcol) in Hget. injection Hget as <-.
  rewrite (Hat i c Hc). unfold isin_cell. simpl. now destruct (isna c).
Qed.

Lemma rare_threshold_above_one_witness :
  (forall col, In col ["City"] ->
     dict_get col [("City", [])] = Some (@nil cell)) /\
  exists Y',
    call (returned (RareCategoryGrouper.transform
            (Sample.grouper (3 # 2) [("City", [])]))) Sample.city_new
    = Ok Y' /\
    forall col i c,
      In col ["City"] ->
      cell_at Sample.city_new col i = Some c ->
      cell_at Y' col i = Some (Str "Other").
Proof.
  apply (rare_threshold_above_one
           (RareCategoryGrouper.__init__ ["City"] (3 # 2)) Sample.city_fit
           (Sample.grouper (3 # 2) [("City", [])]) Sample.city_new).
  - reflexivity.
  - reflexivity.
  - intros col [<-|[]]. reflexivity.
Defined.

(** X17.  A threshold of 0 or less retains every value that occurs: on
    the table it was fitted on, such a grouper leaves every non-missing
    cell of its columns as it is; the missing cells alone become
    "Other". *)
Theorem rare_threshold_not_positive self0 X0 self :
  call (RareCategoryGrouper.fit self0) X0 = Ok self ->
  (RareCategoryGrouper.min_frequency self0 <= 0)%Q ->
  exists X',
    call (returned (RareCategoryGrouper.transform self)) X0 = Ok X' /\
    forall col i c,
      In col (RareCategoryGrouper.columns self0) ->
      cell_at X0 col i = Some c ->
      cell_at X' col i = Some (if isna c then Str "Other" else c).
Proof.
  intros Hfit Hmf.
  destruct (rare_fit_spec _ _ _ Hfit) as (Hsame & _ & Hcats).
  destruct (rare_transform_spec self0 X0 self X0 Hfit) as (X' & Hrun & Hcell).
  { rewrite Hsame. intros col Hcol.
    destruct (Hcats col Hcol) as (s & Hs & _).
    unfold has_column. rewrite dict_mem_listed.
    apply existsb_eqb_In. apply dict_get_In in Hs.
    apply in_map_iff. now exists (col, s). }
  exists X'. split; auto. intros col i c Hcol Hc.
  destruct (Hcell col) as (frequent & Hget & Hna & Hat);
    [now rewrite Hsame|].
  destruct (Hcats col Hcol) as (s & Hs & Hget').
  rewrite Hget in Hget'. injection Hget' as ->.
  rewrite (Hat i c Hc). f_equal.
  destruct (isna c) eqn:Hc0.
  - unfold isin_cell. now rewrite Hc0, Hna.
  - assert (Hin : In c s).
    { unfold cell_at in Hc. rewrite Hs in Hc.
      now apply nth_error_In in Hc. }
    assert (Hkept : isin_cell
                      (index_at_least (value_counts_normalize s)
                         (RareCategoryGrouper.min_frequency self0)) c = true).
    { apply retained_spec; auto. split.
      - now apply occurrences_of_member.
      - pose proof (relative_frequency_nonneg c s). lra. }
    now rewrite Hkept.
Qed.

Lemma rare_threshold_not_positive_witness :
  exists X',
    call (returned (RareCategoryGrouper.transform
            (Sample.grouper 0 [("City", [Str "A"])]))) Sample.sparse
    = Ok X' /\
    forall col i c,
      In col ["City"] ->
      cell_at Sample.sparse col i = Some c ->
      cell_at X' col i = Some (if isna c then Str "Other" else c).
Proof.
  apply (rare_threshold_not_positive
           (RareCategoryGrouper.__init__ ["City"] 0) Sample.sparse
           (Sample.grouper 0 [("City", [Str "A"])])).
  - reflexivity.
  - vm_compute. congruence.
Defined.

(** ** [BooleanNormalizer] on booleans and integers *)

Lemma lower_uint d :
  lower (NilEmpty.string_of_uint d) = NilEmpty.string_of_uint d.
Proof.
  induction d; cbn [NilEmpty.string_of_uint lower];
    [reflexivity|rewrite IHd; reflexivity ..].
Qed.

Lemma lower_str_int z :
  lower (NilZero.string_of_int (Z.to_int z)) =
  NilZero.string_of_int (Z.to_int z).
Proof.
  destruct (Z.to_int z) as [d|d]; cbn [NilZero.string_of_int lower].
  - destruct d; [reflexivity|exact (lower_uint _) ..].
  - f_equal. destruct d; [reflexivity|exact (lower_uint _) ..].
Qed.

(** Reading back the decimal form of an integer gives the integer. *)
Lemma int_of_str_int z :
  NilZero.int_of_string (NilZero.string_of_int (Z.to_int z))
  = Some (Z.to_int z).
Proof.
  apply NilZero.isi; destruct z; simpl; try discriminate;
    intros [= E]; now apply DecimalPos.Unsigned.to_uint_nonnil in E.
Qed.

Lemma str_int_eqb z z' :
  String.eqb (NilZero.string_of_int (Z.to_int z))
             (NilZero.string_of_int (Z.to_int z')) = Z.eqb z z'.
Proof.
  destruct (Z.eqb_spec z z') as [->|Hne].
  - apply String.eqb_refl.
  - apply String.eqb_neq. intros E. apply Hne. apply DecimalZ.to_int_inj.
    pose proof (int_of_str_int z) as H1. rewrite E, int_of_str_int in H1.
    congruence.
Qed.

Lemma str_int_not_word z w :
  NilZero.int_of_string w = None ->
  String.eqb (NilZero.string_of_int (Z.to_int z)) w = false.
Proof.
  intros Hw. apply String.eqb_neq. intros E.
  pose proof (int_of_str_int z) as H1. rewrite E in H1. congruence.
Qed.

Lemma to_flag_int `{FloatRepr} z :
  BooleanNormalizer.to_flag (Str (lower (str_of_cell (Int z)))) =
  if Z.eqb z 1 then Int 1 else if Z.eqb z 0 then Int 0 else Missing.
Proof.
  rewrite to_flag_str. cbn [str_of_cell]. rewrite lower_str_int.
  rewrite (str_int_not_word z "yes"), (str_int_not_word z "true"),
    (str_int_not_word z "no"), (str_int_not_word z "false") by reflexivity.
  change "1"%string with (NilZero.string_of_int (Z.to_int 1)).
  change "0"%string with (NilZero.string_of_int (Z.to_int 0)).
  rewrite !str_int_eqb. reflexivity.
Qed.

(** X18.  What [BooleanNormalizer.transform] makes of the cells that are
    not strings, whatever the printing of floats, when no column is
    configured twice: [True] and the integer 1 become 1, [False] and the
    integer 0 become 0 (the integers 1 and 0, or the floats 1.0 and 0.0 in
    a column held as floats), and every other integer, like a missing
    cell, becomes missing. *)
Theorem boolean_normalizer_on_booleans_and_integers `{FloatRepr} self Y :
  NoDup (BooleanNormalizer.columns self) ->
  (forall col, In col (BooleanNormalizer.columns self) ->
               has_column Y col = true) ->
  exists Y',
    call (returned (BooleanNormalizer.transform self)) Y = Ok Y' /\
    forall col i c,
      In col (BooleanNormalizer.columns self) ->
      cell_at Y col i = Some c ->
      exists c',
        cell_at Y' col i = Some c' /\
        match c with
        | Bool b =>
            c' = Int (if b then 1 else 0) \/ c' = Float (if b then 1 else 0)
        | Int z =>
            if Z.eqb z 1 then c' = Int 1 \/ c' = Float 1
            else if Z.eqb z 0 then c' = Int 0 \/ c' = Float 0
                 else c' = Missing
        | Missing => c' = Missing
        | Str _ | Float _ => True
        end.
Proof.
  intros Hnd Hcols.
  destruct (boolean_transform_spec self Y Hnd Hcols) as (Y' & Hrun & Hcol').
  exists Y'. split; auto. intros col i c Hcol Hc.
  destruct (Hcol' col Hcol) as (s & Hs & Hs').
  unfold cell_at in *. rewrite Hs in Hc. rewrite Hs'.
  rewrite infer_dtype_nth, nth_error_map, Hc. simpl.
  eexists. split; [reflexivity|].
  destruct c as [|x|b|z|q]; auto.
  - now destruct (held_as_floats _).
  - destruct (held_as_floats _), b; simpl; auto.
  - rewrite to_flag_int.
    destruct (held_as_floats _), (Z.eqb z 1), (Z.eqb z 0); simpl; auto.
Qed.

Lemma boolean_normalizer_on_booleans_and_integers_witness :
  exists Y',
    call (returned (@BooleanNormalizer.transform Sample.repr_one_decimal
                      (BooleanNormalizer.__init__ ["Garage"; "Id"])))
         Sample.flags = Ok Y' /\
    forall col i c,
      In col ["Garage"; "Id"] ->
      cell_at Sample.flags col i = Some c ->
      exists c',
        cell_at Y' col i = Some c' /\
        match c with
        | Bool b =>
            c' = Int (if b then 1 else 0) \/ c' = Float (if b then 1 else 0)
        | Int z =>
            if Z.eqb z 1 then c' = Int 1 \/ c' = Float 1
            else if Z.eqb z 0 then c' = Int 0 \/ c' = Float 0
                 else c' = Missing
        | Missing => c' = Missing
        | Str _ | Float _ => True
        end.
Proof.
  apply (@boolean_normalizer_on_booleans_and_integers
           Sample.repr_one_decimal
           (BooleanNormalizer.__init__ ["Garage"; "Id"]) Sample.flags).
  - repeat constructor; simpl; intuition discriminate.
  - intros col [<-|[<-|[]]]; reflexivity.
Defined.

(** ** Clipping and the order of the values *)

Lemma clip_cell_clamp lower upper c x :
  num_of_cell c = Some x ->
  exists c', clip_cell lower upper c = Ok c' /\
             num_of_cell c' = Some (clamp lower upper x).
Proof.
  intros Hx. unfold clamp.
  destruct lower as [lo|], upper as [hi|], c; clip_cases;
    eexists; (split; [reflexivity|]); cbn; clip_cases;
    try reflexivity; try lra.
Qed.

Lemma clamp_mono lower upper x1 x2 :
  (x1 <= x2)%Q -> (clamp lower upper x1 <= clamp lower upper x2)%Q.
Proof.
  intros Hle. unfold clamp, clip_bounds.
  destruct lower as [lo|], upper as [hi|]; q_cases; lra.
Qed.

(** X19.  Clipping never reverses the order of two values: when
    [OutlierClipper.transform] succeeds, two numbers of a fitted column
    that were in the order [x1 <= x2] are in that order afterwards. *)
Theorem clipper_keeps_order
  (cols : list string) (lq uq : Q) (X0 : DataFrame)
  (self : OutlierClipper.t) (Y Y' : DataFrame) col i j c1 c2 x1 x2 :
  call (OutlierClipper.fit (OutlierClipper.__init__ cols lq uq)) X0 = Ok self ->
  call (returned (OutlierClipper.transform self)) Y = Ok Y' ->
  In col cols ->
  cell_at Y col i = Some c1 -> num_of_cell c1 = Some x1 ->
  cell_at Y col j = Some c2 -> num_of_cell c2 = Some x2 ->
  (x1 <= x2)%Q ->
  exists c1' c2' x1' x2',
    cell_at Y' col i = Some c1' /\ num_of_cell c1' = Some x1' /\
    cell_at Y' col j = Some c2' /\ num_of_cell c2' = Some x2' /\
    (x1' <= x2')%Q.
Proof.
  intros Hfit Hrun Hcol Hc1 Hx1 Hc2 Hx2 Hle.
  destruct (clipper_fit_spec _ _ _ Hfit) as (_ & Hbounds & Hnd & _).
  simpl in Hbounds, Hnd. specialize (Hnd (NoDup_nil _)).
  rewrite (call_returned _ _ Y (clipper_runs_as self)) in Hrun.
  unfold clipper_value in Hrun. apply outcome_inv in Hrun.
  destruct (Hbounds col Hcol) as (s0 & lower & upper & _ & _ & _ & Hget).
  destruct (loop_rewrite_spec _ fst clip_item _
              (clip_item_stable _) (clip_item_coherent _ Hnd)
              _ _ Hrun (col, (lower, upper)) (dict_get_In _ _ _ _ Hget))
    as (s & s' & Hs & Hclip & Hs').
  simpl in Hs, Hs', Hclip. unfold clip_item in Hclip. simpl in Hclip.
  apply clip_cells in Hclip.
  unfold cell_at in *. rewrite Hs in Hc1, Hc2. rewrite Hs'.
  destruct (result_map_nth _ _ _ _ _ Hclip Hc1) as (c1' & Hcc1 & Hc1').
  destruct (result_map_nth _ _ _ _ _ Hclip Hc2) as (c2' & Hcc2 & Hc2').
  destruct (clip_cell_clamp lower upper c1 x1 Hx1) as (d1 & Hd1 & Hn1).
  destruct (clip_cell_clamp lower upper c2 x2 Hx2) as (d2 & Hd2 & Hn2).
  assert (d1 = c1') by congruence. assert (d2 = c2') by congruence.
  subst d1 d2.
  exists c1', c2', (clamp lower upper x1), (clamp lower upper x2).
  repeat (split; auto). now apply clamp_mono.
Qed.

Lemma clipper_keeps_order_witness :
  exists c1' c2' x1' x2',
    cell_at (mkFrame [0; 1; 2; 3; 4]%Z
               [("a", [Float (7 # 4); Int 2; Missing; Float (7 # 2);
                       Float (82 # 16)]);
                ("b", [Missing; Missing; Missing; Missing; Missing])])
            "a" 3 = Some c1' /\
    num_of_cell c1' = Some x1' /\
    cell_at (mkFrame [0; 1; 2; 3; 4]%Z
               [("a", [Float (7 # 4); Int 2; Missing; Float (7 # 2);
                       Float (82 # 16)]);
                ("b", [Missing; Missing; Missing; Missing; Missing])])
            "a" 4 = Some c2' /\
    num_of_cell c2' = Some x2' /\
    (x1' <= x2')%Q.
Proof.
  apply (clipper_keeps_order ["a"] (1 # 4) (3 # 4) Sample.measures
           (Sample.clipper ["a"] (1 # 4) (3 # 4)
              [("a", (Some (7 # 4), Some (82 # 16)))])
           Sample.measures
           (mkFrame [0; 1; 2; 3; 4]%Z
              [("a", [Float (7 # 4); Int 2; Missing; Float (7 # 2);
                      Float (82 # 16)]);
               ("b", [Missing; Missing; Missing; Missing; Missing])])
           "a" 3%nat 4%nat (Float (7 # 2)) (Int 10) (7 # 2) 10).
  - reflexivity.
  - reflexivity.
  - simpl. auto.
  - reflexivity.
  - reflexivity.
  - reflexivity.
  - reflexivity.
  - vm_compute. congruence.
Defined.

(** ** Dropping columns before or after another unit *)

Lemma not_listed k ks : ~ In k ks -> existsb (String.eqb k) ks = false.
Proof.
  intros Hk. destruct (existsb (String.eqb k) ks) eqn:E; auto.
  now apply existsb_eqb_In in E.
Qed.

Lemma dict_del_set {V} ks k (v : V) d :
  ~ In k ks -> dict_del ks (dict_set k v d) = dict_set k v (dict_del ks d).
Proof.
  intros Hk. pose proof (not_listed k ks Hk) as Hf. unfold dict_del.
  induction d as [|[k0 v0] d IH]; simpl.
  - now rewrite Hf.
  - destruct (String.eqb k k0) eqn:E; simpl.
    + apply String.eqb_eq in E. subst k0. rewrite Hf. simpl.
      now rewrite String.eqb_refl.
    + rewrite IH. destruct (existsb (String.eqb k0) ks); simpl; auto.
      now rewrite E.
Qed.

Lemma dict_del_comm {V} ks1 ks2 (d : dict V) :
  dict_del ks1 (dict_del ks2 d) = dict_del ks2 (dict_del ks1 d).
Proof.
  unfold dict_del. induction d as [|[k v] d IH]; simpl; auto.
  destruct (existsb (String.eqb k) ks1) eqn:E1,
           (existsb (String.eqb k) ks2) eqn:E2; simpl;
    rewrite ?E1, ?E2; simpl; now rewrite IH.
Qed.

Lemma getitem_dropped ks F k :
  ~ In k ks -> frame_getitem (dropped ks F) k = frame_getitem F k.
Proof.
  intros Hk. unfold frame_getitem, dropped. simpl.
  now rewrite dict_get_del, (not_listed k ks Hk).
Qed.

Lemma setitem_dropped ks F k s :
  ~ In k ks ->
  frame_setitem (dropped ks F) k s = dropped ks (frame_setitem F k s).
Proof.
  intros Hk. unfold frame_setitem, dropped. simpl.
  now rewrite dict_del_set.
Qed.

Lemma loop_dropped {A} (key : A -> string)
  (g : A -> Series -> result Series) ks l :
  (forall a, In a l -> ~ In (key a) ks) ->
  forall F,
    loop_frame (fun a => rewrite_column (g a) (key a)) l (dropped ks F) =
    (fst (loop_frame (fun a => rewrite_column (g a) (key a)) l F),
     dropped ks (snd (loop_frame (fun a => rewrite_column (g a) (key a)) l F))).
Proof.
  induction l as [|a l IH]; intros Hl F; simpl; auto.
  assert (Ha : ~ In (key a) ks) by (apply Hl; now left).
  unfold rewrite_column at 1 3 5.
  rewrite (getitem_dropped ks F (key a) Ha).
  destruct (frame_getitem F (key a)) as [s|e]; simpl; auto.
  destruct (g a s) as [s'|e]; simpl; auto.
  rewrite (setitem_dropped ks F (key a) s' Ha).
  apply IH. intros b Hb. apply Hl. now right.
Qed.

Lemma loop_value_dropped {A} (key : A -> string)
  (g : A -> Series -> result Series) ks l F :
  (forall a, In a l -> ~ In (key a) ks) ->
  outcome (loop_frame (fun a => rewrite_column (g a) (key a)) l
             (dropped ks F)) =
  result_bind
    (outcome (loop_frame (fun a => rewrite_column (g a) (key a)) l F))
    (fun F' => Ok (dropped ks F')).
Proof.
  intros Hl. rewrite (loop_dropped key g ks l Hl F). unfold outcome. simpl.
  now destruct (fst (loop_frame _ l F)).
Qed.

Lemma result_map_ext {A B} (f g : A -> result B) l :
  (forall a, In a l -> f a = g a) -> result_map f l = result_map g l.
Proof.
  induction l as [|a l IH]; intros Hl; simpl; auto.
  rewrite (Hl a (or_introl eq_refl)), IH; auto.
  intros b Hb. apply Hl. now right.
Qed.

Lemma select_dropped ks F cols :
  (forall c, In c cols -> ~ In c ks) ->
  frame_select (dropped ks F) cols = frame_select F cols.
Proof.
  intros Hc. unfold frame_select.
  rewrite (result_map_ext
             (fun c => result_bind (frame_getitem (dropped ks F) c)
                         (fun s => Ok (c, s)))
             (fun c => result_bind (frame_getitem F c)
                         (fun s => Ok (c, s)))); auto.
  intros c Hin. now rewrite getitem_dropped by auto.
Qed.

Lemma drop_dropped ignore ks G cols :
  (forall c, In c cols -> ~ In c ks) ->
  frame_drop ignore (dropped ks G) cols =
  result_bind (frame_drop ignore G cols) (fun G' => Ok (dropped ks G')).
Proof.
  intros Hc. unfold frame_drop.
  assert (Hall : forallb (fun c => dict_mem c (frame_columns (dropped ks G)))
                   cols =
                 forallb (fun c => dict_mem c (frame_columns G)) cols).
  { induction cols as [|c cols IH]; cbn [forallb]; auto.
    rewrite IH by (intros b Hb; apply Hc; now right).
    f_equal. unfold dict_mem, dropped. cbn [frame_columns].
    now rewrite dict_get_del, (not_listed c ks (Hc c (or_introl eq_refl))). }
  rewrite Hall.
  destruct (ignore || forallb _ cols); simpl; auto.
  unfold dropped. simpl. now rewrite dict_del_comm.
Qed.

Lemma transform_value_dropped `{FloatRepr} `{DatetimeParser} u ks F :
  (forall c, In c ks ->
             ~ In c (required_columns u) /\ ~ In c (assigned_columns u)) ->
  transform_value u (dropped ks F) =
  result_bind (transform_value u F) (fun F' => Ok (dropped ks F')).
Proof.
  intros Hks.
  assert (Hreq : forall c, In c (required_columns u) -> ~ In c ks)
    by (intros c Hc Hin; destruct (Hks c Hin); auto).
  assert (Hasg : forall c, In c (assigned_columns u) -> ~ In c ks)
    by (intros c Hc Hin; destruct (Hks c Hin); auto).
  clear Hks.
  destruct u as [u|u|u|u|u|u]; simpl in *.
  - unfold area_value. rewrite select_dropped by auto.
    destruct (frame_select F _) as [sub|]; simpl; auto.
    destruct (frame_iloc_col0 _) as [main|]; simpl; auto.
    rewrite setitem_dropped by auto. now apply drop_dropped.
  - unfold rare_value. now apply loop_value_dropped.
  - unfold boolean_value.
    now apply (loop_value_dropped (fun col => col) (fun _ => normalize_flags)).
  - unfold date_value. rewrite getitem_dropped by auto.
    destruct (frame_getitem F _) as [s|]; simpl; auto.
    destruct (to_datetime s) as [dates|]; simpl; auto.
    rewrite !setitem_dropped by auto. apply drop_dropped.
    intros c [<-|[]]. auto.
  - unfold clipper_value. apply (loop_value_dropped fst clip_item).
    intros a Ha. apply Hreq. now apply in_map.
  - unfold dropper_value, frame_drop, dropped. simpl.
    now rewrite dict_del_comm.
Qed.

(** X20.  Dropping columns that a unit neither reads nor assigns can be
    done before the unit or after it: the two orders return the same
    table, or fail with the same exception.  This holds for each of the
    six units. *)
Theorem dropper_commutes `{FloatRepr} `{DatetimeParser}
  (u : transformer) (cols : list string) (F : DataFrame) :
  (forall c, In c cols ->
             ~ In c (required_columns u) /\ ~ In c (assigned_columns u)) ->
  result_bind
    (call (returned (ColumnDropper.transform (ColumnDropper.__init__ cols))) F)
    (call (returned (transform u)))
  =
  result_bind
    (call (returned (transform u)) F)
    (call (returned (ColumnDropper.transform (ColumnDropper.__init__ cols)))).
Proof.
  intros Hcols. rewrite call_dropper. simpl.
  rewrite !(call_returned _ _ _ (transform_runs_as u)).
  change (mkFrame (frame_index F) (dict_del cols (frame_columns F)))
    with (dropped cols F).
  rewrite (transform_value_dropped u cols F Hcols).
  destruct (transform_value u F) as [F'|e]; simpl; auto.
Qed.

Lemma dropper_commutes_witness :
  result_bind
    (call (returned (ColumnDropper.transform
                       (ColumnDropper.__init__ ["Price"]))) Sample.listings)
    (call (returned (@transform Sample.repr_one_decimal Sample.iso_parser
                       (Date (DateFeatureExtractor.__init__
                                "PublishDate" "Publish")))))
  =
  result_bind
    (call (returned (@transform Sample.repr_one_decimal Sample.iso_parser
                       (Date (DateFeatureExtractor.__init__
                                "PublishDate" "Publish"))))
          Sample.listings)
    (call (returned (ColumnDropper.transform
                       (ColumnDropper.__init__ ["Price"])))).
Proof.
  apply (@dropper_commutes Sample.repr_one_decimal Sample.iso_parser
           (Date (DateFeatureExtractor.__init__ "PublishDate" "Publish"))
           ["Price"] Sample.listings).
  intros c [<-|[]]. split.
  - simpl. intros [E|[]]. discriminate E.
  - simpl. intros [E|[E|[]]]; discriminate E.
Defined.

(** ** Which exceptions come out, and when *)

Lemma absent_column F col :
  dict_get col (frame_columns F) = None -> has_column F col = false.
Proof. intros E. unfold has_column, dict_mem. now rewrite E. Qed.

Lemma getitem_raises F col e :
  frame_getitem F col = Raise e ->
  e = KeyError /\ has_column F col = false.
Proof.
  unfold frame_getitem, has_column, dict_mem.
  destruct (dict_get col (frame_columns F)); [discriminate|].
  intros [= <-]. auto.
Qed.

(** A loop that fills a dictionary fails with the failure of one of its
    items. *)
Lemma fold_fill_raises {V} (h : string -> result V)
  (body : dict V -> string -> result (dict V)) l e :
  (forall acc a,
     body acc a = result_bind (h a) (fun v => Ok (dict_set a v acc))) ->
  forall acc, fold_result l body acc = Raise e ->
              exists a, In a l /\ h a = Raise e.
Proof.
  intros Hbody. induction l as [|a l IH]; intros acc; simpl; [discriminate|].
  rewrite Hbody. destruct (h a) as [v|e'] eqn:E; simpl.
  - intros Hrun. destruct (IH _ Hrun) as (b & Hb & Hhb). eauto.
  - intros [= <-]. eauto.
Qed.

(** X21.  [RareCategoryGrouper.fit] fails exactly when one of the
    configured columns is not in the table, and then with [KeyError]:
    nothing else about the table or the threshold makes it fail. *)
Theorem rare_fit_failures self0 X0 :
  (forall e, call (RareCategoryGrouper.fit self0) X0 = Raise e ->
             e = KeyError) /\
  ((exists col, In col (RareCategoryGrouper.columns self0) /\
                has_column X0 col = false) <->
   call (RareCategoryGrouper.fit self0) X0 = Raise KeyError).
Proof.
  assert (Hfail : forall e,
            call (RareCategoryGrouper.fit self0) X0 = Raise e ->
            e = KeyError /\
            exists col, In col (RareCategoryGrouper.columns self0) /\
                        has_column X0 col = false).
  { intros e. rewrite call_rare_fit. unfold rare_fit_value.
    destruct (fold_result _ _ _) as [cats|e'] eqn:E; simpl; [discriminate|].
    intros [= ->].
    destruct (fold_fill_raises _ _ _ _
                (fun acc col =>
                   rare_fit_body (RareCategoryGrouper.min_frequency self0)
                     X0 acc col) _ E) as (col & Hcol & Hh).
    destruct (frame_getitem X0 col) as [s|e'] eqn:Hs; simpl in Hh;
      [discriminate|].
    injection Hh as ->. destruct (getitem_raises _ _ _ Hs). eauto. }
  split.
  - intros e He. now destruct (Hfail e He).
  - split.
    + intros (col & Hcol & Habs).
      destruct (call (RareCategoryGrouper.fit self0) X0) as [self|e] eqn:E.
      * destruct (rare_fit_spec _ _ _ E) as (_ & _ & Hcats).
        destruct (Hcats col Hcol) as (s & Hs & _).
        unfold has_column, dict_mem in Habs. rewrite Hs in Habs.
        discriminate.
      * now destruct (Hfail e eq_refl) as [-> _].
    + intros He. now destruct (Hfail _ He).
Qed.

Lemma quantile_raises s q e :
  quantile s q = Raise e ->
  (e = ValueError /\ in_unit_interval q = false) \/
  (e = TypeError /\
   exists c, In c s /\ isna c = false /\ num_of_cell c = None).
Proof.
  unfold quantile. destruct (in_unit_interval q).
  - destruct (numeric_values s) as [xs|e'] eqn:E; simpl.
    + destruct xs; discriminate.
    + intros [= ->]. right. unfold numeric_values in E.
      destruct (result_map_error _ _ _ E) as (c & Hc & Hf).
      apply filter_In in Hc. destruct Hc as [Hc Hna].
      destruct (num_of_cell c) eqn:Hn; [discriminate|].
      injection Hf as <-. split; auto. exists c. repeat split; auto.
      now destruct (isna c).
  - intros [= <-]. auto.
Qed.

(** X22.  [OutlierClipper.fit] fails in three ways only: with [KeyError]
    when a configured column is not in the table, with [ValueError] when
    one of the two fractions is outside [0, 1], and with [TypeError] when
    a configured column holds a cell that is neither a number nor
    missing. *)
Theorem clipper_fit_failures self0 X0 e :
  call (OutlierClipper.fit self0) X0 = Raise e ->
  (e = KeyError /\
   exists col, In col (OutlierClipper.columns self0) /\
               has_column X0 col = false) \/
  (e = ValueError /\
   (in_unit_interval (OutlierClipper.lower_quantile self0) = false \/
    in_unit_interval (OutlierClipper.upper_quantile self0) = false)) \/
  (e = TypeError /\
   exists col s c,
     In col (OutlierClipper.columns self0) /\
     dict_get col (frame_columns X0) = Some s /\
     In c s /\ isna c = false /\ num_of_cell c = None).
Proof.
  rewrite call_clipper_fit. unfold clipper_fit_value.
  destruct (fold_result _ _ _) as [bounds|e'] eqn:E; simpl; [discriminate|].
  intros [= ->].
  destruct (fold_fill_raises _ _ _ _
              (fun acc col =>
                 clipper_fit_body (OutlierClipper.lower_quantile self0)
                   (OutlierClipper.upper_quantile self0) X0 acc col) _ E)
    as (col & Hcol & Hh).
  unfold column_bounds in Hh.
  destruct (frame_getitem X0 col) as [s|e'] eqn:Hs; simpl in Hh.
  - assert (Hget : dict_get col (frame_columns X0) = Some s).
    { unfold frame_getitem in Hs.
      destruct (dict_get col (frame_columns X0)); congruence. }
    assert (Hq : exists q,
               (q = OutlierClipper.lower_quantile self0 \/
                q = OutlierClipper.upper_quantile self0) /\
               quantile s q = Raise e).
    { destruct (quantile s (OutlierClipper.lower_quantile self0)) eqn:Hl;
        simpl in Hh.
      - destruct (quantile s (OutlierClipper.upper_quantile self0)) eqn:Hu;
          simpl in Hh; [discriminate|].
        injection Hh as ->. eauto.
      - injection Hh as ->. eauto. }
    destruct Hq as (q & Hq & Hraise).
    destruct (quantile_raises _ _ _ Hraise) as [[-> Hout]|[-> (c & Hc)]].
    + right. left. split; auto. destruct Hq as [->| ->]; auto.
    + right. right. split; auto. exists col, s, c. tauto.
  - injection Hh as ->. destruct (getitem_raises _ _ _ Hs) as [-> Habs].
    left. eauto.
Qed.

Lemma clipper_fit_failures_witness :
  (TypeError = KeyError /\
   exists col, In col ["City"] /\ has_column Sample.city_fit col = false) \/
  (TypeError = ValueError /\
   (in_unit_interval (1 # 4) = false \/ in_unit_interval (3 # 4) = false)) \/
  (TypeError = TypeError /\
   exists col s c,
     In col ["City"] /\
     dict_get col (frame_columns Sample.city_fit) = Some s /\
     In c s /\ isna c = false /\ num_of_cell c = None).
Proof.
  apply (clipper_fit_failures
           (OutlierClipper.__init__ ["City"] (1 # 4) (3 # 4))
           Sample.city_fit TypeError).
  reflexivity.
Defined.

(** A loop of column rewritings fails on a column that is not in the
    table, or with the failure of the rewriting of one of its items. *)
Lemma loop_raises {A} (key : A -> string)
  (g : A -> Series -> result Series) l e :
  forall F,
    fst (loop_frame (fun a => rewrite_column (g a) (key a)) l F) = Raise e ->
    exists a, In a l /\
      ((e = KeyError /\ has_column F (key a) = false) \/
       exists s, g a s = Raise e).
Proof.
  induction l as [|a l IH]; intros F; simpl; [discriminate|].
  unfold rewrite_column at 1.
  destruct (frame_getitem F (key a)) as [s|e'] eqn:Hs; simpl.
  - destruct (g a s) as [s'|e'] eqn:Hg; simpl.
    + intros Hrun. destruct (IH _ Hrun) as (b & Hb & [[-> Habs]|Hgb]).
      * exists b. split; auto. left. split; auto.
        destruct (has_column F (key b)) eqn:Hp; auto.
        unfold has_column in *. simpl in Habs.
        now rewrite (dict_mem_set _ _ _ _ Hp) in Habs.
      * exists b. auto.
    + intros [= <-]. exists a. split; auto. right. eauto.
  - intros [= <-]. exists a. split; auto. left.
    now apply getitem_raises.
Qed.

Lemma outcome_raises L e : outcome L = Raise e -> fst L = Raise e.
Proof.
  unfold outcome. destruct (fst L); [discriminate|].
  now intros [= ->].
Qed.

Lemma result_map_ok_all {A B} (f : A -> result B) l l' a :
  result_map f l = Ok l' -> In a l -> exists b, f a = Ok b.
Proof.
  intros Hl Ha. destruct (In_nth_error _ _ Ha) as (i & Hi).
  destruct (result_map_nth _ _ _ _ _ Hl Hi) as (b & Hb & _). eauto.
Qed.

Lemma bfill_axis1_nil (d : dict Series) : bfill_axis1 d = [] -> d = [].
Proof.
  destruct d as [|[k s] d]; simpl; auto.
  destruct (bfill_axis1 d) as [|[k1 r] filled]; discriminate.
Qed.

(** X23.  The exceptions of [transform], unit by unit.  The area unifier
    fails with [IndexError] when it is configured with no column and with
    [KeyError] when a configured column is not in the table; the grouper
    with [KeyError], for a configured column that is not in the table or
    has no retained list; the boolean normalizer with [KeyError], for a
    configured column that is not in the table; the date extractor with
    [KeyError] when its column is not in the table, and otherwise with the
    exception that [to_datetime] raises on that column; the clipper with
    [KeyError] for a column that is not in the table, or with [TypeError];
    the dropper never fails. *)
Theorem transform_failures `{FloatRepr} `{DatetimeParser}
  (u : transformer) (F : DataFrame) (e : exn) :
  call (returned (transform u)) F = Raise e ->
  match u with
  | Area a =>
      (e = IndexError /\ AreaFeatureSelector.area_columns a = []) \/
      (e = KeyError /\
       exists col, In col (AreaFeatureSelector.area_columns a) /\
                   has_column F col = false)
  | Rare r =>
      e = KeyError /\
      exists col, In col (RareCategoryGrouper.columns r) /\
        (has_column F col = false \/
         dict_get col (RareCategoryGrouper.frequent_categories_ r) = None)
  | Boolean b =>
      e = KeyError /\
      exists col, In col (BooleanNormalizer.columns b) /\
                  has_column F col = false
  | Date d =>
      (e = KeyError /\
       has_column F (DateFeatureExtractor.column d) = false) \/
      (exists s,
         dict_get (DateFeatureExtractor.column d) (frame_columns F) = Some s /\
         to_datetime s = Raise e)
  | Clipper c =>
      (e = KeyError /\
       exists col, In col (map fst (OutlierClipper.bounds_ c)) /\
                   has_column F col = false) \/
      e = TypeError
  | Dropper _ => False
  end.
Proof.
  rewrite (call_returned _ _ _ (transform_runs_as u)).
  destruct u as [u|u|u|u|u|u]; simpl.
  - (* the area unifier *)
    unfold area_value.
    destruct (frame_select F _) as [sub|e'] eqn:Hsel; simpl.
    + assert (Hcols : result_map
                (fun c => result_bind (frame_getitem F c)
                            (fun s => Ok (c, s)))
                (AreaFeatureSelector.area_columns u)
              = Ok (frame_columns sub)).
      { unfold frame_select in Hsel.
        destruct (result_map _ _) as [cs|]; simpl in Hsel; [|discriminate].
        now injection Hsel as <-. }
      destruct (frame_iloc_col0 _) as [main|e'] eqn:Hmain; simpl.
      * unfold frame_drop. simpl.
        assert (Hall : forallb
                  (fun c => dict_mem c
                              (dict_set "MainArea" main (frame_columns F)))
                  (AreaFeatureSelector.area_columns u) = true).
        { apply forallb_forall. intros c Hc. apply dict_mem_set.
          destruct (result_map_ok_all _ _ _ c Hcols Hc) as (b & Hb).
          unfold frame_getitem, dict_mem in *.
          destruct (dict_get c (frame_columns F)); [auto|discriminate]. }
        rewrite Hall. discriminate.
      * intros [= ->]. left.
        unfold frame_iloc_col0 in Hmain. simpl in Hmain.
        destruct (bfill_axis1 (frame_columns sub)) as [|[k s] rest] eqn:Hb;
          [|discriminate].
        injection Hmain as <-. split; auto.
        apply bfill_axis1_nil in Hb. rewrite Hb in Hcols.
        apply result_map_length in Hcols.
        destruct (AreaFeatureSelector.area_columns u); [auto|discriminate].
    + intros [= ->]. right. unfold frame_select in Hsel.
      destruct (result_map _ _) as [cs|e'] eqn:Hmap; simpl in Hsel;
        [discriminate|].
      injection Hsel as ->.
      destruct (result_map_error _ _ _ Hmap) as (c & Hc & Hf).
      destruct (frame_getitem F c) as [s|e'] eqn:Hs; simpl in Hf;
        [discriminate|].
      injection Hf as ->. destruct (getitem_raises _ _ _ Hs). eauto.
  - (* the grouper *)
    unfold rare_value. intros Hrun. apply outcome_raises in Hrun.
    destruct (loop_raises (fun col => col)
                (group_rare (RareCategoryGrouper.frequent_categories_ u))
                _ _ _ Hrun) as (col & Hcol & [[-> Habs]|(s & Hg)]).
    + split; eauto.
    + unfold group_rare in Hg.
      destruct (dict_get col _) eqn:Hget; [discriminate|].
      injection Hg as <-. split; eauto.
  - (* the boolean normalizer *)
    unfold boolean_value. intros Hrun. apply outcome_raises in Hrun.
    destruct (loop_raises (fun col => col) (fun _ => normalize_flags)
                _ _ _ Hrun) as (col & Hcol & [[-> Habs]|(s & Hg)]).
    + split; eauto.
    + discriminate.
  - (* the date extractor *)
    unfold date_value.
    destruct (frame_getitem F _) as [s|e'] eqn:Hs; simpl.
    + assert (Hget : dict_get (DateFeatureExtractor.column u)
                       (frame_columns F) = Some s).
      { unfold frame_getitem in Hs.
        destruct (dict_get _ (frame_columns F)); congruence. }
      destruct (to_datetime s) as [dates|e'] eqn:Ed; simpl.
      * unfold frame_drop. simpl.
        assert (Hmem : dict_mem (DateFeatureExtractor.column u)
                         (frame_columns F) = true)
          by (unfold dict_mem; now rewrite Hget).
        rewrite (dict_mem_set _ _ _ _ (dict_mem_set _ _ _ _ Hmem)).
        discriminate.
      * intros [= ->]. right. eauto.
    + intros [= ->]. left. now apply getitem_raises.
  - (* the clipper *)
    unfold clipper_value. intros Hrun. apply outcome_raises in Hrun.
    destruct (loop_raises fst clip_item _ _ _ Hrun)
      as (item & Hitem & [[-> Habs]|(s & Hg)]).
    + left. split; auto. exists (fst item). split; auto. now apply in_map.
    + right. unfold clip_item in Hg. now apply clip_error in Hg.
  - (* the dropper *)
    unfold dropper_value, frame_drop. simpl. discriminate.
Qed.

Lemma transform_failures_witness :
  IndexError = IndexError /\ @nil string = [] \/
  IndexError = KeyError /\
  (exists col, In col [] /\ has_column Sample.areas col = false).
Proof.
  apply (@transform_failures Sample.repr_one_decimal Sample.iso_parser
           (Area (AreaFeatureSelector.__init__ [])) Sample.areas IndexError).
  reflexivity.
Defined.
